(** * The unwind DNS front-end (sbin/unwind/frontend.c) and PKCS12_newpass

    A shallow embedding of the parts of [frontend.c] that screen client
    queries, correlate them with resolver answers, keep the trust-anchor list,
    its file and the blocklist, accept TCP connections and frame their
    queries and answers, watch the routing socket and take over the
    descriptors of the parent, together with the PKCS#12 password-change
    routine of the second source file.

    Layout: part I holds the embedding (data model and functions, named after
    the C they embed), part II the lemmas and theorems about it. *)

From Stdlib Require Import ZArith List Bool Lia Sorted.
From stdpp Require Import base option list gmap strings.

Local Open Scope Z_scope.

(** ** Part I: the embedding *)

(** *** DNS constants (sldns/rrdef.h, sldns/pkthdr.h) *)

(** Modelled from the spec: the numeric values of the rcodes, RR types and
    classes named by section 4.1; their header (sldns/rrdef.h) is not part of
    the sources at hand, the values are the IANA ones. *)
Definition LDNS_RCODE_NOERROR : Z := 0.
Definition LDNS_RCODE_FORMERR : Z := 1.
Definition LDNS_RCODE_SERVFAIL : Z := 2.
Definition LDNS_RCODE_NOTIMPL : Z := 4.
Definition LDNS_RCODE_REFUSED : Z := 5.

Definition LDNS_RR_TYPE_TXT : Z := 16.
Definition LDNS_RR_TYPE_OPT : Z := 41.
Definition LDNS_RR_TYPE_TKEY : Z := 249.
Definition LDNS_RR_TYPE_TSIG : Z := 250.
Definition LDNS_RR_TYPE_IXFR : Z := 251.
Definition LDNS_RR_TYPE_AXFR : Z := 252.
Definition LDNS_RR_TYPE_MAILB : Z := 253.
Definition LDNS_RR_TYPE_MAILA : Z := 254.

Definition LDNS_RR_CLASS_IN : Z := 1.
Definition LDNS_RR_CLASS_CH : Z := 3.

Definition LDNS_HEADER_SIZE : nat := 12.
Definition LDNS_PACKET_QUERY : Z := 0.
Definition UINT16_MAX : Z := 65535.

(** frontend.c, lines 74-83; [sizeof_udp_query] is [sizeof(udpev->query)]. *)
Definition sizeof_udp_query : nat := Z.to_nat 65536.
Definition COMPRESSED_RR_SIZE : nat := 12.
Definition FD_RESERVE : Z := 5.
Definition TCP_TIMEOUT : nat := 15.
Definition DEFAULT_TCP_SIZE : nat := 512.

(** *** sldns_buffer *)

(** Modelled from the spec: the byte buffer of libunbound (sldns/sbuffer.h),
    which is not part of the sources at hand.  A buffer is its storage, a
    position, a limit and a capacity; the operations below are the ones
    [frontend.c] calls, with their documented meaning.  Bytes are integers;
    the storage of a fresh buffer is taken to be zero-filled. *)
Record sldns_buffer : Type := mk_buffer {
  _data : list Z;
  _position : nat;
  _limit : nat;
  _capacity : nat
}.

Definition sldns_buffer_new (capacity : nat) : sldns_buffer :=
  mk_buffer (replicate capacity 0) 0 capacity capacity.

Definition sldns_buffer_position (b : sldns_buffer) : nat := _position b.
Definition sldns_buffer_limit (b : sldns_buffer) : nat := _limit b.
Definition sldns_buffer_capacity (b : sldns_buffer) : nat := _capacity b.
Definition sldns_buffer_begin (b : sldns_buffer) : list Z := _data b.
Definition sldns_buffer_remaining (b : sldns_buffer) : nat :=
  (_limit b - _position b)%nat.
Definition sldns_buffer_current (b : sldns_buffer) : list Z :=
  drop (_position b) (_data b).

Definition sldns_buffer_clear (b : sldns_buffer) : sldns_buffer :=
  mk_buffer (_data b) 0 (_capacity b) (_capacity b).
Definition sldns_buffer_flip (b : sldns_buffer) : sldns_buffer :=
  mk_buffer (_data b) 0 (_position b) (_capacity b).
Definition sldns_buffer_rewind (b : sldns_buffer) : sldns_buffer :=
  mk_buffer (_data b) 0 (_limit b) (_capacity b).
Definition sldns_buffer_skip (b : sldns_buffer) (n : nat) : sldns_buffer :=
  mk_buffer (_data b) (_position b + n) (_limit b) (_capacity b).
Definition sldns_buffer_set_position (b : sldns_buffer) (n : nat) : sldns_buffer :=
  mk_buffer (_data b) n (_limit b) (_capacity b).

(** [memcpy] of [src] over the storage, starting at offset [at_]. *)
Definition write_at (data : list Z) (at_ : nat) (src : list Z) : list Z :=
  take at_ data ++ src ++ drop (at_ + length src) data.

Definition sldns_buffer_write (b : sldns_buffer) (src : list Z) : sldns_buffer :=
  mk_buffer (write_at (_data b) (_position b) src)
            (_position b + length src) (_limit b) (_capacity b).

Definition u16_bytes (v : Z) : list Z := [Z.land (Z.shiftr v 8) 255; Z.land v 255].
Definition u32_bytes (v : Z) : list Z :=
  [Z.land (Z.shiftr v 24) 255; Z.land (Z.shiftr v 16) 255;
   Z.land (Z.shiftr v 8) 255; Z.land v 255].

Definition sldns_buffer_write_u8 (b : sldns_buffer) (v : Z) : sldns_buffer :=
  sldns_buffer_write b [Z.land v 255].
Definition sldns_buffer_write_u16 (b : sldns_buffer) (v : Z) : sldns_buffer :=
  sldns_buffer_write b (u16_bytes v).
Definition sldns_buffer_write_u32 (b : sldns_buffer) (v : Z) : sldns_buffer :=
  sldns_buffer_write b (u32_bytes v).

Definition sldns_read_uint16 (p : list Z) : Z :=
  Z.lor (Z.shiftl (nth 0 p 0) 8) (nth 1 p 0).

(** [sldns_buffer_set_capacity] reallocates the storage; [ok] is whether
    [realloc] succeeded.  On success limit and capacity both become the new
    capacity and the position is kept; on failure the buffer is untouched and
    the call returns 0. *)
Definition resize (data : list Z) (capacity : nat) : list Z :=
  take capacity data ++ replicate (capacity - length data) 0.

Definition sldns_buffer_set_capacity (ok : bool) (b : sldns_buffer) (capacity : nat)
  : bool * sldns_buffer :=
  if ok then (true, mk_buffer (resize (_data b) capacity) (_position b) capacity capacity)
  else (false, b).

(** [sldns_buffer_copy result from]: copy as much of [from] (up to its limit)
    as fits the capacity of [result], then flip [result]. *)
Definition sldns_buffer_copy (result from : sldns_buffer) : sldns_buffer :=
  let tocopy := Nat.min (sldns_buffer_limit from) (sldns_buffer_capacity result) in
  sldns_buffer_flip
    (sldns_buffer_write (sldns_buffer_clear result) (take tocopy (sldns_buffer_begin from))).

(** *** Header accessors (sldns/pkthdr.h) *)

(** Modelled from the spec: the header macros that [check_query] and
    [chaos_answer] use are declared in sldns/pkthdr.h, which is not part of
    the sources at hand; the masks and offsets are those of the DNS header
    (flags in octets 2 and 3, the four counts in octets 4 to 11). *)
Definition wire (buf : list Z) (i : nat) : Z := nth i buf 0.

Definition LDNS_RD_MASK : Z := 1.
Definition LDNS_TC_MASK : Z := 2.
Definition LDNS_OPCODE_MASK : Z := 120.
Definition LDNS_OPCODE_SHIFT : Z := 3.
Definition LDNS_QR_MASK : Z := 128.
Definition LDNS_RCODE_MASK : Z := 15.
Definition LDNS_CD_MASK : Z := 16.
Definition LDNS_RA_MASK : Z := 128.

Definition LDNS_QR_WIRE (buf : list Z) : Z := Z.land (wire buf 2) LDNS_QR_MASK.
Definition LDNS_TC_WIRE (buf : list Z) : Z := Z.land (wire buf 2) LDNS_TC_MASK.
Definition LDNS_RD_WIRE (buf : list Z) : Z := Z.land (wire buf 2) LDNS_RD_MASK.
Definition LDNS_CD_WIRE (buf : list Z) : Z := Z.land (wire buf 3) LDNS_CD_MASK.
Definition LDNS_OPCODE_WIRE (buf : list Z) : Z :=
  Z.shiftr (Z.land (wire buf 2) LDNS_OPCODE_MASK) LDNS_OPCODE_SHIFT.
Definition LDNS_RCODE_WIRE (buf : list Z) : Z := Z.land (wire buf 3) LDNS_RCODE_MASK.

(** [*(wirebuf+i) &= ~mask] and [*(wirebuf+i) |= mask] on an octet. *)
Definition clr_mask (buf : list Z) (i : nat) (mask : Z) : list Z :=
  <[i := Z.land (wire buf i) (255 - mask)]> buf.
Definition set_mask (buf : list Z) (i : nat) (mask : Z) : list Z :=
  <[i := Z.lor (wire buf i) mask]> buf.

Definition LDNS_TC_CLR (buf : list Z) : list Z := clr_mask buf 2 LDNS_TC_MASK.
Definition LDNS_QR_SET (buf : list Z) : list Z := set_mask buf 2 LDNS_QR_MASK.
Definition LDNS_RD_SET (buf : list Z) : list Z := set_mask buf 2 LDNS_RD_MASK.
Definition LDNS_RA_SET (buf : list Z) : list Z := set_mask buf 3 LDNS_RA_MASK.
Definition LDNS_CD_SET (buf : list Z) : list Z := set_mask buf 3 LDNS_CD_MASK.
Definition LDNS_RCODE_SET (buf : list Z) (r : Z) : list Z :=
  <[3%nat := Z.lor (Z.land (wire buf 3) (255 - LDNS_RCODE_MASK)) r]> buf.

Definition LDNS_QDCOUNT (buf : list Z) : Z := sldns_read_uint16 (drop 4 buf).
Definition LDNS_ANCOUNT (buf : list Z) : Z := sldns_read_uint16 (drop 6 buf).
Definition LDNS_NSCOUNT (buf : list Z) : Z := sldns_read_uint16 (drop 8 buf).
Definition LDNS_ARCOUNT (buf : list Z) : Z := sldns_read_uint16 (drop 10 buf).

Definition with_data (b : sldns_buffer) (d : list Z) : sldns_buffer :=
  mk_buffer d (_position b) (_limit b) (_capacity b).

(** *** check_query (frontend.c, lines 885-924) *)

(** The C function returns an [int] and may clear the TC bit in place: the
    embedding returns the code together with the buffer it leaves behind. *)
Definition check_query (pkt : sldns_buffer) : Z * sldns_buffer :=
  if (sldns_buffer_limit pkt <? LDNS_HEADER_SIZE)%nat then (-1, pkt)
  else if negb (LDNS_QR_WIRE (sldns_buffer_begin pkt) =? 0) then (-1, pkt)
  else if negb (LDNS_TC_WIRE (sldns_buffer_begin pkt) =? 0) then
    (LDNS_RCODE_FORMERR, with_data pkt (LDNS_TC_CLR (sldns_buffer_begin pkt)))
  else if LDNS_RD_WIRE (sldns_buffer_begin pkt) =? 0 then (LDNS_RCODE_REFUSED, pkt)
  else if negb (LDNS_OPCODE_WIRE (sldns_buffer_begin pkt) =? LDNS_PACKET_QUERY) then
    (LDNS_RCODE_NOTIMPL, pkt)
  else if negb (LDNS_QDCOUNT (sldns_buffer_begin pkt) =? 1)
          && negb (LDNS_ANCOUNT (sldns_buffer_begin pkt) =? 0)
          && negb (LDNS_NSCOUNT (sldns_buffer_begin pkt) =? 0)
          && (1 <? LDNS_ARCOUNT (sldns_buffer_begin pkt)) then
    (LDNS_RCODE_FORMERR, pkt)
  else (0, pkt).

(** *** C strings *)

(** A C string is the list of its octets before the terminating NUL.  The
    functions below follow <string.h>: they stop at the first NUL of either
    argument and compare octets as [unsigned char]. *)
Definition cstring : Type := list Z.

Definition NUL : Z := 0.
Definition NEWLINE : Z := 10.
Definition DOT : Z := 46.

Definition c_str (s : string) : cstring :=
  (fun a => Z.of_nat (Ascii.nat_of_ascii a)) <$> String.list_ascii_of_string s.

Fixpoint strcmp (s1 s2 : cstring) : Z :=
  match s1, s2 with
  | [], [] => 0
  | [], c2 :: _ => 0 - c2
  | c1 :: _, [] => c1
  | c1 :: r1, c2 :: r2 =>
      if c1 =? c2 then (if c1 =? NUL then 0 else strcmp r1 r2) else c1 - c2
  end.

Definition tolower (c : Z) : Z :=
  if (65 <=? c) && (c <=? 90) then c + 32 else c.

Fixpoint strcasecmp (s1 s2 : cstring) : Z :=
  match s1, s2 with
  | [], [] => 0
  | [], c2 :: _ => 0 - tolower c2
  | c1 :: _, [] => tolower c1
  | c1 :: r1, c2 :: r2 =>
      if tolower c1 =? tolower c2 then (if c1 =? NUL then 0 else strcasecmp r1 r2)
      else tolower c1 - tolower c2
  end.

(** [strdup]: the copy ends at the first NUL of the source. *)
Fixpoint strdup (s : cstring) : cstring :=
  match s with
  | [] => []
  | c :: r => if c =? NUL then [] else c :: strdup r
  end.

Definition strlen (s : cstring) : nat := length (strdup s).

(** *** Trust anchors (frontend.c, lines 1111-1175) *)

(** [struct trust_anchor_head] is a TAILQ of strings: a list, head first. *)
Definition trust_anchor_head : Type := list cstring.

(** [add_new_ta]: sorted insert; a duplicate is dropped. *)
Fixpoint add_new_ta (tah : trust_anchor_head) (val : cstring) : trust_anchor_head :=
  match tah with
  | [] => [strdup val]
  | i :: rest =>
      let cmp := strcmp i (strdup val) in
      if cmp =? 0 then tah
      else if 0 <? cmp then strdup val :: tah
      else i :: add_new_ta rest val
  end.

Definition free_tas (tah : trust_anchor_head) : trust_anchor_head := [].

(** The [TAILQ_FOREACH] of [merge_tas]: walks [newh] with [j] running over
    [oldh]; returns [chg] and where [j] stands when the loop ends. *)
Fixpoint merge_tas_loop (newh : trust_anchor_head) (j : trust_anchor_head)
  : bool * trust_anchor_head :=
  match newh with
  | [] => (false, j)
  | i :: newh' =>
      match j with
      | [] => (true, j)
      | tj :: j' => if negb (strcmp i tj =? 0) then (true, j) else merge_tas_loop newh' j'
      end
  end.

(** [merge_tas newh oldh] returns [(chg, newh', oldh')]: the value returned
    and the two queues as the call leaves them. *)
Definition merge_tas (newh oldh : trust_anchor_head)
  : bool * trust_anchor_head * trust_anchor_head :=
  let '(chg0, j) := merge_tas_loop newh oldh in
  let chg := match j with [] => chg0 | _ :: _ => true end in
  if chg then (true, [], free_tas oldh ++ newh)
  else (false, free_tas newh, oldh).

(** *** Blocklist (frontend.c, lines 1273-1330) *)

(** The red-black tree [bl_head] is represented by its in-order sequence: a
    list kept sorted by [bl_cmp]. *)
Definition bl_tree : Type := list cstring.

Definition bl_cmp (e1 e2 : cstring) : Z := strcasecmp e1 e2.

(** [RB_INSERT]: returns the element already stored under an equal key, if
    any (and then leaves the tree alone), else inserts. *)
Fixpoint RB_INSERT (head : bl_tree) (elm : cstring) : option cstring * bl_tree :=
  match head with
  | [] => (None, [elm])
  | x :: rest =>
      let c := bl_cmp elm x in
      if c =? 0 then (Some x, head)
      else if c <? 0 then (None, elm :: head)
      else let '(r, rest') := RB_INSERT rest elm in (r, x :: rest')
  end.

(** [RB_FIND]: the stored element whose key compares equal, if any. *)
Fixpoint RB_FIND (head : bl_tree) (elm : cstring) : option cstring :=
  match head with
  | [] => None
  | x :: rest => if bl_cmp elm x =? 0 then Some x else RB_FIND rest elm
  end.

Definition free_bl (head : bl_tree) : bl_tree := [].

(** [getline] over the whole stream: each line ends after its newline; the
    last line may lack one.  [cur] collects the current line in reverse. *)
Fixpoint getlines_from (cur : list Z) (f : list Z) : list (list Z) :=
  match f with
  | [] => match cur with [] => [] | _ :: _ => [rev cur] end
  | c :: rest =>
      if c =? NEWLINE then rev (c :: cur) :: getlines_from [] rest
      else getlines_from (c :: cur) rest
  end.

Definition getlines (f : list Z) : list (list Z) := getlines_from [] f.

(** The in-place edit of one line buffer (lines 1291-1296).  [linelen] is
    never 0 for a line [getline] returns. *)
Definition blocklist_line (line : list Z) : list Z :=
  let linelen := length line in
  if wire line (linelen - 1) =? NEWLINE then
    if (2 <=? linelen)%nat && negb (wire line (linelen - 2) =? DOT)
    then <[(linelen - 1)%nat := DOT]> line
    else <[(linelen - 1)%nat := NUL]> line
  else line.

(** One iteration of the [while] loop: a duplicate is logged and freed. *)
Definition blocklist_insert (head : bl_tree) (line : list Z) : bl_tree :=
  snd (RB_INSERT head (strdup (blocklist_line line))).

(** [parse_blocklist]: [f] is the stream [fdopen] returned ([None] when it
    failed, and then the old tree is kept). *)
Definition parse_blocklist (f : option (list Z)) (head : bl_tree) : bl_tree :=
  match f with
  | None => head
  | Some content => foldl blocklist_insert (free_bl head) (getlines content)
  end.

(** *** PKCS12_newpass (second source file, lines 77-286) *)

Module P12.

Definition password : Type := cstring.

(** Object identifiers as [OBJ_obj2nid] reports them (openssl/objects.h). *)
Definition NID_pkcs7_data : Z := 21.
Definition NID_pkcs7_encrypted : Z := 26.
Definition NID_pkcs8ShroudedKeyBag : Z := 151.

Record X509_ALGOR : Type := {
algorithm : Z;               (* OBJ_obj2nid(alg->algorithm) *)
parameter : list Z           (* alg->parameter->value.sequence *)
}.

Record X509_SIG : Type := { algor : X509_ALGOR; digest : list Z }.

Record PKCS12_SAFEBAG : Type := {
bag_type : Z;                (* OBJ_obj2nid(bag->type) *)
shkeybag : X509_SIG          (* bag->value.shkeybag *)
}.

Record PKCS7 : Type := {
p7_type : Z;                 (* OBJ_obj2nid(pkcs7->type) *)
p7_content : list Z;
p7_enc_algorithm : X509_ALGOR  (* d.encrypted->enc_data->algorithm *)
}.

Record PBEPARAM : Type := { salt : list Z; iter : Z }.

Record PKCS12 : Type := {
authsafes_data : option (list Z);   (* pkcs12->authsafes->d.data *)
mac_digest : list Z                 (* pkcs12->mac->dinfo->digest *)
}.

(** The libcrypto primitives the file calls.  Each is a function of its
  arguments; [None] (or [false]) is the failure return, which also covers
  failed allocations. *)
Record libcrypto : Type := {
PKCS12_verify_mac : PKCS12 -> password -> bool;
PKCS12_unpack_authsafes : PKCS12 -> option (list PKCS7);
sk_PKCS7_new_null : option (list PKCS7);
sk_PKCS7_push : list PKCS7 -> PKCS7 -> option (list PKCS7);
PKCS12_unpack_p7data : PKCS7 -> option (list PKCS12_SAFEBAG);
PKCS12_unpack_p7encdata : PKCS7 -> password -> option (list PKCS12_SAFEBAG);
PKCS12_pack_p7data : list PKCS12_SAFEBAG -> option PKCS7;
PKCS12_pack_p7encdata :
  Z -> password -> Z -> Z -> list PKCS12_SAFEBAG -> option PKCS7;
PKCS8_decrypt : X509_SIG -> password -> option (list Z);
PKCS8_encrypt : Z -> password -> Z -> Z -> list Z -> option X509_SIG;
d2i_PBEPARAM : list Z -> option PBEPARAM;
ASN1_OCTET_STRING_new : bool;
ASN1_OCTET_STRING_set : list Z -> option (list Z);
PKCS12_pack_authsafes : PKCS12 -> list PKCS7 -> option (list Z);
PKCS12_gen_mac : PKCS12 -> password -> option (list Z)
}.

Section Npas.
Variable L : libcrypto.

(** [alg_get]: [(nid, iter, saltlen)] on success. *)
Definition alg_get (alg : X509_ALGOR) : option (Z * Z * Z) :=
  match d2i_PBEPARAM L (parameter alg) with
  | None => None
  | Some pbe => Some (algorithm alg, iter pbe, Z.of_nat (length (salt pbe)))
  end.

(** [newpass_bag] returns its [int] and the bag as it leaves it. *)
Definition newpass_bag (bag : PKCS12_SAFEBAG) (oldpass newpass : password)
  : Z * PKCS12_SAFEBAG :=
  if negb (bag_type bag =? NID_pkcs8ShroudedKeyBag) then (1, bag)
  else match PKCS8_decrypt L (shkeybag bag) oldpass with
       | None => (0, bag)
       | Some p8 =>
           match alg_get (algor (shkeybag bag)) with
           | None => (0, bag)
           | Some (p8_nid, p8_iter, p8_saltlen) =>
               match PKCS8_encrypt L p8_nid newpass p8_saltlen p8_iter p8 with
               | None => (0, bag)
               | Some p8new => (1, {| bag_type := bag_type bag; shkeybag := p8new |})
               end
           end
       end.

Fixpoint newpass_bags (bags : list PKCS12_SAFEBAG) (oldpass newpass : password)
  : Z * list PKCS12_SAFEBAG :=
  match bags with
  | [] => (1, [])
  | bag :: rest =>
      let '(r, bag') := newpass_bag bag oldpass newpass in
      if r =? 0 then (0, bag' :: rest)
      else let '(r', rest') := newpass_bags rest oldpass newpass in (r', bag' :: rest')
  end.

(** [pkcs7_repack_data] returns [ret] and the stack [safes] as it leaves it. *)
Definition pkcs7_repack_data (pkcs7 : PKCS7) (safes : list PKCS7)
    (oldpass newpass : password) : Z * list PKCS7 :=
  match PKCS12_unpack_p7data L pkcs7 with
  | None => (0, safes)
  | Some bags =>
      let '(r, bags') := newpass_bags bags oldpass newpass in
      if r =? 0 then (0, safes)
      else match PKCS12_pack_p7data L bags' with
           | None => (0, safes)
           | Some data =>
               match sk_PKCS7_push L safes data with
               | None => (0, safes)
               | Some safes' => (1, safes')
               end
           end
  end.

Definition pkcs7_repack_encdata (pkcs7 : PKCS7) (safes : list PKCS7)
    (oldpass newpass : password) : Z * list PKCS7 :=
  match PKCS12_unpack_p7encdata L pkcs7 oldpass with
  | None => (0, safes)
  | Some bags =>
      match alg_get (p7_enc_algorithm pkcs7) with
      | None => (0, safes)
      | Some (pbe_nid, pbe_iter, pbe_saltlen) =>
          let '(r, bags') := newpass_bags bags oldpass newpass in
          if r =? 0 then (0, safes)
          else match PKCS12_pack_p7encdata L pbe_nid newpass pbe_saltlen pbe_iter bags' with
               | None => (0, safes)
               | Some data =>
                   match sk_PKCS7_push L safes data with
                   | None => (0, safes)
                   | Some safes' => (1, safes')
                   end
               end
      end
  end.

(** [pkcs12_repack_authsafes]: on every failure the old authsafes data is
    put back (the [err:] block); on success data and MAC are replaced. *)
Definition pkcs12_repack_authsafes (pkcs12 : PKCS12) (safes : list PKCS7)
    (newpass : password) : Z * PKCS12 :=
  match authsafes_data pkcs12 with
  | None => (0, pkcs12)
  | Some old_data =>
      if negb (ASN1_OCTET_STRING_new L) then (0, pkcs12)
      else
        let fresh := {| authsafes_data := Some []; mac_digest := mac_digest pkcs12 |} in
        match PKCS12_pack_authsafes L fresh safes with
        | None => (0, pkcs12)
        | Some packed =>
            let p := {| authsafes_data := Some packed; mac_digest := mac_digest pkcs12 |} in
            match PKCS12_gen_mac L p newpass with
            | None => (0, pkcs12)
            | Some mac =>
                if negb (ASN1_OCTET_STRING_new L) then (0, pkcs12)
                else match ASN1_OCTET_STRING_set L mac with
                     | None => (0, pkcs12)
                     | Some new_mac =>
                         (1, {| authsafes_data := Some packed; mac_digest := new_mac |})
                     end
            end
        end
  end.

(** The [for] loop of [PKCS12_newpass]: [None] is [goto err], [Some safes]
    the stack when the loop runs to its end. *)
Fixpoint newpass_authsafes (authsafes : list PKCS7) (safes : list PKCS7)
    (oldpass newpass : password) : option (list PKCS7) :=
  match authsafes with
  | [] => Some safes
  | pkcs7 :: rest =>
      if p7_type pkcs7 =? NID_pkcs7_data then
        let '(r, safes') := pkcs7_repack_data pkcs7 safes oldpass newpass in
        if negb (r =? 0) then None else newpass_authsafes rest safes' oldpass newpass
      else if p7_type pkcs7 =? NID_pkcs7_encrypted then
        let '(r, safes') := pkcs7_repack_encdata pkcs7 safes oldpass newpass in
        if negb (r =? 0) then None else newpass_authsafes rest safes' oldpass newpass
      else newpass_authsafes rest safes oldpass newpass
  end.

(** [PKCS12_newpass] returns [ret] and the structure as it leaves it. *)
Definition PKCS12_newpass (pkcs12 : option PKCS12) (oldpass newpass : password)
  : Z * option PKCS12 :=
  match pkcs12 with
  | None => (0, None)
  | Some p12 =>
      if negb (PKCS12_verify_mac L p12 oldpass) then (0, pkcs12)
      else match PKCS12_unpack_authsafes L p12 with
           | None => (0, pkcs12)
           | Some authsafes =>
               match sk_PKCS7_new_null L with
               | None => (0, pkcs12)
               | Some safes =>
                   match newpass_authsafes authsafes safes oldpass newpass with
                   | None => (0, pkcs12)
                   | Some safes' =>
                       let '(r, p12') := pkcs12_repack_authsafes p12 safes' newpass in
                       if r =? 0 then (0, Some p12') else (1, Some p12')
                   end
               end
           end
  end.
(** The repack call the loop makes for [pkcs7] returns success: the element
    is of one of the two types the [switch] handles and its repack function
    returns 1. *)
Definition repack_succeeds (pkcs7 : PKCS7) (safes : list PKCS7)
    (o n : password) : Prop :=
  (p7_type pkcs7 = NID_pkcs7_data /\ fst (pkcs7_repack_data pkcs7 safes o n) = 1)
  \/ (p7_type pkcs7 = NID_pkcs7_encrypted
      /\ fst (pkcs7_repack_encdata pkcs7 safes o n) = 1).
End Npas.

End P12.

(** *** The front-end state *)

(** How a handler ends: it returns ([Ok]), the process exits through
    [fatal]/[fatalx] ([Fatal]), the C has no defined behaviour (a NULL or
    dangling pointer is used: [Undefined]), or the id-drawing loop has used up
    the draws it was given and is still running ([Spinning]). *)
Inductive outcome (A : Type) : Type :=
  | Ok (a : A)
  | Fatal
  | Undefined
  | Spinning.
Arguments Ok {A} a.
Arguments Fatal {A}.
Arguments Undefined {A}.
Arguments Spinning {A}.

#[global] Instance outcome_ret : MRet outcome := fun A a => Ok a.
#[global] Instance outcome_bind : MBind outcome := fun A B f m =>
  match m with
  | Ok a => f a
  | Fatal => Fatal
  | Undefined => Undefined
  | Spinning => Spinning
  end.

(** Dereferencing a pointer that may be NULL. *)
Definition deref {A : Type} (p : option A) : outcome A :=
  match p with Some a => Ok a | None => Undefined end.

Definition loc : Type := positive.
Definition sockaddr_storage : Type := Z.

(** Modelled from the spec: the parsed views of a DNS message that libunbound
    hands out (util/data/msgparse.h, msgreply.h), reduced to the fields
    [frontend.c] reads: section 3 lists them as qinfo (qname, qtype, qclass),
    qmsg (id, flags) and edns (presence, udp size, DO bit). *)
Record query_info : Type := {
  qname : list Z;
  qname_len : nat;
  qtype : Z;
  qclass : Z
}.

Record msg_parse : Type := { msg_id : Z; msg_flags : Z }.

Record edns_data : Type := { edns_present : bool; udp_size : Z; bits : Z }.

Record reply_info : Type := { rep_flags : Z; rep_rrsets : list Z }.

Definition BIT_CD : Z := 16.
Definition EDNS_DO : Z := 32768.

Definition query_info_zero : query_info :=
  {| qname := []; qname_len := 0; qtype := 0; qclass := 0 |}.
Definition msg_parse_zero : msg_parse := {| msg_id := 0; msg_flags := 0 |}.
Definition edns_data_zero : edns_data :=
  {| edns_present := false; udp_size := 0; bits := 0 |}.

(** [struct pending_query].  The three [struct event] members are kept as
    their "initialized" flag ([event_set] was called); whether an event is
    pending is the event base's business, see [pq_events] below. *)
Record pending_query : Type := mk_pq {
  from_ : sockaddr_storage;
  qbuf : option sldns_buffer;
  abuf : option sldns_buffer;
  region : bool;
  qinfo : query_info;
  qmsg : option msg_parse;
  edns : edns_data;
  ev : bool;
  resp_ev : bool;
  tmo_ev : bool;
  imsg_id : Z;
  fd : Z;
  tcp : bool
}.

(** What [calloc] returns. *)
Definition pq_zero : pending_query :=
  mk_pq 0 None None false query_info_zero None edns_data_zero false false false 0 0 false.

Definition set_qbuf (pq : pending_query) (b : option sldns_buffer) : pending_query :=
  mk_pq (from_ pq) b (abuf pq) (region pq) (qinfo pq) (qmsg pq) (edns pq)
        (ev pq) (resp_ev pq) (tmo_ev pq) (imsg_id pq) (fd pq) (tcp pq).
Definition set_abuf (pq : pending_query) (b : option sldns_buffer) : pending_query :=
  mk_pq (from_ pq) (qbuf pq) b (region pq) (qinfo pq) (qmsg pq) (edns pq)
        (ev pq) (resp_ev pq) (tmo_ev pq) (imsg_id pq) (fd pq) (tcp pq).
Definition set_qinfo (pq : pending_query) (q : query_info) : pending_query :=
  mk_pq (from_ pq) (qbuf pq) (abuf pq) (region pq) q (qmsg pq) (edns pq)
        (ev pq) (resp_ev pq) (tmo_ev pq) (imsg_id pq) (fd pq) (tcp pq).
Definition set_qmsg (pq : pending_query) (m : option msg_parse) : pending_query :=
  mk_pq (from_ pq) (qbuf pq) (abuf pq) (region pq) (qinfo pq) m (edns pq)
        (ev pq) (resp_ev pq) (tmo_ev pq) (imsg_id pq) (fd pq) (tcp pq).
Definition set_edns (pq : pending_query) (e : edns_data) : pending_query :=
  mk_pq (from_ pq) (qbuf pq) (abuf pq) (region pq) (qinfo pq) (qmsg pq) e
        (ev pq) (resp_ev pq) (tmo_ev pq) (imsg_id pq) (fd pq) (tcp pq).
Definition set_imsg_id (pq : pending_query) (i : Z) : pending_query :=
  mk_pq (from_ pq) (qbuf pq) (abuf pq) (region pq) (qinfo pq) (qmsg pq) (edns pq)
        (ev pq) (resp_ev pq) (tmo_ev pq) i (fd pq) (tcp pq).

(** The events a pending query owns: [ev], [resp_ev] and [tmo_ev]. *)
Inductive pq_event : Type := EvRead | EvResp | EvTmo.

#[global] Instance pq_event_eq_dec : EqDecision pq_event.
Proof. solve_decision. Defined.

#[global] Instance pq_event_countable : Countable pq_event.
Proof.
  refine (inj_countable'
            (fun e => match e with EvRead => 0%nat | EvResp => 1%nat | EvTmo => 2%nat end)
            (fun n => match n with 0%nat => EvRead | 1%nat => EvResp | _ => EvTmo end) _).
  intros []; reflexivity.
Defined.

(** [struct tcp_accept_ev]: for each of its two events, whether it is pending
    in the event base, and for the [pause] timer the time it is due. *)
Record tcp_accept_ev : Type := {
  accept_pending : bool;          (* tcpev->ev *)
  pause_due : option nat          (* tcpev->pause: [Some t] when pending *)
}.

Inductive listener : Type := tcp4 | tcp6.

#[global] Instance listener_eq_dec : EqDecision listener.
Proof. solve_decision. Defined.

(** What the front-end hands to the outside. *)
Inductive output : Type :=
  | Sendto (s : Z) (payload : list Z) (to : sockaddr_storage)
  | ImsgQuery (id : Z) (name : cstring) (t c : Z)
  | Close (s : Z)
  | ShutdownRd (s : Z)
  | TcpWrite (s : Z) (payload : list Z).

(** The process state the handlers act on.  [heap] holds the allocated
    [struct pending_query] objects by address and [pending_queries] is the
    TAILQ of those addresses, head first.  [pq_events] is the part of the
    libevent base that concerns pending queries: the events that are pending,
    each with the time it is due when it is a timer.  [fds] is the set of
    descriptors open in the process, [now] the clock in seconds. *)
Record frontend : Type := mk_frontend {
  heap : gmap loc pending_query;
  pending_queries : list loc;
  pq_events : gmap (loc * pq_event) (option nat);
  fds : gset Z;
  dtablesize : Z;
  tcp4ev : tcp_accept_ev;
  tcp6ev : tcp_accept_ev;
  bl_head : bl_tree;
  now : nat;
  out : list output
}.

Definition set_heap (st : frontend) (h : gmap loc pending_query) : frontend :=
  mk_frontend h (pending_queries st) (pq_events st) (fds st) (dtablesize st)
              (tcp4ev st) (tcp6ev st) (bl_head st) (now st) (out st).
Definition set_pending_queries (st : frontend) (q : list loc) : frontend :=
  mk_frontend (heap st) q (pq_events st) (fds st) (dtablesize st)
              (tcp4ev st) (tcp6ev st) (bl_head st) (now st) (out st).
Definition set_pq_events (st : frontend) (e : gmap (loc * pq_event) (option nat)) : frontend :=
  mk_frontend (heap st) (pending_queries st) e (fds st) (dtablesize st)
              (tcp4ev st) (tcp6ev st) (bl_head st) (now st) (out st).
Definition set_fds (st : frontend) (f : gset Z) : frontend :=
  mk_frontend (heap st) (pending_queries st) (pq_events st) f (dtablesize st)
              (tcp4ev st) (tcp6ev st) (bl_head st) (now st) (out st).
Definition set_now (st : frontend) (t : nat) : frontend :=
  mk_frontend (heap st) (pending_queries st) (pq_events st) (fds st) (dtablesize st)
              (tcp4ev st) (tcp6ev st) (bl_head st) t (out st).
Definition emit (st : frontend) (o : output) : frontend :=
  mk_frontend (heap st) (pending_queries st) (pq_events st) (fds st) (dtablesize st)
              (tcp4ev st) (tcp6ev st) (bl_head st) (now st) (out st ++ [o]).

Definition tcpev (st : frontend) (l : listener) : tcp_accept_ev :=
  match l with tcp4 => tcp4ev st | tcp6 => tcp6ev st end.
Definition set_tcpev (st : frontend) (l : listener) (e : tcp_accept_ev) : frontend :=
  match l with
  | tcp4 => mk_frontend (heap st) (pending_queries st) (pq_events st) (fds st) (dtablesize st)
              e (tcp6ev st) (bl_head st) (now st) (out st)
  | tcp6 => mk_frontend (heap st) (pending_queries st) (pq_events st) (fds st) (dtablesize st)
              (tcp4ev st) e (bl_head st) (now st) (out st)
  end.

(** [*p = pq]: store through a pointer to a live object. *)
Definition store (p : loc) (pq : pending_query) (st : frontend) : frontend :=
  set_heap st (<[p := pq]> (heap st)).

(** [event_add] and [event_del] on an event of the pending query at [p]. *)
Definition event_add (p : loc) (e : pq_event) (due : option nat) (st : frontend) : frontend :=
  set_pq_events st (<[(p, e) := due]> (pq_events st)).
Definition event_del (p : loc) (e : pq_event) (st : frontend) : frontend :=
  set_pq_events st (delete (p, e) (pq_events st)).

(** *** find_pending_query (lines 986-995) *)

Fixpoint find_pending_query_in (h : gmap loc pending_query) (q : list loc) (id : Z)
  : option loc :=
  match q with
  | [] => None
  | p :: rest =>
      match h !! p with
      | Some pq => if imsg_id pq =? id then Some p else find_pending_query_in h rest id
      | None => find_pending_query_in h rest id
      end
  end.

Definition find_pending_query (st : frontend) (id : Z) : option loc :=
  find_pending_query_in (heap st) (pending_queries st) id.

(** *** free_pending_query (lines 613-634) *)

Definition del_if (initialized : bool) (p : loc) (e : pq_event) (st : frontend) : frontend :=
  if initialized then event_del p e st else st.

Definition close (s : Z) (st : frontend) : frontend :=
  emit (set_fds st (fds st ∖ {[s]})) (Close s).

Definition free_pending_query (p : option loc) (st : frontend) : outcome frontend :=
  match p with
  | None => Ok st
  | Some p =>
      pq ← deref (heap st !! p);
      let st1 := set_pending_queries st (filter (fun q => q ≠ p) (pending_queries st)) in
      let st2 :=
        if tcp pq then
          let st' := del_if (tmo_ev pq) p EvTmo
                       (del_if (resp_ev pq) p EvResp (del_if (ev pq) p EvRead st1)) in
          if negb (fd pq =? -1) then close (fd pq) st' else st'
        else st1 in
      Ok (set_heap st2 (delete p (heap st2)))
  end.

#[global] Instance outcome_fmap : FMap outcome := fun A B f m =>
  match m with
  | Ok a => Ok (f a)
  | Fatal => Fatal
  | Undefined => Undefined
  | Spinning => Spinning
  end.

(** *** The libunbound interface *)

(** Modelled from the spec: the wire parsing and encoding primitives are
    "treated as a library" (section 1) and are not part of the sources at
    hand.  Each is taken as a function of the arguments [frontend.c] passes:
    - [query_info_parse] gives the question and the position it leaves the
      buffer at (it only reads), [None] when it returns 0;
    - [parse_packet] and [parse_extract_edns] give their rcode and what they
      store through their out-pointer;
    - [query_dname_len] gives the number of octets of the name it skips;
    - [reply_info_parse] gives [None] when it does not return 0;
    - [reply_info_encode] gives its truth value and the buffer it wrote;
    - [error_encode] gives the buffer it wrote. *)
Record libunbound : Type := {
  query_info_parse : sldns_buffer -> option (query_info * nat);
  parse_packet : sldns_buffer -> Z * msg_parse;
  parse_extract_edns : msg_parse -> Z * edns_data;
  dname_valid : list Z -> nat -> bool;
  dname_str : list Z -> cstring;
  query_dname_len : sldns_buffer -> nat;
  reply_info_parse : sldns_buffer -> option reply_info;
  reply_info_encode :
    query_info -> reply_info -> Z -> Z -> sldns_buffer -> Z -> bool -> bool * sldns_buffer;
  error_encode :
    sldns_buffer -> Z -> query_info -> Z -> Z -> option edns_data -> sldns_buffer
}.

(** Modelled from the spec: [sizeof(query_imsg.qname)]; unwind.h is not part
    of the sources at hand, section 4.5 bounds the name by 255 octets plus
    the NUL. *)
Definition sizeof_query_imsg_qname : nat := 256.

(** What the environment answers during [handle_query] and [send_answer]:
    whether the IMSG_QUERY could be queued, and whether the two allocations
    ([realloc] in [chaos_answer], [sldns_buffer_new] in [send_answer])
    succeed. *)
Record hq_env : Type := {
  compose_ok : bool;
  chaos_realloc_ok : bool;
  tmp_ok : bool
}.

(** The three ways out of [handle_query]. *)
Inductive hq_exit : Type :=
  | hq_drop                                       (* goto drop *)
  | hq_send_answer (pq : pending_query)           (* goto send_answer *)
  | hq_return (pq : pending_query) (o : output).  (* IMSG_QUERY queued *)

Section Frontend.
Variable lib : libunbound.

(** error_answer (lines 877-883) *)
Definition error_answer (pq : pending_query) (rcode : Z) : outcome pending_query :=
  ab ← deref (abuf pq);
  qm ← deref (qmsg pq);
  Ok (set_abuf pq
        (Some (error_encode lib (sldns_buffer_clear ab) rcode (qinfo pq)
                 (msg_id qm) (msg_flags qm)
                 (if edns_present (edns pq) then Some (edns pq) else None)))).

(** noerror_answer (lines 797-831) *)
Definition noerror_answer (pq : pending_query) : outcome pending_query :=
  ab ← deref (abuf pq);
  match query_info_parse lib ab with
  | None => error_answer pq LDNS_RCODE_SERVFAIL
  | Some (_, pos) =>
      let ab1 := sldns_buffer_set_position ab pos in
      match reply_info_parse lib ab1 with
      | None => error_answer pq LDNS_RCODE_SERVFAIL
      | Some rinfo =>
          qm ← deref (qmsg pq);
          let '(ok, ab2) :=
            reply_info_encode lib (qinfo pq) rinfo (msg_id qm) (rep_flags rinfo)
              (sldns_buffer_clear ab1)
              (if tcp pq then UINT16_MAX else udp_size (edns pq))
              (negb (Z.land (bits (edns pq)) EDNS_DO =? 0)) in
          if ok then Ok (set_abuf pq (Some ab2))
          else error_answer (set_abuf pq (Some ab2)) LDNS_RCODE_SERVFAIL
      end
  end.

(** chaos_answer (lines 833-875) *)
Definition chaos_answer (realloc_ok : bool) (pq : pending_query)
  : outcome pending_query :=
  ab ← deref (abuf pq);
  qb ← deref (qbuf pq);
  let name := c_str "unwind" in
  let len := strlen name in
  let '(r, ab) :=
    sldns_buffer_set_capacity realloc_ok ab
      (sldns_buffer_capacity qb + COMPRESSED_RR_SIZE + 1 + len) in
  if negb r then error_answer pq LDNS_RCODE_SERVFAIL
  else
    let ab := sldns_buffer_copy ab qb in
    let ab := sldns_buffer_clear ab in
    let ab := sldns_buffer_skip ab 2 in                      (* skip id *)
    let ab := sldns_buffer_write_u16 ab 0 in                 (* clear flags *)
    let ab := with_data ab (LDNS_QR_SET (sldns_buffer_begin ab)) in
    let ab := with_data ab (LDNS_RA_SET (sldns_buffer_begin ab)) in
    let ab := if negb (LDNS_RD_WIRE (sldns_buffer_begin qb) =? 0)
              then with_data ab (LDNS_RD_SET (sldns_buffer_begin ab)) else ab in
    let ab := if negb (LDNS_CD_WIRE (sldns_buffer_begin qb) =? 0)
              then with_data ab (LDNS_CD_SET (sldns_buffer_begin ab)) else ab in
    let ab := with_data ab (LDNS_RCODE_SET (sldns_buffer_begin ab) LDNS_RCODE_NOERROR) in
    let ab := sldns_buffer_write_u16 ab 1 in                 (* qdcount *)
    let ab := sldns_buffer_write_u16 ab 1 in                 (* ancount *)
    let ab := sldns_buffer_write_u16 ab 0 in                 (* nscount *)
    let ab := sldns_buffer_write_u16 ab 0 in                 (* arcount *)
    let ab := sldns_buffer_skip ab (query_dname_len lib ab) in  (* skip qname *)
    let ab := sldns_buffer_skip ab 2 in                      (* skip qtype *)
    let ab := sldns_buffer_skip ab 2 in                      (* skip qclass *)
    let ab := sldns_buffer_write_u16 ab 49164 in             (* 0xc00c: ptr to query *)
    let ab := sldns_buffer_write_u16 ab LDNS_RR_TYPE_TXT in
    let ab := sldns_buffer_write_u16 ab LDNS_RR_CLASS_CH in
    let ab := sldns_buffer_write_u32 ab 0 in                 (* TTL *)
    let ab := sldns_buffer_write_u16 ab (Z.of_nat (1 + len)) in  (* RDLENGTH *)
    let ab := sldns_buffer_write_u8 ab (Z.of_nat len) in     (* length octet *)
    let ab := sldns_buffer_write ab name in
    Ok (set_abuf pq (Some (sldns_buffer_flip ab))).

(** send_answer (lines 926-963) *)
Definition send_answer (e : hq_env) (p : loc) (st : frontend) : outcome frontend :=
  pq ← deref (heap st !! p);
  ab ← deref (abuf pq);
  if negb (tcp pq) then
    free_pending_query (Some p)
      (emit st (Sendto (fd pq)
                  (take (sldns_buffer_remaining ab) (sldns_buffer_current ab))
                  (from_ pq)))
  else if negb (tmp_ok e) then free_pending_query (Some p) st
  else
    let tmp := sldns_buffer_new (sldns_buffer_limit ab + 2) in
    let tmp := sldns_buffer_write_u16 tmp (Z.of_nat (sldns_buffer_limit ab)) in
    let tmp := sldns_buffer_write tmp
                 (take (sldns_buffer_remaining ab) (sldns_buffer_current ab)) in
    let tmp := sldns_buffer_flip tmp in
    Ok (event_add p EvResp None (store p (set_abuf pq (Some tmp)) st)).

Definition is_meta_qtype (t : Z) : bool :=
  (t =? LDNS_RR_TYPE_OPT) || (t =? LDNS_RR_TYPE_TSIG) || (t =? LDNS_RR_TYPE_TKEY)
  || (t =? LDNS_RR_TYPE_MAILA) || (t =? LDNS_RR_TYPE_MAILB)
  || ((128 <=? t) && (t <=? 248)).

(** The body of handle_query (lines 678-795) up to its three exits. *)
Definition handle_query_exit (bl : bl_tree) (e : hq_env) (pq : pending_query)
  : outcome hq_exit :=
  qb ← deref (qbuf pq);
  match query_info_parse lib qb with
  | None => Ok hq_drop
  | Some (qi, _) =>
      let qb := sldns_buffer_rewind qb in
      _ ← deref (qmsg pq);
      let '(prc, qm) := parse_packet lib qb in
      if negb (prc =? LDNS_RCODE_NOERROR) then Ok hq_drop
      else
        let '(rcode, qb) := check_query qb in
        let pq := set_qbuf (set_qmsg (set_qinfo pq qi) (Some qm)) (Some qb) in
        if rcode =? LDNS_RCODE_NOERROR then
          let '(erc, ed) := parse_extract_edns lib qm in
          let pq := set_edns pq ed in
          if negb (erc =? LDNS_RCODE_NOERROR) then hq_send_answer <$> error_answer pq erc
          else if negb (dname_valid lib (qname qi) (qname_len qi)) then
            hq_send_answer <$> error_answer pq LDNS_RCODE_FORMERR
          else
            let dname := dname_str lib (qname qi) in
            if bool_decide (is_Some (RB_FIND bl dname)) then
              hq_send_answer <$> error_answer pq LDNS_RCODE_REFUSED
            else if (qtype qi =? LDNS_RR_TYPE_AXFR) || (qtype qi =? LDNS_RR_TYPE_IXFR) then
              hq_send_answer <$> error_answer pq LDNS_RCODE_REFUSED
            else if is_meta_qtype (qtype qi) then
              hq_send_answer <$> error_answer pq LDNS_RCODE_FORMERR
            else if qclass qi =? LDNS_RR_CLASS_CH then
              if (strcasecmp dname (c_str "version.server.") =? 0)
                 || (strcasecmp dname (c_str "version.bind.") =? 0)
              then hq_send_answer <$> chaos_answer (chaos_realloc_ok e) pq
              else hq_send_answer <$> error_answer pq LDNS_RCODE_REFUSED
            else if (sizeof_query_imsg_qname <=? strlen dname)%nat then
              hq_send_answer <$> error_answer pq LDNS_RCODE_FORMERR
            else if negb (compose_ok e) then
              hq_send_answer <$> error_answer pq LDNS_RCODE_SERVFAIL
            else Ok (hq_return pq (ImsgQuery (imsg_id pq) dname (qtype qi) (qclass qi)))
        else if rcode =? -1 then Ok hq_drop
        else hq_send_answer <$> error_answer pq rcode
  end.

Definition handle_query (e : hq_env) (p : loc) (st : frontend) : outcome frontend :=
  pq ← deref (heap st !! p);
  x ← handle_query_exit (bl_head st) e pq;
  match x with
  | hq_drop => free_pending_query (Some p) st
  | hq_send_answer pq' => send_answer e p (store p pq' st)
  | hq_return pq' o => Ok (emit (store p pq' st) o)
  end.
End Frontend.

(** *** Creating pending queries: udp_receive, tcp_accept *)

Inductive errno : Type := EINTR | EAGAIN | ECONNABORTED | EMFILE | ENFILE | EIO.

(** The [do ... while] loop around [arc4random_buf]: [draws] are the 64-bit
    values the generator hands out, in order; the loop keeps the first one
    that [find_pending_query] does not find, and is still running ([None])
    when the draws are used up. *)
Fixpoint draw_imsg_id (st : frontend) (draws : list Z) : option Z :=
  match draws with
  | [] => None
  | id :: rest =>
      match find_pending_query st id with
      | Some _ => draw_imsg_id st rest
      | None => Some id
      end
  end.

(** [calloc]: the address of a fresh object. *)
Definition calloc (st : frontend) : loc := fresh (dom (heap st)).

Definition TAILQ_INSERT_TAIL (p : loc) (st : frontend) : frontend :=
  set_pending_queries st (pending_queries st ++ [p]).

(** What the environment answers during one [udp_receive]. *)
Record udp_env : Type := {
  recvmsg : option (list Z * sockaddr_storage);   (* [None]: -1 *)
  udp_calloc_ok : bool;
  udp_draws : list Z;
  udp_qbuf_ok : bool;
  udp_abuf_ok : bool;
  udp_region_ok : bool;
  udp_qmsg_ok : bool;
  udp_hq : hq_env
}.

(** What [accept4] answers (the new descriptor and the peer's address, or the
    errno), and the allocations of one [tcp_accept]. *)
Record tcp_env : Type := {
  accept4 : (Z * sockaddr_storage) + errno;
  tcp_calloc_ok : bool;
  tcp_draws : list Z;
  tcp_qbuf_ok : bool;
  tcp_region_ok : bool;
  tcp_qmsg_ok : bool
}.

Record req_env : Type := {
  read_result : list Z + errno;       (* the octets read; [inl []] is EOF *)
  req_tmp_ok : bool;
  req_abuf_ok : bool;
  req_hq : hq_env
}.

Record answer_header : Type := {
  ah_id : Z;
  ah_srvfail : bool;
  ah_bogus : bool;
  ah_answer_len : Z
}.

Record answer_env : Type := { ans_realloc_ok : bool; ans_hq : hq_env }.

Definition getdtablecount (st : frontend) : Z := Z.of_nat (size (fds st)).
Definition getdtablesize (st : frontend) : Z := dtablesize st.

(** accept_reserve (lines 1350-1359): the descriptor or the errno. *)
Definition accept_reserve (a : (Z * sockaddr_storage) + errno) (st : frontend)
  : ((Z * sockaddr_storage) + errno) * frontend :=
  if getdtablesize st <=? getdtablecount st + FD_RESERVE then (inr EMFILE, st)
  else match a with
       | inl (s, ss) => (inl (s, ss), set_fds st ({[s]} ∪ fds st))
       | inr e => (inr e, st)
       end.

(** accept_paused (lines 1343-1348) *)
Definition accept_paused (l : listener) (st : frontend) : frontend :=
  set_tcpev st l {| accept_pending := true; pause_due := pause_due (tcpev st l) |}.

Section Handlers.
Variable lib : libunbound.

(** udp_receive (lines 636-676) *)
Definition udp_receive (s : Z) (e : udp_env) (st : frontend) : outcome frontend :=
  match recvmsg e with
  | None => Ok st
  | Some (datagram, from) =>
      let query := take sizeof_udp_query datagram in
      let len := length query in
      if negb (udp_calloc_ok e) then Ok st
      else
        let p := calloc st in
        match draw_imsg_id st (udp_draws e) with
        | None => Spinning
        | Some id =>
            let st := TAILQ_INSERT_TAIL p (store p (set_imsg_id pq_zero id) st) in
            let pq :=
              mk_pq from
                (if udp_qbuf_ok e then Some (sldns_buffer_new len) else None)
                (if udp_abuf_ok e then Some (sldns_buffer_new len) else None)
                (udp_region_ok e) query_info_zero
                (if udp_region_ok e && udp_qmsg_ok e then Some msg_parse_zero else None)
                edns_data_zero false false false id s false in
            if negb (udp_qbuf_ok e && udp_abuf_ok e && udp_region_ok e && udp_qmsg_ok e)
            then free_pending_query (Some p) (store p pq st)
            else
              let qb := sldns_buffer_flip (sldns_buffer_write (sldns_buffer_new len) query) in
              handle_query lib (udp_hq e) p (store p (set_qbuf pq (Some qb)) st)
        end
  end.

(** tcp_accept (lines 1361-1423) *)
Definition tcp_accept (l : listener) (e : tcp_env) (st : frontend) : outcome frontend :=
  match accept_reserve (accept4 e) st with
  | (inr err, st) =>
      match err with
      | EINTR | EAGAIN | ECONNABORTED => Ok st
      | EMFILE | ENFILE =>
          Ok (set_tcpev st l {| accept_pending := false; pause_due := Some (now st + 1)%nat |})
      | EIO => Fatal
      end
  | (inl (s, ss), st) =>
      if negb (tcp_calloc_ok e) then Ok (close s st)
      else
        let p := calloc st in
        match draw_imsg_id st (tcp_draws e) with
        | None => Spinning
        | Some id =>
            let st := TAILQ_INSERT_TAIL p (store p (set_imsg_id pq_zero id) st) in
            let pq :=
              mk_pq ss
                (if tcp_qbuf_ok e then Some (sldns_buffer_new DEFAULT_TCP_SIZE) else None)
                None (tcp_region_ok e) query_info_zero
                (if tcp_region_ok e && tcp_qmsg_ok e then Some msg_parse_zero else None)
                edns_data_zero false false false id s true in
            if negb (tcp_qbuf_ok e && tcp_region_ok e && tcp_qmsg_ok e)
            then free_pending_query (Some p) (store p pq st)
            else
              let pq := mk_pq (from_ pq) (qbuf pq) (abuf pq) (region pq) (qinfo pq)
                          (qmsg pq) (edns pq) true true true id s true in
              Ok (event_add p EvTmo (Some (now st + TCP_TIMEOUT)%nat)
                    (event_add p EvRead None (store p pq st)))
        end
  end.

(** tcp_timeout (lines 1504-1508) *)
Definition tcp_timeout (p : loc) (st : frontend) : outcome frontend :=
  free_pending_query (Some p) st.

(** tcp_request (lines 1425-1481) *)
Definition tcp_request (p : loc) (e : req_env) (st : frontend) : outcome frontend :=
  pq ← deref (heap st !! p);
  qb ← deref (qbuf pq);
  match read_result e with
  | inr EINTR | inr EAGAIN => Ok st
  | inr _ => free_pending_query (Some p) st
  | inl octets =>
      let octets := take (sldns_buffer_remaining qb) octets in
      if (length octets =? 0)%nat then free_pending_query (Some p) st
      else
        (* read() stored the octets at the current position; skip them *)
        let qb := sldns_buffer_write qb octets in
        let framed :=
          if (2 <=? sldns_buffer_position qb)%nat && bool_decide (abuf pq = None) then
            let qb := sldns_buffer_flip qb in
            let len := Z.to_nat (sldns_read_uint16 (sldns_buffer_current qb)) in
            let qb := sldns_buffer_skip qb 2 in
            if negb (req_tmp_ok e && req_abuf_ok e) then Ok None
            else if (len <? sldns_buffer_remaining qb)%nat then Undefined
            else
              let tmp := sldns_buffer_write (sldns_buffer_new len)
                           (take (sldns_buffer_remaining qb) (sldns_buffer_current qb)) in
              Ok (Some (set_abuf (set_qbuf pq (Some tmp)) (Some (sldns_buffer_new len)), tmp))
          else Ok (Some (set_qbuf pq (Some qb), qb)) in
        r ← framed;
        match r with
        | None => free_pending_query (Some p) st
        | Some (pq, qb) =>
            if (sldns_buffer_remaining qb =? 0)%nat then
              let pq := set_qbuf pq (Some (sldns_buffer_flip qb)) in
              handle_query lib (req_hq e) p
                (event_del p EvRead (emit (store p pq st) (ShutdownRd (fd pq))))
            else Ok (store p pq st)
        end
  end.

(** tcp_response (lines 1483-1502).  After a failed [write] the function
    frees the query and then goes on to use it. *)
Definition tcp_response (p : loc) (w : nat + errno) (st : frontend) : outcome frontend :=
  pq ← deref (heap st !! p);
  ab ← deref (abuf pq);
  match w with
  | inr EINTR | inr EAGAIN => Ok st
  | inr _ => _ ← free_pending_query (Some p) st; Undefined
  | inl n =>
      let n := Nat.min n (sldns_buffer_remaining ab) in
      let st := emit st (TcpWrite (fd pq) (take n (sldns_buffer_current ab))) in
      let ab := sldns_buffer_skip ab n in
      let st := store p (set_abuf pq (Some ab)) st in
      if (sldns_buffer_remaining ab =? 0)%nat then free_pending_query (Some p) st
      else Ok st
  end.

(** The IMSG_ANSWER case of frontend_dispatch_resolver (lines 501-558),
    for a message that carries a whole [answer_header] followed by
    [data]. *)
Definition frontend_dispatch_resolver_answer
    (hdr : answer_header) (data : list Z) (e : answer_env) (st : frontend)
  : outcome frontend :=
  if UINT16_MAX <? ah_answer_len hdr then Fatal
  else
    match find_pending_query st (ah_id hdr) with
    | None => Ok st
    | Some p =>
        pq ← deref (heap st !! p);
        let servfail :=
          pq' ← error_answer lib pq LDNS_RCODE_SERVFAIL;
          send_answer (ans_hq e) p (store p pq' st) in
        if ah_srvfail hdr then servfail
        else
          cd ← (if ah_bogus hdr
                then qm ← deref (qmsg pq); Ok (negb (Z.land (msg_flags qm) BIT_CD =? 0))
                else Ok true);
          if ah_bogus hdr && negb cd then servfail
          else
            ab ← deref (abuf pq);
            let '(resized, ab) :=
              if (sldns_buffer_position ab =? 0)%nat
              then sldns_buffer_set_capacity (ans_realloc_ok e) ab (Z.to_nat (ah_answer_len hdr))
              else (true, ab) in
            if negb resized then servfail
            else if (sldns_buffer_capacity ab <? sldns_buffer_position ab + length data)%nat
            then Fatal
            else
              let ab := sldns_buffer_write ab data in
              let pq := set_abuf pq (Some ab) in
              if (sldns_buffer_position ab =? sldns_buffer_capacity ab)%nat then
                pq' ← noerror_answer lib (set_abuf pq (Some (sldns_buffer_flip ab)));
                send_answer (ans_hq e) p (store p pq' st)
              else Ok (store p pq st)
    end.

(** *** The event loop *)

(** One callback of [event_dispatch], with what the environment answers
    while it runs; [cb_tick] lets time pass. *)
Inductive callback : Type :=
  | cb_udp_receive (s : Z) (e : udp_env)
  | cb_tcp_accept (l : listener) (e : tcp_env)
  | cb_accept_paused (l : listener)
  | cb_tcp_request (p : loc) (e : req_env)
  | cb_tcp_response (p : loc) (w : nat + errno)
  | cb_tcp_timeout (p : loc)
  | cb_answer (hdr : answer_header) (data : list Z) (e : answer_env)
  | cb_tick (dt : nat).

(** Modelled from the spec: libevent is not part of the sources at hand.
    The loop calls the callback of an event only while the event is pending
    (added and not deleted), and that of a timer only once the time it was
    added with has passed (section 4.4: "rearms after a 1-second backoff
    timer", "the 15-second timer firing releases the query"). *)
Definition due (t : option nat) (st : frontend) : bool :=
  match t with Some d => (d <=? now st)%nat | None => false end.

Definition enabled (cb : callback) (st : frontend) : bool :=
  match cb with
  | cb_udp_receive _ _ => true
  | cb_tcp_accept l _ => accept_pending (tcpev st l)
  | cb_accept_paused l => due (pause_due (tcpev st l)) st
  | cb_tcp_request p _ => bool_decide (is_Some (pq_events st !! (p, EvRead)))
  | cb_tcp_response p _ => bool_decide (is_Some (pq_events st !! (p, EvResp)))
  | cb_tcp_timeout p =>
      match pq_events st !! (p, EvTmo) with Some t => due t st | None => false end
  | cb_answer _ _ _ => true
  | cb_tick _ => true
  end.

(** A timer that fires leaves the base before its callback runs. *)
Definition run (cb : callback) (st : frontend) : outcome frontend :=
  match cb with
  | cb_udp_receive s e => udp_receive s e st
  | cb_tcp_accept l e => tcp_accept l e st
  | cb_accept_paused l =>
      Ok (accept_paused l
            (set_tcpev st l {| accept_pending := accept_pending (tcpev st l);
                               pause_due := None |}))
  | cb_tcp_request p e => tcp_request p e st
  | cb_tcp_response p w => tcp_response p w st
  | cb_tcp_timeout p => tcp_timeout p (event_del p EvTmo st)
  | cb_answer hdr data e => frontend_dispatch_resolver_answer hdr data e st
  | cb_tick dt => Ok (set_now st (now st + dt)%nat)
  end.

Definition step (st st' : frontend) : Prop :=
  exists cb, enabled cb st = true /\ run cb st = Ok st'.

(** [TAILQ_INIT(&pending_queries)] in [frontend()]: no query is pending. *)
Definition initial (st : frontend) : Prop :=
  pending_queries st = [] /\ heap st = ∅ /\ pq_events st = ∅.

Definition reachable (st : frontend) : Prop :=
  exists st0, initial st0 /\ rtc step st0 st.
End Handlers.

(** *** A reference instance of the libunbound interface *)

(** Modelled from the spec: a small instance of the library interface, used
    to run the embedding on concrete packets.  It reads and writes the plain
    DNS wire format (a 12-octet header, then the question as uncompressed
    labels followed by type and class), knows no EDNS, and copies the records
    of a reply verbatim. *)
Module ModelLib.

(** Octets of the name at the head of [l], root label included; 0 when the
    name is malformed. *)
Fixpoint dname_len (fuel : nat) (l : list Z) : nat :=
  match fuel with
  | O => O
  | S fuel =>
      match l with
      | [] => O
      | n :: rest =>
          if n =? 0 then 1%nat
          else if (0 <? n) && (n <? 64) && (Z.to_nat n <=? length rest)%nat then
            match dname_len fuel (drop (Z.to_nat n) rest) with
            | O => O
            | S k => (S (Z.to_nat n) + S k)%nat
            end
          else O
      end
  end.

Fixpoint labels_str (fuel : nat) (l : list Z) : cstring :=
  match fuel with
  | O => []
  | S fuel =>
      match l with
      | [] => []
      | n :: rest =>
          if n =? 0 then []
          else take (Z.to_nat n) rest ++ [DOT] ++ labels_str fuel (drop (Z.to_nat n) rest)
      end
  end.

Definition dname_str (name : list Z) : cstring :=
  match labels_str (length name) name with
  | [] => [DOT]
  | s => s
  end.

Definition dname_valid (name : list Z) (len : nat) : bool :=
  (0 <? len)%nat && (dname_len (S (length name)) name =? len)%nat.

Definition readable (b : sldns_buffer) : list Z :=
  take (sldns_buffer_remaining b) (sldns_buffer_current b).

Definition query_dname_len (b : sldns_buffer) : nat :=
  dname_len (S (length (readable b))) (readable b).

Definition query_info_parse (b : sldns_buffer) : option (query_info * nat) :=
  let q := sldns_buffer_begin b in
  if (sldns_buffer_limit b <? LDNS_HEADER_SIZE + 5)%nat then None
  else if negb (LDNS_OPCODE_WIRE q =? LDNS_PACKET_QUERY) || negb (LDNS_QDCOUNT q =? 1)
          || negb (sldns_buffer_position b =? 0)%nat then None
  else
    let b := sldns_buffer_skip b LDNS_HEADER_SIZE in
    let len := query_dname_len b in
    if (len =? 0)%nat then None
    else
      let name := take len (sldns_buffer_current b) in
      let b := sldns_buffer_skip b len in
      if (sldns_buffer_remaining b <? 4)%nat then None
      else
        let t := sldns_read_uint16 (sldns_buffer_current b) in
        let c := sldns_read_uint16 (drop 2 (sldns_buffer_current b)) in
        Some ({| qname := name; qname_len := len; qtype := t; qclass := c |},
              sldns_buffer_position (sldns_buffer_skip b 4)).

(** The header is read only from storage that holds octets. *)
Definition octet (x : Z) : bool := (0 <=? x) && (x <? 256).

Definition parse_packet (b : sldns_buffer) : Z * msg_parse :=
  let q := sldns_buffer_begin b in
  if (sldns_buffer_limit b <? LDNS_HEADER_SIZE)%nat || (length q <? LDNS_HEADER_SIZE)%nat
     || negb (forallb octet (take 4 q))
  then (LDNS_RCODE_FORMERR, msg_parse_zero)
  else (LDNS_RCODE_NOERROR,
        {| msg_id := sldns_read_uint16 q; msg_flags := sldns_read_uint16 (drop 2 q) |}).

Definition parse_extract_edns (m : msg_parse) : Z * edns_data :=
  (LDNS_RCODE_NOERROR, {| edns_present := false; udp_size := 512; bits := 0 |}).

Definition question (qi : query_info) : list Z :=
  qname qi ++ u16_bytes (qtype qi) ++ u16_bytes (qclass qi).

(** QR and RA set, the rcode, and the RD and CD bits of the query. *)
Definition error_flags (r qflags : Z) : Z :=
  Z.lor (Z.lor 32896 r) (Z.land qflags 272).

Definition opt_record (e : edns_data) : list Z :=
  [0; 0; 41] ++ u16_bytes (udp_size e) ++ [0; 0] ++ u16_bytes (bits e) ++ [0; 0].

Definition error_encode (buf : sldns_buffer) (r : Z) (qi : query_info)
    (qid qflags : Z) (e : option edns_data) : sldns_buffer :=
  let msg :=
    u16_bytes qid ++ u16_bytes (error_flags r qflags) ++ [0; 1; 0; 0; 0; 0]
    ++ match e with Some _ => [0; 1] | None => [0; 0] end
    ++ question qi
    ++ match e with Some ed => opt_record ed | None => [] end in
  sldns_buffer_flip (sldns_buffer_write (sldns_buffer_clear buf) msg).

(** The counts of the three record sections and the records themselves. *)
Definition reply_info_parse (b : sldns_buffer) : option reply_info :=
  Some {| rep_flags := sldns_read_uint16 (drop 2 (sldns_buffer_begin b));
          rep_rrsets := take 6 (drop 6 (sldns_buffer_begin b)) ++ readable b |}.

Definition reply_info_encode (qi : query_info) (rep : reply_info) (id flags : Z)
    (buf : sldns_buffer) (udpsize : Z) (dnssec : bool) : bool * sldns_buffer :=
  let msg :=
    u16_bytes id ++ u16_bytes flags ++ [0; 1] ++ take 6 (rep_rrsets rep)
    ++ question qi ++ drop 6 (rep_rrsets rep) in
  if (Z.of_nat (length msg) <=? udpsize)
     && (length msg <=? sldns_buffer_capacity buf)%nat
  then (true, sldns_buffer_flip (sldns_buffer_write (sldns_buffer_clear buf) msg))
  else (false, sldns_buffer_clear buf).

Definition lib : libunbound :=
  Build_libunbound query_info_parse parse_packet parse_extract_edns dname_valid
    dname_str query_dname_len reply_info_parse reply_info_encode error_encode.
End ModelLib.

(** *** Specification-side definitions *)

(** The library's own invariant of a buffer ([sldns_buffer_invariant]):
    position, limit and capacity are ordered and the storage has the size of
    the capacity. *)
Definition sldns_buffer_invariant (b : sldns_buffer) : Prop :=
  (_position b <= _limit b)%nat /\ (_limit b <= _capacity b)%nat
  /\ length (_data b) = _capacity b.

(** The header fields as RFC 1035 lays them out in octet 2: QR is bit 7, the
    opcode bits 6 to 3, TC bit 1 and RD bit 0. *)
Definition hdr_QR (pkt : sldns_buffer) : bool := Z.testbit (wire (_data pkt) 2) 7.
Definition hdr_TC (pkt : sldns_buffer) : bool := Z.testbit (wire (_data pkt) 2) 1.
Definition hdr_RD (pkt : sldns_buffer) : bool := Z.testbit (wire (_data pkt) 2) 0.
Definition hdr_opcode (pkt : sldns_buffer) : Z := (wire (_data pkt) 2 / 8) mod 16.

(** [pkt'] is [pkt] with the TC bit cleared and nothing else touched. *)
Definition tc_cleared (pkt pkt' : sldns_buffer) : Prop :=
  _position pkt' = _position pkt /\ _limit pkt' = _limit pkt
  /\ _capacity pkt' = _capacity pkt /\ length (_data pkt') = length (_data pkt)
  /\ hdr_TC pkt' = false
  /\ (forall k, 0 <= k < 8 -> k <> 1 ->
        Z.testbit (wire (_data pkt') 2) k = Z.testbit (wire (_data pkt) 2) k)
  /\ (forall i, i <> 2%nat -> wire (_data pkt') i = wire (_data pkt) i).

Definition bad_counts (pkt : sldns_buffer) : Prop :=
  LDNS_QDCOUNT (_data pkt) <> 1 /\ LDNS_ANCOUNT (_data pkt) <> 0
  /\ LDNS_NSCOUNT (_data pkt) <> 0 /\ 1 < LDNS_ARCOUNT (_data pkt).

(** The rules of section 4.1, in the order the spec lists them: each rule
    applies only when none of the earlier ones does. *)
Inductive check_query_rules (pkt : sldns_buffer) : Z * sldns_buffer -> Prop :=
  | rule_too_short :
      (_limit pkt < 12)%nat ->
      check_query_rules pkt (-1, pkt)
  | rule_qr_set :
      (12 <= _limit pkt)%nat -> hdr_QR pkt = true ->
      check_query_rules pkt (-1, pkt)
  | rule_tc_set pkt' :
      (12 <= _limit pkt)%nat -> hdr_QR pkt = false -> hdr_TC pkt = true ->
      tc_cleared pkt pkt' ->
      check_query_rules pkt (LDNS_RCODE_FORMERR, pkt')
  | rule_rd_clear :
      (12 <= _limit pkt)%nat -> hdr_QR pkt = false -> hdr_TC pkt = false ->
      hdr_RD pkt = false ->
      check_query_rules pkt (LDNS_RCODE_REFUSED, pkt)
  | rule_opcode :
      (12 <= _limit pkt)%nat -> hdr_QR pkt = false -> hdr_TC pkt = false ->
      hdr_RD pkt = true -> hdr_opcode pkt <> LDNS_PACKET_QUERY ->
      check_query_rules pkt (LDNS_RCODE_NOTIMPL, pkt)
  | rule_counts :
      (12 <= _limit pkt)%nat -> hdr_QR pkt = false -> hdr_TC pkt = false ->
      hdr_RD pkt = true -> hdr_opcode pkt = LDNS_PACKET_QUERY -> bad_counts pkt ->
      check_query_rules pkt (LDNS_RCODE_FORMERR, pkt)
  | rule_accept :
      (12 <= _limit pkt)%nat -> hdr_QR pkt = false -> hdr_TC pkt = false ->
      hdr_RD pkt = true -> hdr_opcode pkt = LDNS_PACKET_QUERY -> ~ bad_counts pkt ->
      check_query_rules pkt (0, pkt).

(** A string that holds no NUL: what a [char *] argument denotes. *)
Definition nul_free (s : cstring) : Prop := Forall (fun c => c <> NUL) s.

(** Two trust-anchor sequences differ element-wise: their lengths differ, or
    some position holds different strings. *)
Definition differ_elementwise (newh oldh : trust_anchor_head) : Prop :=
  length newh <> length oldh
  \/ exists i a b, newh !! i = Some a /\ oldh !! i = Some b /\ a <> b.

(** The FQDN form of a name: a [.] is appended unless the name ends in one. *)
Definition fqdn (body : cstring) : cstring :=
  match last body with
  | Some c => if c =? DOT then body else body ++ [DOT]
  | None => body ++ [DOT]
  end.

(** The reading of "for every line of the blocklist file the stored domain
    ends with [.]": after a reload of [content], every entry does. *)
Definition stored_domains_end_with_dot (content : list Z) : Prop :=
  forall e, e ∈ parse_blocklist (Some content) [] -> last e = Some DOT.

(** The octets [send_answer] hands to [sendto] (UDP) or copies behind the
    length prefix (TCP): from the position up to the limit. *)
Definition answer_wire (b : sldns_buffer) : list Z :=
  take (sldns_buffer_remaining b) (sldns_buffer_current b).

(** The outcome of the screening that follows the parse. *)
Inductive screening : Type :=
  | scr_error (rcode : Z)      (* error_answer with this rcode *)
  | scr_chaos                  (* the CH TXT answer *)
  | scr_pass.                  (* on to the resolver *)

Definition is_xfr (t : Z) : bool :=
  (t =? LDNS_RR_TYPE_AXFR) || (t =? LDNS_RR_TYPE_IXFR).

Definition is_version_name (dname : cstring) : bool :=
  (strcasecmp dname (c_str "version.server.") =? 0)
  || (strcasecmp dname (c_str "version.bind.") =? 0).

(** The qtypes section 4.1 answers with FORMERR. *)
Definition meta_qtype (t : Z) : Prop :=
  t = LDNS_RR_TYPE_OPT \/ t = LDNS_RR_TYPE_TSIG \/ t = LDNS_RR_TYPE_TKEY
  \/ t = LDNS_RR_TYPE_MAILA \/ t = LDNS_RR_TYPE_MAILB \/ 128 <= t <= 248.

(** The screening in the order section 4.1 lists it: invalid qname, AXFR/IXFR,
    meta qtypes, CH class, blocklist. *)
Definition screening_spec_order (valid : bool) (t c : Z) (version blocked : bool)
  : screening :=
  if negb valid then scr_error LDNS_RCODE_FORMERR
  else if is_xfr t then scr_error LDNS_RCODE_REFUSED
  else if is_meta_qtype t then scr_error LDNS_RCODE_FORMERR
  else if c =? LDNS_RR_CLASS_CH then
    (if version then scr_chaos else scr_error LDNS_RCODE_REFUSED)
  else if blocked then scr_error LDNS_RCODE_REFUSED
  else scr_pass.

(** The same rules with the blocklist in second place. *)
Definition screening_blocklist_second (valid : bool) (t c : Z) (version blocked : bool)
  : screening :=
  if negb valid then scr_error LDNS_RCODE_FORMERR
  else if blocked then scr_error LDNS_RCODE_REFUSED
  else if is_xfr t then scr_error LDNS_RCODE_REFUSED
  else if is_meta_qtype t then scr_error LDNS_RCODE_FORMERR
  else if c =? LDNS_RR_CLASS_CH then
    (if version then scr_chaos else scr_error LDNS_RCODE_REFUSED)
  else scr_pass.

(** The pending query once [handle_query] has parsed it. *)
Definition after_parse (pq : pending_query) (qi : query_info) (qm : msg_parse)
    (qb : sldns_buffer) (ed : edns_data) : pending_query :=
  set_edns (set_qbuf (set_qmsg (set_qinfo pq qi) (Some qm)) (Some qb)) ed.

(** How [handle_query] leaves for a screening outcome other than [scr_pass]. *)
Definition screening_exit (lib : libunbound) (e : hq_env) (pq : pending_query)
    (s : screening) (x : outcome hq_exit) : Prop :=
  match s with
  | scr_error r => x = hq_send_answer <$> error_answer lib pq r
  | scr_chaos => x = hq_send_answer <$> chaos_answer lib (chaos_realloc_ok e) pq
  | scr_pass => True
  end.

(** The reading of "the front-end encodes a SERVFAIL answer for that query
    and drops the correlated query; the failure stays local": the handler
    returns, the query is no longer pending, every other query is as it was,
    and the last thing sent is an answer to the query's peer with rcode
    SERVFAIL. *)
Definition servfail_and_drop (lib : libunbound) (hdr : answer_header) (data : list Z)
    (e : answer_env) (st : frontend) : Prop :=
  exists p pq st' payload,
    find_pending_query st (ah_id hdr) = Some p /\ heap st !! p = Some pq
    /\ frontend_dispatch_resolver_answer lib hdr data e st = Ok st'
    /\ (p ∉ pending_queries st')
    /\ (forall q, q ≠ p -> heap st' !! q = heap st !! q)
    /\ last (out st') = Some (Sendto (fd pq) payload (from_ pq))
    /\ LDNS_RCODE_WIRE payload = LDNS_RCODE_SERVFAIL.

Definition octets (l : list Z) : Prop := Forall (fun x => 0 <= x < 256) l.

(** Modelled from the spec: what section 4.5.1 and the third invariant of
    section 8 take from the library, which is not part of the sources at hand:
    [parse_packet] stores the two id octets of the packet it parses, and the
    two encoders write the id they are given as the first two octets of a
    buffer they leave ready to be sent (flipped, holding at least a header).
    The id is kept as the 16-bit value of its two octets. *)
Record keeps_id (lib : libunbound) : Prop := {
  parse_packet_id : forall b qm,
    parse_packet lib b = (LDNS_RCODE_NOERROR, qm) ->
    u16_bytes (msg_id qm) = take 2 (sldns_buffer_begin b);
  error_encode_id : forall buf r qi qid qflags ed,
    take 2 (answer_wire (error_encode lib buf r qi qid qflags ed)) = u16_bytes qid;
  reply_info_encode_id : forall qi rep qid flags buf udpsize dnssec out,
    reply_info_encode lib qi rep qid flags buf udpsize dnssec = (true, out) ->
    take 2 (answer_wire out) = u16_bytes qid
}.

(** [keeps2 x ab]: the storage of [ab] starts with the two octets [x] and the
    position is past them. *)
Definition keeps2 (x : list Z) (ab : sldns_buffer) : Prop :=
  take 2 (_data ab) = x /\ (2 <= length (_data ab))%nat /\ (2 <= _position ab)%nat.

(** [pq'] is [pq] as [handle_query] has it after the parse: the parsed
    header and the query buffer are filled in, nothing else has changed but
    the parse results. *)
Definition parsed_from (pq pq' : pending_query) (qm : msg_parse) (qb : sldns_buffer)
  : Prop :=
  qmsg pq' = Some qm /\ qbuf pq' = Some qb /\ abuf pq' = abuf pq
  /\ imsg_id pq' = imsg_id pq /\ tcp pq' = tcp pq /\ fd pq' = fd pq
  /\ from_ pq' = from_ pq
  /\ ev pq' = ev pq /\ resp_ev pq' = resp_ev pq /\ tmo_ev pq' = tmo_ev pq.

(** The correlation id stored in the object at [p], if there is one. *)
Definition id_of (st : frontend) (p : loc) : option Z := imsg_id <$> heap st !! p.

(** The invariant of the pending-query table: the queue links each object
    once, every linked object is allocated, and no two linked objects carry
    the same correlation id. *)
Definition table_ok (st : frontend) : Prop :=
  NoDup (pending_queries st)
  /\ (forall p, p ∈ pending_queries st -> is_Some (heap st !! p))
  /\ (forall p q i, p ∈ pending_queries st -> q ∈ pending_queries st ->
        id_of st p = Some i -> id_of st q = Some i -> p = q).

(** [st'] holds a part of the table of [st], in the same order and under the
    same ids. *)
Definition subtable (st st' : frontend) : Prop :=
  pending_queries st' `sublist_of` pending_queries st
  /\ forall p, p ∈ pending_queries st' -> id_of st' p = id_of st p.

(** Every query that is pending in [st'] and was not in [st] carries the id
    that the drawing loop, run against the table of [st] on [draws], came out
    with: an id that [find_pending_query] did not find in [st]. *)
Definition created_with_drawn_id (st : frontend) (draws : list Z) (st' : frontend)
  : Prop :=
  forall p, p ∈ pending_queries st' -> p ∉ pending_queries st ->
    exists pq, heap st' !! p = Some pq
               /\ draw_imsg_id st draws = Some (imsg_id pq)
               /\ find_pending_query st (imsg_id pq) = None.

(** [st'] has the clock and the two accept events of [st]. *)
Definition quiet (st st' : frontend) : Prop :=
  now st' = now st /\ tcp4ev st' = tcp4ev st /\ tcp6ev st' = tcp6ev st.

(** The listener [l] is backing off until [D]: its accept event is not
    pending and its pause timer is due at [D], or the time [D] has come. *)
Definition backing_off (l : listener) (D : nat) (st : frontend) : Prop :=
  (accept_pending (tcpev st l) = false /\ pause_due (tcpev st l) = Some D)
  \/ (D <= now st)%nat.

(** *** Sample inputs *)

(** A buffer that holds exactly [d], ready to be read. *)
Definition buffer_of (d : list Z) : sldns_buffer :=
  mk_buffer d 0 (length d) (length d).

(** A query with one question; [f2] and [f3] are the two flag octets. *)
Definition query_packet (id_hi id_lo f2 f3 : Z) (name : list Z) (t c : Z) : list Z :=
  [id_hi; id_lo; f2; f3; 0; 1; 0; 0; 0; 0; 0; 0] ++ name ++ u16_bytes t ++ u16_bytes c.

Definition wire_name (labels : list string) : list Z :=
  concat ((fun l => Z.of_nat (String.length l) :: c_str l) <$> labels) ++ [0].

(** [example.com. IN A], id 0xbeef, RD set. *)
Definition example_query : list Z :=
  query_packet 190 239 1 0 (wire_name ["example"; "com"]) 1 1.

(** A blocklist file of two lines, the first without its final dot. *)
Definition blocklist_file : list Z :=
  c_str "Ads.Example" ++ [NEWLINE] ++ c_str "tracker.test." ++ [NEWLINE].

(** [ads.example. IN OPT], id 0x1234, RD set: a meta qtype for a name that
    the sample blocklist holds. *)
Definition blocked_meta_query : list Z :=
  query_packet 18 52 1 0 (wire_name ["ads"; "example"]) LDNS_RR_TYPE_OPT LDNS_RR_CLASS_IN.

(** The pending query [udp_receive] builds for datagram [pkt] from peer 77 on
    socket 5, with correlation id [id]. *)
Definition udp_pending (pkt : list Z) (id : Z) : pending_query :=
  mk_pq 77 (Some (buffer_of pkt)) (Some (sldns_buffer_new (length pkt))) true
        query_info_zero (Some msg_parse_zero) edns_data_zero false false false id 5 false.

Definition all_ok : hq_env := {| compose_ok := true; chaos_realloc_ok := true; tmp_ok := true |}.

Definition no_listener : tcp_accept_ev := {| accept_pending := false; pause_due := None |}.

(** A front-end with one UDP query in flight at address 1, whose answer buffer
    is [ab]. *)
Definition one_query (ab : sldns_buffer) : frontend :=
  mk_frontend {[ 1%positive := set_abuf (udp_pending example_query 4242) (Some ab) ]}
              [1%positive] ∅ {[ 0; 1; 2; 3; 5 ]} 128 no_listener no_listener [] 0 [].

(** An answer buffer that holds 4 of the 8 octets announced for it. *)
Definition half_filled : sldns_buffer := mk_buffer [1; 2; 3; 4; 0; 0; 0; 0] 4 8 8.

(** Answer chunks for the query with correlation id 4242: [chunk len] is the
    header of a chunk that announces [len] octets. *)
Definition chunk (len : Z) : answer_header :=
  {| ah_id := 4242; ah_srvfail := false; ah_bogus := false; ah_answer_len := len |}.

Definition realloc_fails : answer_env := {| ans_realloc_ok := false; ans_hq := all_ok |}.
Definition realloc_works : answer_env := {| ans_realloc_ok := true; ans_hq := all_ok |}.

(** A front-end that has just started, and what the environment answers to
    the first datagram it receives: every allocation succeeds and the
    generator hands out 4242. *)
Definition just_started : frontend :=
  mk_frontend ∅ [] ∅ {[ 0; 1; 2; 3; 5 ]} 128 no_listener no_listener [] 0 [].

Definition first_datagram : udp_env :=
  {| recvmsg := Some (example_query, 77);
     udp_calloc_ok := true;
     udp_draws := [4242];
     udp_qbuf_ok := true; udp_abuf_ok := true; udp_region_ok := true; udp_qmsg_ok := true;
     udp_hq := all_ok |}.

Definition after_first_datagram : frontend :=
  match udp_receive ModelLib.lib 5 first_datagram just_started with
  | Ok st => st
  | _ => just_started
  end.

(** A front-end whose descriptor table (8 slots, 5 in use) leaves no room
    for the reserve, with the TCP4 accept event armed. *)
Definition crowded : frontend :=
  mk_frontend ∅ [] ∅ {[ 0; 1; 2; 3; 5 ]} 8
              {| accept_pending := true; pause_due := None |} no_listener [] 100 [].

Definition next_connection : tcp_env :=
  {| accept4 := inl (6, 78); tcp_calloc_ok := true; tcp_draws := [7];
     tcp_qbuf_ok := true; tcp_region_ok := true; tcp_qmsg_ok := true |}.

Module P12_sample.
Import P12.

Definition bag : PKCS12_SAFEBAG :=
  {| bag_type := 0;
     shkeybag := {| algor := {| algorithm := 0; parameter := [] |}; digest := [] |} |}.

Definition data_safe : PKCS7 :=
  {| p7_type := NID_pkcs7_data; p7_content := [1; 2; 3];
     p7_enc_algorithm := {| algorithm := 0; parameter := [] |} |}.

Definition p12 : PKCS12 := {| authsafes_data := Some [1; 2; 3]; mac_digest := [9] |}.

(** A libcrypto in which every primitive succeeds. *)
Definition crypto : libcrypto :=
  {| PKCS12_verify_mac := fun _ _ => true;
     PKCS12_unpack_authsafes := fun _ => Some [data_safe];
     sk_PKCS7_new_null := Some [];
     sk_PKCS7_push := fun s x => Some (s ++ [x]);
     PKCS12_unpack_p7data := fun _ => Some [bag];
     PKCS12_unpack_p7encdata := fun _ _ => Some [bag];
     PKCS12_pack_p7data := fun _ => Some data_safe;
     PKCS12_pack_p7encdata := fun _ _ _ _ _ => Some data_safe;
     PKCS8_decrypt := fun _ _ => Some [];
     PKCS8_encrypt := fun _ _ _ _ _ => Some (shkeybag bag);
     d2i_PBEPARAM := fun _ => Some {| salt := []; iter := 1 |};
     ASN1_OCTET_STRING_new := true;
     ASN1_OCTET_STRING_set := fun m => Some m;
     PKCS12_pack_authsafes := fun _ _ => Some [4; 5; 6];
     PKCS12_gen_mac := fun _ _ => Some [7] |}.
End P12_sample.

(** *** The orders of the trust-anchor list and of the blocklist tree *)

(** The order [add_new_ta] keeps its list in: [strcmp] is negative. *)
Definition ta_lt (a b : cstring) : Prop := strcmp a b < 0.

(** The order of the blocklist tree. *)
Definition bl_lt (a b : cstring) : Prop := bl_cmp a b < 0.

(** *** Trust anchors on file and on the resolver channel
    (frontend.c, lines 565-584 and 1177-1271) *)

(** Modelled from the spec: the DNSKEY type code and the size of an RR buffer
    (sldns/rrdef.h), which is not part of the sources at hand; section 4.7
    speaks of DNSKEY RR strings, the values are those of the header. *)
Definition LDNS_RR_TYPE_DNSKEY : Z := 48.
Definition LDNS_RR_BUF_SIZE : nat := Z.to_nat 65535.

(** A regular file behind a descriptor: its octets and the offset of the
    descriptor. *)
Record file : Type := mk_file { f_octets : list Z; f_offset : nat }.

(** [lseek(fd, offset, SEEK_SET)]. *)
Definition lseek (f : file) (offset : nat) : file := mk_file (f_octets f) offset.

(** A [write] that takes the octets [buf]: they land at the offset, which
    moves past them; a gap before the offset reads as zeros. *)
Definition write (f : file) (buf : list Z) : file :=
  mk_file (take (f_offset f) (f_octets f ++ replicate (f_offset f - length (f_octets f)) 0)
           ++ buf ++ drop (f_offset f + length buf) (f_octets f))
          (f_offset f + length buf).

(** [ftruncate(fd, len)]; [ok] is whether it succeeded. *)
Definition ftruncate (ok : bool) (f : file) (len : nat) : file :=
  if ok then mk_file (resize (f_octets f) len) (f_offset f) else f.

(** What the system answers during one [write_trust_anchors]: whether
    [lseek] succeeds, for the i-th anchor whether [asprintf] succeeds and
    what [write] returns ([None] is -1, [Some k] the number of octets it
    took), and whether [ftruncate] succeeds. *)
Record wta_env : Type := {
  lseek_ok : bool;
  asprintf_ok : nat -> bool;
  write_result : nat -> option nat;
  ftruncate_ok : bool
}.

(** The [TAILQ_FOREACH] of [write_trust_anchors] from the i-th anchor on: the
    file and [len] as the loop leaves them ([len] is 0 after a failure). *)
Fixpoint write_trust_anchors_loop (e : wta_env) (i : nat) (tah : trust_anchor_head)
    (f : file) (len : nat) : file * nat :=
  match tah with
  | [] => (f, len)
  | ta :: rest =>
      if negb (asprintf_ok e i) then (f, 0%nat)
      else
        let str := strdup ta ++ [NEWLINE] in
        let n := length str in
        match write_result e i with
        | None => (f, 0%nat)
        | Some k =>
            let k := Nat.min k n in
            let f := write f (take k str) in
            if (k =? n)%nat then write_trust_anchors_loop e (S i) rest f (len + n)
            else (f, 0%nat)
        end
  end.

(** write_trust_anchors (lines 1240-1271); the final [fsync] changes nothing
    that is modelled. *)
Definition write_trust_anchors (e : wta_env) (tah : trust_anchor_head) (f : file) : file :=
  let '(f, len) :=
    if negb (lseek_ok e) then (f, 0%nat)
    else write_trust_anchors_loop e 0 tah (lseek f 0) 0 in
  ftruncate (ftruncate_ok e) f len.

(** The calls [strsep(&p, "\n")] until it returns NULL: the pieces of the C
    string [s] between its newlines, the piece after the last newline
    included; [cur] collects the current piece in reverse. *)
Fixpoint strsep_newline (cur : list Z) (s : list Z) : list cstring :=
  match s with
  | [] => [rev cur]
  | c :: rest =>
      if c =? NUL then [rev cur]
      else if c =? NEWLINE then rev cur :: strsep_newline [] rest
      else strsep_newline (c :: cur) rest
  end.

(** Modelled from the spec: the two sldns functions [parse_trust_anchor]
    calls (sldns/str2wire.h, sldns/wire2str.h) belong to the library that
    section 1 leaves out.  [sldns_str2wire_rr_buf line len] gives the status
    it returns, the RR buffer, and what it leaves in [*len] and
    [*dname_len]; [len] is the room it is told the buffer has. *)
Record libsldns : Type := {
  sldns_str2wire_rr_buf : cstring -> nat -> Z * list Z * nat * nat;
  sldns_wirerr_get_type : list Z -> nat -> nat -> Z
}.

Section TrustAnchorFile.
Variable sldns : libsldns.

(** The [while] loop of [parse_trust_anchor] (lines 1215-1222).  [len] is set
    once before the loop and handed to every call by reference. *)
Fixpoint parse_trust_anchor_lines (lines : list cstring) (len : nat)
    (tah : trust_anchor_head) : trust_anchor_head :=
  match lines with
  | [] => tah
  | line :: rest =>
      let '(status, rr, len, dname_len) := sldns_str2wire_rr_buf sldns line len in
      if negb (status =? 0) then parse_trust_anchor_lines rest len tah
      else if sldns_wirerr_get_type sldns rr len dname_len =? LDNS_RR_TYPE_DNSKEY
           then parse_trust_anchor_lines rest len (add_new_ta tah line)
           else parse_trust_anchor_lines rest len tah
  end.

(** parse_trust_anchor (lines 1177-1227).  [content] is what the [read] loop
    collected up to the end of the file, [None] when a [read] or an
    allocation failed (and then the list is left alone). *)
Definition parse_trust_anchor (tah : trust_anchor_head) (content : option (list Z))
  : trust_anchor_head :=
  match content with
  | None => tah
  | Some str => parse_trust_anchor_lines (strsep_newline [] str) LDNS_RR_BUF_SIZE tah
  end.
End TrustAnchorFile.

(** The trust-anchor messages of the resolver channel, each with its
    payload. *)
Inductive imsg_ta : Type :=
  | IMSG_NEW_TA (data : list Z)
  | IMSG_NEW_TAS_ABORT
  | IMSG_NEW_TAS_DONE.

(** send_trust_anchors (lines 1229-1238): the messages it composes, in order.
    The payload of IMSG_NEW_TA is the string with its NUL. *)
Definition send_trust_anchors (tah : trust_anchor_head) : list imsg_ta :=
  ((fun ta => IMSG_NEW_TA (strdup ta ++ [NUL])) <$> tah) ++ [IMSG_NEW_TAS_DONE].

(** The trust-anchor state of the front-end: the two lists, the descriptor
    of the trust-anchor file ([None] is -1), and the messages composed for
    the resolver so far. *)
Record ta_store : Type := {
  trust_anchors : trust_anchor_head;
  new_trust_anchors : trust_anchor_head;
  ta_fd : option file;
  to_resolver : list imsg_ta
}.

(** The trust-anchor cases of frontend_dispatch_resolver (lines 565-584).
    IMSG_NEW_TA stores a NUL over the last octet of the payload; with an
    empty payload that store has no object to go to. *)
Definition frontend_dispatch_resolver_ta (m : imsg_ta) (e : wta_env) (s : ta_store)
  : outcome ta_store :=
  match m with
  | IMSG_NEW_TA data =>
      match data with
      | [] => Undefined
      | _ :: _ =>
          let data := <[(length data - 1)%nat := NUL]> data in
          Ok {| trust_anchors := trust_anchors s;
                new_trust_anchors := add_new_ta (new_trust_anchors s) data;
                ta_fd := ta_fd s; to_resolver := to_resolver s |}
      end
  | IMSG_NEW_TAS_ABORT =>
      Ok {| trust_anchors := trust_anchors s;
            new_trust_anchors := free_tas (new_trust_anchors s);
            ta_fd := ta_fd s; to_resolver := to_resolver s |}
  | IMSG_NEW_TAS_DONE =>
      let '(chg, newh, oldh) := merge_tas (new_trust_anchors s) (trust_anchors s) in
      Ok {| trust_anchors := oldh;
            new_trust_anchors := newh;
            ta_fd := write_trust_anchors e oldh <$> ta_fd s;
            to_resolver := if chg then to_resolver s ++ send_trust_anchors oldh
                           else to_resolver s |}
  end.

(** Messages handled one after the other, as the [for] loop of the
    dispatcher does. *)
Fixpoint frontend_dispatch_resolver_tas (ms : list imsg_ta) (e : wta_env) (s : ta_store)
  : outcome ta_store :=
  match ms with
  | [] => Ok s
  | m :: rest =>
      s' ← frontend_dispatch_resolver_ta m e s;
      frontend_dispatch_resolver_tas rest e s'
  end.


(** Every call [write_trust_anchors] makes for [tah] succeeds: the seek, and
    for each anchor [asprintf] and a [write] that takes the whole line. *)
Definition wta_succeeds (e : wta_env) (tah : trust_anchor_head) : Prop :=
  lseek_ok e = true
  /\ forall i ta, tah !! i = Some ta ->
       asprintf_ok e i = true
       /\ exists k, write_result e i = Some k /\ (length (strdup ta) + 1 <= k)%nat.

(** The same for the anchors of [tah] when they are the [i0]-th and later
    ones of the list. *)
Definition wta_ok_from (e : wta_env) (i0 : nat) (tah : trust_anchor_head) : Prop :=
  forall i ta, tah !! i = Some ta ->
    asprintf_ok e (i0 + i) = true
    /\ exists k, write_result e (i0 + i) = Some k /\ (length (strdup ta) + 1 <= k)%nat.

(** The anchors, one per line. *)
Definition ta_lines (tah : trust_anchor_head) : list Z :=
  concat ((fun ta => strdup ta ++ [NEWLINE]) <$> tah).

(** Run as [parse_trust_anchor] runs it, starting with room [len], the
    library takes each of [lines] for a DNSKEY record and the empty piece
    after the last newline for none. *)
Fixpoint reads_as_dnskeys (sldns : libsldns) (len : nat) (lines : list cstring) : Prop :=
  match lines with
  | [] =>
      let '(status, rr, len', dname_len) := sldns_str2wire_rr_buf sldns [] len in
      status <> 0 \/ sldns_wirerr_get_type sldns rr len' dname_len <> LDNS_RR_TYPE_DNSKEY
  | line :: rest =>
      let '(status, rr, len', dname_len) := sldns_str2wire_rr_buf sldns line len in
      status = 0 /\ sldns_wirerr_get_type sldns rr len' dname_len = LDNS_RR_TYPE_DNSKEY
      /\ reads_as_dnskeys sldns len' rest
  end.

(** An IMSG_NEW_TA payload as the dispatcher reads it: without its last
    octet. *)
Definition chop (data : list Z) : list Z := take (length data - 1) data.


(** A system in which every call succeeds. *)
Definition wta_all_ok : wta_env :=
  {| lseek_ok := true; asprintf_ok := fun _ => true;
     write_result := fun _ => Some 4096%nat; ftruncate_ok := true |}.

(** A disk that is full after the first line. *)
Definition wta_disk_full : wta_env :=
  {| lseek_ok := true; asprintf_ok := fun _ => true;
     write_result := fun i => match i with O => Some 4096%nat | _ => Some 1%nat end;
     ftruncate_ok := true |}.

(** A stand-in for the record parser: a line is a DNSKEY record when it
    starts with the root name and a blank. *)
Definition sldns_sample : libsldns :=
  {| sldns_str2wire_rr_buf := fun line len =>
       match line with
       | 46 :: 32 :: _ => (0, [0; 0; 48], 3%nat, 1%nat)
       | _ => (1, [], len, 0%nat)
       end;
     sldns_wirerr_get_type := fun rr len dname_len =>
       if (len <? dname_len + 2)%nat then 0 else sldns_read_uint16 (drop dname_len rr) |}.

Definition two_anchors : trust_anchor_head := [c_str ". DNSKEY 257 A"; c_str ". DNSKEY 257 B"].

Definition old_file : file := mk_file (c_str "stale stale stale stale stale stale stale") 7.

(** *** pending_query_cnt (frontend.c, lines 1332-1341) *)

(** The [TAILQ_FOREACH] that counts the entries of the queue. *)
Definition pending_query_cnt (st : frontend) : Z :=
  Z.of_nat (length (pending_queries st)).

(** *** Runs of the TCP callbacks *)

(** The read callback of the connection at [p], run once for each of [es].
    *)
Fixpoint tcp_requests (lib : libunbound) (p : loc) (es : list req_env) (st : frontend)
  : outcome frontend :=
  match es with
  | [] => Ok st
  | e :: rest => st' ← tcp_request lib p e st; tcp_requests lib p rest st'
  end.

(** The write callback of the connection at [p], run once for each of
    [ws]. *)
Fixpoint tcp_responses (p : loc) (ws : list (nat + errno)) (st : frontend)
  : outcome frontend :=
  match ws with
  | [] => Ok st
  | w :: rest => st' ← tcp_response p w st; tcp_responses p rest st'
  end.

(** What the environment answers to a [read] that delivers [octets], when
    the allocations succeed. *)
Definition delivers (hq : hq_env) (octets : list Z) : req_env :=
  {| read_result := inl octets; req_tmp_ok := true; req_abuf_ok := true; req_hq := hq |}.


(** A datagram that arrives when no memory is left for the buffers. *)
Definition out_of_memory : udp_env :=
  {| recvmsg := Some (example_query, 77);
     udp_calloc_ok := true;
     udp_draws := [4242];
     udp_qbuf_ok := false; udp_abuf_ok := true; udp_region_ok := true; udp_qmsg_ok := true;
     udp_hq := all_ok |}.

(** A connection that arrives when no memory is left for the region. *)
Definition no_region : tcp_env :=
  {| accept4 := inl (6, 78); tcp_calloc_ok := true; tcp_draws := [7];
     tcp_qbuf_ok := true; tcp_region_ok := false; tcp_qmsg_ok := true |}.

(** A TCP query at address 1 on descriptor 6, as [tcp_accept] leaves it, with
    query buffer [qb] and answer buffer [ab]. *)
Definition tcp_pending (qb : sldns_buffer) (ab : option sldns_buffer) : pending_query :=
  mk_pq 78 (Some qb) ab true query_info_zero (Some msg_parse_zero) edns_data_zero
        true true true 7 6 true.

Definition one_connection (qb : sldns_buffer) (ab : option sldns_buffer) : frontend :=
  mk_frontend {[ 1%positive := tcp_pending qb ab ]} [1%positive]
              {[ (1%positive, EvRead) := None; (1%positive, EvTmo) := Some 15%nat ]}
              {[ 0; 1; 2; 3; 5; 6 ]} 128 no_listener no_listener [] 0 [].

(** *** A framed query in transit *)

(** The pending query of a connection once the length prefix and the first
    [m] octets of [body] have arrived: the query buffer has the size the
    prefix announced and holds those octets. *)
Definition framed_pq (pq0 : pending_query) (body : list Z) (m : nat) : pending_query :=
  set_abuf
    (set_qbuf pq0
       (Some (mk_buffer (take m body ++ replicate (length body - m) 0) m
                (length body) (length body))))
    (Some (sldns_buffer_new (length body))).

(** Where [tcp_request] goes with the read that brings the last octet of
    [body]: the query buffer holds [body], ready to be read, the reading side
    of the connection is shut down, and [handle_query] takes over. *)
Definition tcp_request_complete (lib : libunbound) (hq : hq_env) (p : loc)
    (pq0 : pending_query) (body : list Z) (st : frontend) : outcome frontend :=
  handle_query lib hq p
    (event_del p EvRead
       (emit (store p (set_abuf (set_qbuf pq0 (Some (buffer_of body)))
                         (Some (sldns_buffer_new (length body)))) st)
          (ShutdownRd (fd pq0)))).

(** *** The event base *)

(** The invariant of the event base: a pending event belongs to an allocated
    TCP query, and the three events of an allocated TCP query have been set
    up. *)
Definition events_ok (st : frontend) : Prop :=
  (forall p e d, pq_events st !! (p, e) = Some d ->
     exists pq, heap st !! p = Some pq /\ tcp pq = true)
  /\ (forall p pq, heap st !! p = Some pq -> tcp pq = true ->
        ev pq = true /\ resp_ev pq = true /\ tmo_ev pq = true).

(** [pq'] is of the same transport as [pq] and has the same events set up. *)
Definition same_kind (pq pq' : pending_query) : Prop :=
  tcp pq' = tcp pq /\ ev pq' = ev pq /\ resp_ev pq' = resp_ev pq /\ tmo_ev pq' = tmo_ev pq.

(** *** Further PKCS#12 samples *)

Module P12_failing.
Import P12.

(** A libcrypto whose primitives succeed, except that no safe can be
    unpacked. *)
Definition crypto : libcrypto :=
  {| PKCS12_verify_mac := fun _ _ => true;
     PKCS12_unpack_authsafes := fun _ => Some [P12_sample.data_safe];
     sk_PKCS7_new_null := Some [];
     sk_PKCS7_push := fun s x => Some (s ++ [x]);
     PKCS12_unpack_p7data := fun _ => None;
     PKCS12_unpack_p7encdata := fun _ _ => None;
     PKCS12_pack_p7data := fun _ => Some P12_sample.data_safe;
     PKCS12_pack_p7encdata := fun _ _ _ _ _ => Some P12_sample.data_safe;
     PKCS8_decrypt := fun _ _ => Some [];
     PKCS8_encrypt := fun _ _ _ _ _ => Some (shkeybag P12_sample.bag);
     d2i_PBEPARAM := fun _ => Some {| salt := []; iter := 1 |};
     ASN1_OCTET_STRING_new := true;
     ASN1_OCTET_STRING_set := fun m => Some m;
     PKCS12_pack_authsafes := fun _ safes => Some (Z.of_nat (length safes) :: [4; 5; 6]);
     PKCS12_gen_mac := fun _ _ => Some [7] |}.
End P12_failing.

(** *** The route watcher (frontend.c, lines 997-1109) *)

(** Modelled from the spec: the constants of <net/route.h>, <net/if.h> and
    <sys/socket.h> behind the names section 4.9 uses (RTM_IFANNOUNCE,
    RTM_IFINFO, RTM_PROPOSAL, RTA_DNS, the two address families), and the
    sizes of [long] and [size_t]; the headers are not part of the sources at
    hand, so the embedding takes the values as parameters. *)
Record route_h : Type := {
  RTM_VERSION : Z;
  RTM_IFANNOUNCE : Z;
  RTM_IFINFO : Z;
  RTM_PROPOSAL : Z;
  IFAN_ARRIVAL : Z;
  RTA_DNS : Z;
  RTAX_DNS : nat;
  RTAX_MAX : nat;
  AF_INET : Z;
  AF_INET6 : Z;
  sizeof_long : Z;
  size_t_bits : Z
}.

(** [sizeof(struct in_addr)], [sizeof(struct in6_addr)], and the offset of
    [sr_dns] in [struct sockaddr_rtdns] (after the two octets [sr_len] and
    [sr_family]). *)
Definition sizeof_in_addr : Z := 4.
Definition sizeof_in6_addr : Z := 16.
Definition offsetof_sr_dns : Z := 2.

(** [struct rt_msghdr], reduced to the members the watcher reads;
    [ifan_index] and [ifan_what] are the members it reads through the cast
    to [struct if_announcemsghdr]. *)
Record rt_msghdr : Type := {
  rtm_msglen : Z;
  rtm_version : Z;
  rtm_type : Z;
  rtm_hdrlen : nat;
  rtm_index : Z;
  rtm_priority : Z;
  rtm_addrs : Z;
  ifan_index : Z;
  ifan_what : Z
}.

Record sockaddr_rtdns : Type := { sr_len : Z; sr_family : Z; sr_dns : list Z }.

Record imsg_rdns_proposal : Type := {
  if_index : Z;
  src : Z;
  rtdns : sockaddr_rtdns
}.

(** What the watcher composes for the resolver. *)
Inductive imsg_route : Type :=
  | IMSG_REPLACE_DNS (p : imsg_rdns_proposal)
  | IMSG_NETWORK_CHANGED.

(** The receive buffer as the watcher reads it: the message header at its
    start, and at an offset the [sa_len] member of the sockaddr there and the
    [struct sockaddr_rtdns] there; [None] is an offset outside the buffer. *)
Record route_buf : Type := {
  rtm_at_0 : rt_msghdr;
  sa_len_at : nat -> option Z;
  rtdns_at : nat -> option sockaddr_rtdns
}.

Section RouteWatcher.
Variable h : route_h.

(** The macro ROUNDUP (lines 1036-1037). *)
Definition ROUNDUP (a : Z) : Z :=
  if 0 <? a then 1 + Z.lor (a - 1) (sizeof_long h - 1) else sizeof_long h.

(** The [for] loop of get_rtaddrs from index [i], with [n] indices to go. *)
Fixpoint get_rtaddrs_from (buf : route_buf) (addrs : Z) (i n : nat) (sa : nat)
  : outcome (list (option nat)) :=
  match n with
  | O => Ok []
  | S n =>
      if negb (Z.land addrs (Z.shiftl 1 (Z.of_nat i)) =? 0) then
        len ← deref (sa_len_at buf sa);
        rest ← get_rtaddrs_from buf addrs (S i) n (sa + Z.to_nat (ROUNDUP len));
        Ok (Some sa :: rest)
      else
        rest ← get_rtaddrs_from buf addrs (S i) n sa;
        Ok (None :: rest)
  end.

(** get_rtaddrs (lines 1039-1052): [rti_info], a pointer being an offset
    into the buffer and [None] being NULL. *)
Definition get_rtaddrs (buf : route_buf) (addrs : Z) (sa : nat)
  : outcome (list (option nat)) :=
  get_rtaddrs_from buf addrs 0 (RTAX_MAX h) sa.

(** The test [(rtdns->sr_len - 2) % size != 0]: the difference is an [int]
    that the remainder converts to [size_t]. *)
Definition misaligned (len size : Z) : bool :=
  negb (((len - 2) mod 2 ^ size_t_bits h) mod size =? 0).

(** handle_route_message (lines 1054-1109): the messages it composes.
    [garbage] is what the uninitialised part of [rdns_proposal] holds. *)
Definition handle_route_message (garbage : list Z) (buf : route_buf)
    (rtm : rt_msghdr) (rti_info : list (option nat)) : outcome (list imsg_route) :=
  if rtm_type rtm =? RTM_IFANNOUNCE h then
    if ifan_what rtm =? IFAN_ARRIVAL h then Ok []
    else
      Ok [IMSG_REPLACE_DNS
            {| if_index := ifan_index rtm; src := 0;
               rtdns := {| sr_len := offsetof_sr_dns; sr_family := AF_INET h;
                           sr_dns := garbage |} |}]
  else if rtm_type rtm =? RTM_IFINFO h then Ok [IMSG_NETWORK_CHANGED]
  else if rtm_type rtm =? RTM_PROPOSAL h then
    if Z.land (rtm_addrs rtm) (RTA_DNS h) =? 0 then Ok []
    else
      sa ← deref (mjoin (rti_info !! RTAX_DNS h));
      rtdns ← deref (rtdns_at buf sa);
      let forward :=
        Ok [IMSG_REPLACE_DNS
              {| if_index := rtm_index rtm; src := rtm_priority rtm; rtdns := rtdns |}] in
      if sr_family rtdns =? AF_INET h then
        if misaligned (sr_len rtdns) sizeof_in_addr then Ok [] else forward
      else if sr_family rtdns =? AF_INET6 h then
        if misaligned (sr_len rtdns) sizeof_in6_addr then Ok [] else forward
      else Ok []
  else Ok [].

(** route_receive (lines 997-1034).  [buf_ok] is whether the buffer could be
    allocated, [n] what [read] returned ([inr]: -1 with that errno), [buf]
    the buffer after the read. *)
Definition route_receive (garbage : list Z) (buf_ok : bool) (n : Z + errno)
    (buf : route_buf) : outcome (list imsg_route) :=
  if negb buf_ok then Fatal
  else
    match n with
    | inr _ => Ok []
    | inl n =>
        let rtm := rtm_at_0 buf in
        if n =? 0 then Fatal
        else if (n <? 2) || (n <? rtm_msglen rtm) then Ok []
        else if negb (rtm_version rtm =? RTM_VERSION h) then Ok []
        else
          rti_info ← get_rtaddrs buf (rtm_addrs rtm) (rtm_hdrlen rtm);
          handle_route_message garbage buf rtm rti_info
    end.
End RouteWatcher.


(** A DNS proposal the watcher takes: of one of the two families, at least
    as long as the two leading octets, and holding a whole number of
    addresses of its family. *)
Definition wellformed_rtdns (h : route_h) (r : sockaddr_rtdns) : Prop :=
  (sr_family r = AF_INET h /\ 2 <= sr_len r /\ (sr_len r - 2) mod 4 = 0)
  \/ (sr_family r <> AF_INET h /\ sr_family r = AF_INET6 h
      /\ 2 <= sr_len r /\ (sr_len r - 2) mod 16 = 0).


(** The values of OpenBSD on a 64-bit machine. *)
Definition openbsd64 : route_h :=
  {| RTM_VERSION := 5; RTM_IFANNOUNCE := 15; RTM_IFINFO := 14; RTM_PROPOSAL := 19;
     IFAN_ARRIVAL := 0; RTA_DNS := 4096; RTAX_DNS := 12; RTAX_MAX := 15;
     AF_INET := 2; AF_INET6 := 24; sizeof_long := 8; size_t_bits := 64 |}.

(** A proposal message that carries one IPv4 resolver address, behind a
    24-octet header. *)
Definition proposal_rtdns : sockaddr_rtdns :=
  {| sr_len := 6; sr_family := 2; sr_dns := [192; 0; 2; 53] |}.

Definition proposal_buf : route_buf :=
  {| rtm_at_0 := {| rtm_msglen := 32; rtm_version := 5; rtm_type := 19; rtm_hdrlen := 24;
                    rtm_index := 1; rtm_priority := 56; rtm_addrs := 4096;
                    ifan_index := 1; ifan_what := 0 |};
     sa_len_at := fun a => if (a =? 24)%nat then Some 6 else None;
     rtdns_at := fun a => if (a =? 24)%nat then Some proposal_rtdns else None |}.

(** What get_rtaddrs makes of it: only entry RTAX_DNS is set. *)
Definition proposal_rti : list (option nat) :=
  replicate 12 None ++ [Some 24%nat; None; None].

(** *** The descriptors the parent hands over (frontend.c, lines 294-470 and
    601-611) *)

(** The message types of frontend_dispatch_main that carry a descriptor the
    front-end keeps. *)
Inductive imsg_sock : Type :=
  | IMSG_SOCKET_IPC_RESOLVER
  | IMSG_UDP6SOCK
  | IMSG_UDP4SOCK
  | IMSG_TCP4SOCK
  | IMSG_TCP6SOCK
  | IMSG_ROUTESOCK
  | IMSG_CONTROLFD.

#[global] Instance imsg_sock_eq_dec : EqDecision imsg_sock.
Proof. solve_decision. Defined.

(** A message of the parent: one of the above with [imsg.fd], or
    IMSG_STARTUP. *)
Inductive imsg_main : Type :=
  | Handover (t : imsg_sock) (fd : Z)
  | IMSG_STARTUP.

#[global] Instance imsg_main_eq_dec : EqDecision imsg_main.
Proof. solve_decision. Defined.

(** The globals those cases work on.  [iev_resolver] is [None] for NULL and
    else the descriptor of its [ibuf]; [ev_route] is [None] until
    [event_set] initialises it; [added] lists the descriptors whose read
    event [event_add] has armed; [startup_done] counts the
    IMSG_STARTUP_DONE messages composed for the parent. *)
Record socks : Type := mk_socks {
  iev_resolver : option Z;
  udp6sock : Z;
  udp4sock : Z;
  tcp4sock : Z;
  tcp6sock : Z;
  routesock : Z;
  control_state_fd : Z;
  ev_route : option Z;
  added : list Z;
  startup_done : nat
}.

(** The globals as they are initialised (lines 151-156, and line 188 for
    [control_state.fd]). *)
Definition socks_initial : socks :=
  {| iev_resolver := None; udp6sock := -1; udp4sock := -1; tcp4sock := -1;
     tcp6sock := -1; routesock := -1; control_state_fd := -1; ev_route := None;
     added := []; startup_done := 0 |}.

(** frontend_startup (lines 601-611). *)
Definition frontend_startup (s : socks) : outcome socks :=
  match ev_route s with
  | None => Fatal
  | Some fd =>
      Ok (mk_socks (iev_resolver s) (udp6sock s) (udp4sock s) (tcp4sock s) (tcp6sock s)
            (routesock s) (control_state_fd s) (ev_route s) (added s ++ [fd])
            (S (startup_done s)))
  end.

(** The descriptor cases of the [switch] of frontend_dispatch_main (lines
    323-354 and 371-443).  [malloc_ok] is whether the [struct imsgev] of the
    resolver pipe can be allocated. *)
Definition frontend_dispatch_main_sock (malloc_ok : bool) (m : imsg_main) (s : socks)
  : outcome socks :=
  match m with
  | Handover IMSG_SOCKET_IPC_RESOLVER fd =>
      if bool_decide (iev_resolver s <> None) then Fatal
      else if fd =? -1 then Fatal
      else if negb malloc_ok then Fatal
      else
        Ok (mk_socks (Some fd) (udp6sock s) (udp4sock s) (tcp4sock s) (tcp6sock s)
              (routesock s) (control_state_fd s) (ev_route s) (added s ++ [fd])
              (startup_done s))
  | Handover IMSG_UDP6SOCK fd =>
      if negb (udp6sock s =? -1) then Fatal
      else if fd =? -1 then Fatal
      else
        Ok (mk_socks (iev_resolver s) fd (udp4sock s) (tcp4sock s) (tcp6sock s)
              (routesock s) (control_state_fd s) (ev_route s) (added s ++ [fd])
              (startup_done s))
  | Handover IMSG_UDP4SOCK fd =>
      if negb (udp4sock s =? -1) then Fatal
      else if fd =? -1 then Fatal
      else
        Ok (mk_socks (iev_resolver s) (udp6sock s) fd (tcp4sock s) (tcp6sock s)
              (routesock s) (control_state_fd s) (ev_route s) (added s ++ [fd])
              (startup_done s))
  | Handover IMSG_TCP4SOCK fd =>
      if negb (tcp4sock s =? -1) then Fatal
      else if fd =? -1 then Fatal
      else
        Ok (mk_socks (iev_resolver s) (udp6sock s) (udp4sock s) fd (tcp6sock s)
              (routesock s) (control_state_fd s) (ev_route s) (added s ++ [fd])
              (startup_done s))
  | Handover IMSG_TCP6SOCK fd =>
      if negb (tcp6sock s =? -1) then Fatal
      else if fd =? -1 then Fatal
      else
        Ok (mk_socks (iev_resolver s) (udp6sock s) (udp4sock s) (tcp4sock s) fd
              (routesock s) (control_state_fd s) (ev_route s) (added s ++ [fd])
              (startup_done s))
  | Handover IMSG_ROUTESOCK fd =>
      if negb (routesock s =? -1) then Fatal
      else if fd =? -1 then Fatal
      else
        Ok (mk_socks (iev_resolver s) (udp6sock s) (udp4sock s) (tcp4sock s) (tcp6sock s)
              fd (control_state_fd s) (Some fd) (added s) (startup_done s))
  | Handover IMSG_CONTROLFD fd =>
      if negb (control_state_fd s =? -1) then Fatal
      else if fd =? -1 then Fatal
      else
        Ok (mk_socks (iev_resolver s) (udp6sock s) (udp4sock s) (tcp4sock s) (tcp6sock s)
              (routesock s) fd (ev_route s) (added s) (startup_done s))
  | IMSG_STARTUP => frontend_startup s
  end.

(** The [for (;;)] loop over the messages that [imsg_get] yields. *)
Fixpoint frontend_dispatch_main_socks (malloc_ok : bool) (ms : list imsg_main) (s : socks)
  : outcome socks :=
  match ms with
  | [] => Ok s
  | m :: ms =>
      frontend_dispatch_main_sock malloc_ok m s ≫= frontend_dispatch_main_socks malloc_ok ms
  end.


(** The descriptor the front-end holds for a message type, -1 for none. *)
Definition sock_of (s : socks) (t : imsg_sock) : Z :=
  match t with
  | IMSG_SOCKET_IPC_RESOLVER => default (-1) (iev_resolver s)
  | IMSG_UDP6SOCK => udp6sock s
  | IMSG_UDP4SOCK => udp4sock s
  | IMSG_TCP4SOCK => tcp4sock s
  | IMSG_TCP6SOCK => tcp6sock s
  | IMSG_ROUTESOCK => routesock s
  | IMSG_CONTROLFD => control_state_fd s
  end.

(** The state the descriptor cases keep: a held descriptor is not -1, and
    the route event is initialised exactly when the route socket is held. *)
Definition socks_ok (s : socks) : Prop :=
  (forall fd, iev_resolver s = Some fd -> fd <> -1)
  /\ (ev_route s = None <-> routesock s = -1).


(** A start-up as the parent drives it. *)
Definition startup_messages : list imsg_main :=
  [Handover IMSG_SOCKET_IPC_RESOLVER 3; Handover IMSG_UDP4SOCK 4; Handover IMSG_UDP6SOCK 5;
   Handover IMSG_TCP4SOCK 6; Handover IMSG_TCP6SOCK 7; Handover IMSG_ROUTESOCK 8;
   Handover IMSG_CONTROLFD 9; IMSG_STARTUP].

(** The globals after [startup_messages]. *)
Definition started : socks :=
  {| iev_resolver := Some 3; udp6sock := 5; udp4sock := 4; tcp4sock := 6; tcp6sock := 7;
     routesock := 8; control_state_fd := 9; ev_route := Some 8;
     added := [3; 4; 5; 6; 7; 8]; startup_done := 1 |}.

(** ** Part II: properties *)

(** *** Octets and header bits *)

Lemma land_pow2_testbit (b k : Z) :
  0 <= k -> (Z.land b (2 ^ k) =? 0) = negb (Z.testbit b k).
Proof.
  intros Hk.
  destruct (Z.testbit b k) eqn:Hb; simpl.
  - apply Z.eqb_neq. intros H0.
    assert (Hbit : Z.testbit (Z.land b (2 ^ k)) k = true).
    { rewrite Z.land_spec, Hb, Z.pow2_bits_true by lia. reflexivity. }
    rewrite H0, Z.bits_0 in Hbit. discriminate.
  - apply Z.eqb_eq. apply Z.bits_inj'. intros n Hn.
    rewrite Z.land_spec, Z.bits_0.
    destruct (Z.eq_dec n k) as [->|Hne].
    + rewrite Hb. reflexivity.
    + rewrite Z.pow2_bits_false by lia. apply andb_false_r.
Qed.

Lemma testbit_120 (n : Z) : 0 <= n -> Z.testbit 120 (n + 3) = (n <? 4).
Proof.
  intros Hn.
  destruct (Z.ltb_spec n 4) as [Hlt|Hge].
  - assert (Hc : n = 0 \/ n = 1 \/ n = 2 \/ n = 3) by lia.
    destruct Hc as [->|[->|[->| ->]]]; reflexivity.
  - apply Z.bits_above_log2; [lia|]. change (Z.log2 120) with 6. lia.
Qed.

Lemma opcode_wire_field (b : Z) :
  Z.shiftr (Z.land b LDNS_OPCODE_MASK) LDNS_OPCODE_SHIFT = (b / 8) mod 16.
Proof.
  unfold LDNS_OPCODE_MASK, LDNS_OPCODE_SHIFT.
  apply Z.bits_inj'. intros n Hn.
  rewrite Z.shiftr_spec, Z.land_spec, testbit_120 by lia.
  change 16 with (2 ^ 4). change 8 with (2 ^ 3).
  destruct (Z.ltb_spec n 4) as [Hlt|Hge].
  - rewrite Z.mod_pow2_bits_low by lia.
    rewrite Z.div_pow2_bits by lia. apply andb_true_r.
  - rewrite Z.mod_pow2_bits_high by lia. apply andb_false_r.
Qed.

Lemma wire_insert_eq (d : list Z) (i : nat) (v : Z) :
  (i < length d)%nat -> wire (<[i := v]> d) i = v.
Proof.
  intros Hi. unfold wire.
  apply nth_lookup_Some with (d := 0). by apply list_lookup_insert_eq.
Qed.

Lemma wire_insert_ne (d : list Z) (i j : nat) (v : Z) :
  i <> j -> wire (<[i := v]> d) j = wire d j.
Proof.
  intros Hne. unfold wire.
  destruct (d !! j) as [x|] eqn:Hj.
  - rewrite (nth_lookup_Some _ _ 0 x); [|by rewrite list_lookup_insert_ne].
    symmetry. by apply nth_lookup_Some.
  - rewrite !nth_overflow; [done| |].
    + by apply lookup_ge_None.
    + rewrite length_insert. by apply lookup_ge_None.
Qed.

Lemma testbit_253 (k : Z) : 0 <= k < 8 -> Z.testbit 253 k = negb (k =? 1).
Proof.
  intros Hk.
  assert (Hc : k = 0 \/ k = 1 \/ k = 2 \/ k = 3 \/ k = 4 \/ k = 5 \/ k = 6 \/ k = 7) by lia.
  destruct Hc as [->|[->|[->|[->|[->|[->|[->| ->]]]]]]]; reflexivity.
Qed.

Lemma LDNS_TC_CLR_cleared (pkt : sldns_buffer) :
  sldns_buffer_invariant pkt -> (12 <= _limit pkt)%nat ->
  tc_cleared pkt (with_data pkt (LDNS_TC_CLR (sldns_buffer_begin pkt))).
Proof.
  intros (Hpl & Hlc & Hlen) H12.
  unfold tc_cleared, with_data, LDNS_TC_CLR, clr_mask, sldns_buffer_begin, hdr_TC.
  cbn [_position _limit _capacity _data].
  assert (H2 : (2 < length (_data pkt))%nat) by lia.
  rewrite length_insert, wire_insert_eq by done.
  repeat split; try done.
  - rewrite Z.land_spec. change (255 - LDNS_TC_MASK) with 253.
    rewrite (testbit_253 1) by lia. apply andb_false_r.
  - intros k Hk Hk1. rewrite Z.land_spec. change (255 - LDNS_TC_MASK) with 253.
    rewrite testbit_253 by lia.
    destruct (Z.eqb_spec k 1); [lia|]. apply andb_true_r.
  - intros i Hi. by apply wire_insert_ne.
Qed.

(** *** check_query *)

(** C5. [check_query] follows the rules of section 4.1 in their order: too
    short or QR set is a drop (-1); else TC set clears the bit in the buffer
    and gives FORMERR; else RD clear gives REFUSED; else an opcode other than
    QUERY gives NOTIMPL; else FORMERR exactly when qdcount is not 1 and
    ancount is not 0 and nscount is not 0 and arcount exceeds 1; else 0. *)
Theorem check_query_follows_rules (pkt : sldns_buffer) :
  sldns_buffer_invariant pkt -> check_query_rules pkt (check_query pkt).
Proof.
  intros Hinv. unfold check_query, sldns_buffer_limit, sldns_buffer_begin.
  destruct (Nat.ltb_spec (_limit pkt) LDNS_HEADER_SIZE) as [Hshort|Hlong].
  { by apply rule_too_short. }
  unfold LDNS_HEADER_SIZE in Hlong.
  unfold LDNS_QR_WIRE, LDNS_TC_WIRE, LDNS_RD_WIRE, LDNS_OPCODE_WIRE.
  change LDNS_QR_MASK with (2 ^ 7). change LDNS_TC_MASK with (2 ^ 1).
  change LDNS_RD_MASK with (2 ^ 0).
  rewrite !land_pow2_testbit, !negb_involutive, opcode_wire_field by lia.
  destruct (Z.testbit (wire (_data pkt) 2) 7) eqn:Hqr; cbn [negb andb].
  { by apply rule_qr_set. }
  destruct (Z.testbit (wire (_data pkt) 2) 1) eqn:Htc; cbn [negb andb].
  { apply rule_tc_set; try done. by apply LDNS_TC_CLR_cleared. }
  destruct (Z.testbit (wire (_data pkt) 2) 0) eqn:Hrd; cbn [negb andb].
  2: { by apply rule_rd_clear. }
  destruct (Z.eqb_spec ((wire (_data pkt) 2 / 8) mod 16) LDNS_PACKET_QUERY) as [Hop|Hop]; cbn [negb andb].
  2: { by apply rule_opcode. }
  destruct (Z.eqb_spec (LDNS_QDCOUNT (_data pkt)) 1) as [Hqd|Hqd]; cbn [negb andb].
  { apply rule_accept; try done. intros (H & _). done. }
  destruct (Z.eqb_spec (LDNS_ANCOUNT (_data pkt)) 0) as [Han|Han]; cbn [negb andb].
  { apply rule_accept; try done. intros (_ & H & _). done. }
  destruct (Z.eqb_spec (LDNS_NSCOUNT (_data pkt)) 0) as [Hns|Hns]; cbn [negb andb].
  { apply rule_accept; try done. intros (_ & _ & H & _). done. }
  destruct (Z.ltb_spec 1 (LDNS_ARCOUNT (_data pkt))) as [Har|Har].
  { by apply rule_counts. }
  apply rule_accept; try done. intros (_ & _ & _ & H). lia.
Qed.

Lemma check_query_follows_rules_witness :
  sldns_buffer_invariant (buffer_of example_query)
  /\ check_query_rules (buffer_of example_query) (check_query (buffer_of example_query)).
Proof.
  assert (H : sldns_buffer_invariant (buffer_of example_query)).
  { unfold sldns_buffer_invariant. simpl. lia. }
  split; [exact H | exact (check_query_follows_rules _ H)].
Defined.

(** *** C strings *)

Lemma strcmp_refl (s : cstring) : strcmp s s = 0.
Proof.
  induction s as [|c s IH]; simpl; [done|].
  rewrite Z.eqb_refl. by destruct (c =? NUL).
Qed.

Lemma strcmp_eq (s t : cstring) :
  nul_free s -> nul_free t -> strcmp s t = 0 -> s = t.
Proof.
  revert t. induction s as [|c s IH]; intros [|d t] Hs Ht H; simpl in H.
  - done.
  - apply Forall_cons_1 in Ht as [Hd _]. unfold NUL in Hd. lia.
  - apply Forall_cons_1 in Hs as [Hc _]. unfold NUL in Hc. lia.
  - apply Forall_cons_1 in Hs as [Hc Hs]. apply Forall_cons_1 in Ht as [Hd Ht].
    destruct (Z.eqb_spec c d) as [->|Hne]; [|lia].
    destruct (Z.eqb_spec d NUL); [done|].
    f_equal. by apply IH.
Qed.

Lemma strcmp_eqb (s t : cstring) :
  nul_free s -> nul_free t -> (strcmp s t =? 0) = bool_decide (s = t).
Proof.
  intros Hs Ht. case_bool_decide as Heq.
  - subst. rewrite strcmp_refl. done.
  - apply Z.eqb_neq. intros H. apply Heq. by apply strcmp_eq.
Qed.

Lemma strdup_nul_free (s : cstring) : nul_free (strdup s).
Proof.
  induction s as [|c s IH]; simpl; [constructor|].
  destruct (Z.eqb_spec c NUL); [constructor|]. by constructor.
Qed.

(** *** Trust anchors *)

(** What [add_new_ta] stores are C strings. *)
Lemma add_new_ta_nul_free (tah : trust_anchor_head) (val : cstring) :
  Forall nul_free tah -> Forall nul_free (add_new_ta tah val).
Proof.
  induction tah as [|i rest IH]; simpl; intros Htah.
  - constructor; [apply strdup_nul_free|constructor].
  - apply Forall_cons_1 in Htah as [Hi Hrest].
    repeat case_match; repeat constructor; auto using strdup_nul_free.
Qed.

Lemma differ_elementwise_neq (newh oldh : trust_anchor_head) :
  differ_elementwise newh oldh <-> newh <> oldh.
Proof.
  split.
  - intros [Hlen|(i & a & b & Ha & Hb & Hab)] ->; [done|]. congruence.
  - revert oldh. induction newh as [|a newh IH]; intros [|b oldh] Hne.
    + done.
    + left. simpl. lia.
    + left. simpl. lia.
    + destruct (decide (a = b)) as [->|Hab].
      * destruct (IH oldh) as [Hlen|(i & x & y & Hx & Hy & Hxy)]; [congruence| |].
        -- left. simpl. lia.
        -- right. exists (S i), x, y. done.
      * right. exists 0%nat, a, b. done.
Qed.

Lemma merge_tas_loop_spec (newh j : trust_anchor_head) :
  Forall nul_free newh -> Forall nul_free j ->
  match merge_tas_loop newh j with
  | (true, _) => newh <> j
  | (false, j') => j = newh ++ j'
  end.
Proof.
  revert j. induction newh as [|i newh IH]; intros j Hn Hj; simpl; [done|].
  destruct j as [|tj j]; [done|].
  apply Forall_cons_1 in Hn as [Hi Hn]. apply Forall_cons_1 in Hj as [Htj Hj].
  rewrite strcmp_eqb by done.
  case_bool_decide as Heq; simpl.
  - subst tj. specialize (IH j Hn Hj).
    destruct (merge_tas_loop newh j) as [[] j']; [congruence|].
    by rewrite IH.
  - congruence.
Qed.

(** C7. [merge_tas newh oldh] reports a change exactly when the two ordered
    sequences differ element-wise; when it does, the current list becomes the
    new one, and when it does not, the current list keeps its elements. *)
Theorem merge_tas_changed_iff_differ (newh oldh : trust_anchor_head) :
  Forall nul_free newh -> Forall nul_free oldh ->
  (fst (fst (merge_tas newh oldh)) = true <-> differ_elementwise newh oldh)
  /\ (fst (fst (merge_tas newh oldh)) = true -> snd (merge_tas newh oldh) = newh)
  /\ (fst (fst (merge_tas newh oldh)) = false -> snd (merge_tas newh oldh) = oldh).
Proof.
  intros Hn Ho. rewrite differ_elementwise_neq.
  pose proof (merge_tas_loop_spec newh oldh Hn Ho) as Hloop.
  unfold merge_tas, free_tas.
  destruct (merge_tas_loop newh oldh) as [[] j]; simpl.
  - destruct j; simpl; done.
  - destruct j as [|x j]; simpl.
    + rewrite app_nil_r in Hloop. subst. split; [split; [done|congruence]|done].
    + split; [split; [|done]|done]. intros _ Heq. subst newh.
      assert (Hl : length oldh = length (oldh ++ x :: j)) by congruence.
      rewrite length_app in Hl. simpl in Hl. lia.
Qed.

Lemma merge_tas_changed_iff_differ_witness :
  let newh := [c_str "A"; c_str "B"] in
  let oldh := [c_str "A"] in
  (fst (fst (merge_tas newh oldh)) = true <-> differ_elementwise newh oldh)
  /\ (fst (fst (merge_tas newh oldh)) = true -> snd (merge_tas newh oldh) = newh)
  /\ (fst (fst (merge_tas newh oldh)) = false -> snd (merge_tas newh oldh) = oldh).
Proof.
  apply merge_tas_changed_iff_differ.
  - repeat constructor; discriminate.
  - repeat constructor; discriminate.
Defined.

(** *** PKCS12_newpass *)

Section NewpassFacts.
Import P12.
Variable L : libcrypto.

Lemma pkcs7_repack_data_failure (pkcs7 : PKCS7) (safes : list PKCS7) (o n : password) :
  fst (pkcs7_repack_data L pkcs7 safes o n) = 0 ->
  snd (pkcs7_repack_data L pkcs7 safes o n) = safes.
Proof.
  unfold pkcs7_repack_data.
  destruct (PKCS12_unpack_p7data L pkcs7); [|done].
  destruct (newpass_bags L _ o n) as [r bags'].
  destruct (r =? 0); [done|].
  destruct (PKCS12_pack_p7data L bags'); [|done].
  destruct (sk_PKCS7_push L safes _); simpl; [lia|done].
Qed.

Lemma pkcs7_repack_encdata_failure (pkcs7 : PKCS7) (safes : list PKCS7) (o n : password) :
  fst (pkcs7_repack_encdata L pkcs7 safes o n) = 0 ->
  snd (pkcs7_repack_encdata L pkcs7 safes o n) = safes.
Proof.
  unfold pkcs7_repack_encdata.
  destruct (PKCS12_unpack_p7encdata L pkcs7 o); [|done].
  destruct (alg_get L _) as [[[pbe_nid pbe_iter] pbe_saltlen]|]; [|done].
  destruct (newpass_bags L _ o n) as [r bags'].
  destruct (r =? 0); [done|].
  destruct (PKCS12_pack_p7encdata L _ _ _ _ bags'); [|done].
  destruct (sk_PKCS7_push L safes _); simpl; [lia|done].
Qed.

Lemma newpass_authsafes_repack_success
    (authsafes : list PKCS7) (safes : list PKCS7) (o n : password) (pkcs7 : PKCS7) :
  pkcs7 ∈ authsafes -> repack_succeeds L pkcs7 safes o n ->
  newpass_authsafes L authsafes safes o n = None.
Proof.
  intros Hin Hok. induction authsafes as [|x rest IH]; [by apply elem_of_nil in Hin|].
  simpl. apply elem_of_cons in Hin.
  destruct (Z.eqb_spec (p7_type x) NID_pkcs7_data) as [Hd|Hd].
  - pose proof (pkcs7_repack_data_failure x safes o n) as Hfail.
    destruct (pkcs7_repack_data L x safes o n) as [r safes'] eqn:Hr; simpl in Hfail.
    destruct (Z.eqb_spec r 0) as [->|Hnz]; simpl; [|done].
    rewrite Hfail by done.
    destruct Hin as [->|Hin]; [|by apply IH].
    destruct Hok as [[_ H1]|[He _]].
    + rewrite Hr in H1. simpl in H1. lia.
    + rewrite Hd in He. discriminate.
  - destruct (Z.eqb_spec (p7_type x) NID_pkcs7_encrypted) as [He|He].
    + pose proof (pkcs7_repack_encdata_failure x safes o n) as Hfail.
      destruct (pkcs7_repack_encdata L x safes o n) as [r safes'] eqn:Hr; simpl in Hfail.
      destruct (Z.eqb_spec r 0) as [->|Hnz]; simpl; [|done].
      rewrite Hfail by done.
      destruct Hin as [->|Hin]; [|by apply IH].
      destruct Hok as [[Hd' _]|[_ H1]]; [done|].
      rewrite Hr in H1. simpl in H1. lia.
    + destruct Hin as [->|Hin]; [|by apply IH].
      destruct Hok as [[Hd' _]|[He' _]]; done.
Qed.

(** C8. [PKCS12_newpass] returns 0 whenever the repack of one of the
    authsafes it switches on succeeds: the [if (...) goto err;] after
    [pkcs7_repack_data] and [pkcs7_repack_encdata] leaves with [ret] still
    0.  (The stack [safes] is the empty one [sk_PKCS7_new_null] made: no
    element is ever pushed before the loop leaves.) *)
Theorem PKCS12_newpass_fails_when_repack_succeeds
    (pkcs12 : PKCS12) (o n : password) (authsafes safes : list PKCS7) (pkcs7 : PKCS7) :
  PKCS12_unpack_authsafes L pkcs12 = Some authsafes ->
  sk_PKCS7_new_null L = Some safes ->
  pkcs7 ∈ authsafes ->
  repack_succeeds L pkcs7 safes o n ->
  fst (PKCS12_newpass L (Some pkcs12) o n) = 0.
Proof.
  intros Hun Hnew Hin Hok. unfold PKCS12_newpass.
  destruct (PKCS12_verify_mac L pkcs12 o); simpl; [|done].
  rewrite Hun, Hnew.
  by rewrite (newpass_authsafes_repack_success authsafes safes o n pkcs7).
Qed.
End NewpassFacts.

Lemma PKCS12_newpass_fails_when_repack_succeeds_witness :
  P12.repack_succeeds P12_sample.crypto P12_sample.data_safe [] [] []
  /\ fst (P12.PKCS12_newpass P12_sample.crypto (Some P12_sample.p12) [] []) = 0.
Proof.
  assert (H : P12.repack_succeeds P12_sample.crypto P12_sample.data_safe [] [] []).
  { left. split; reflexivity. }
  split; [exact H|].
  apply (PKCS12_newpass_fails_when_repack_succeeds P12_sample.crypto P12_sample.p12
           [] [] [P12_sample.data_safe] [] P12_sample.data_safe);
    [reflexivity | reflexivity | apply list_elem_of_here | exact H].
Defined.

(** *** Blocklist *)

Lemma tolower_nonzero (c : Z) : c <> NUL -> tolower c <> NUL.
Proof. unfold tolower, NUL. intros Hc. case_match; lia. Qed.

Lemma tolower_dot (c : Z) : tolower c = DOT -> c = DOT.
Proof.
  unfold tolower, DOT.
  destruct ((65 <=? c) && (c <=? 90)) eqn:Hup; [|done].
  apply andb_true_iff in Hup as [H1 H2]. lia.
Qed.

Lemma strcasecmp_refl (s : cstring) : strcasecmp s s = 0.
Proof.
  induction s as [|c s IH]; simpl; [done|].
  rewrite Z.eqb_refl. by destruct (c =? NUL).
Qed.

Lemma strcasecmp_last_dot (a b : cstring) :
  nul_free a -> nul_free b -> strcasecmp a b = 0 ->
  last a = Some DOT -> last b = Some DOT.
Proof.
  revert b. induction a as [|c a IH]; intros [|d b] Ha Hb Hcmp Hlast; simpl in Hcmp.
  - done.
  - done.
  - apply Forall_cons_1 in Ha as [Hc _]. by apply tolower_nonzero in Hc.
  - apply Forall_cons_1 in Ha as [Hc Ha]. apply Forall_cons_1 in Hb as [Hd Hb].
    destruct (Z.eqb_spec (tolower c) (tolower d)) as [Hcd|Hcd]; [|lia].
    destruct (Z.eqb_spec c NUL) as [|_]; [done|].
    destruct a as [|c' a].
    + destruct b as [|d' b].
      * simpl in *. injection Hlast as ->.
        f_equal. apply tolower_dot. rewrite <- Hcd. reflexivity.
      * simpl in Hcmp. apply Forall_cons_1 in Hb as [Hd' _].
        apply tolower_nonzero in Hd'. unfold NUL in Hd'. lia.
    + destruct b as [|d' b].
      * simpl in Hcmp. apply Forall_cons_1 in Ha as [Hc' _].
        by apply tolower_nonzero in Hc'.
      * change (last (c :: c' :: a)) with (last (c' :: a)) in Hlast.
        change (last (d :: d' :: b)) with (last (d' :: b)).
        by apply IH.
Qed.

Lemma strdup_app (s t : cstring) : nul_free s -> strdup (s ++ t) = s ++ strdup t.
Proof.
  induction 1 as [|c s Hc Hs IH]; simpl; [done|].
  destruct (Z.eqb_spec c NUL); [done|]. by rewrite IH.
Qed.

Lemma fqdn_last (body : cstring) : last (fqdn body) = Some DOT.
Proof.
  unfold fqdn. destruct (last body) as [c|] eqn:Hl.
  - destruct (Z.eqb_spec c DOT) as [->|_]; [done|]. apply last_snoc.
  - apply last_snoc.
Qed.

Lemma fqdn_nul_free (body : cstring) : nul_free body -> nul_free (fqdn body).
Proof.
  intros Hb. unfold fqdn.
  assert (Hd : nul_free (body ++ [DOT])).
  { apply Forall_app. split; [done|]. by repeat constructor. }
  destruct (last body) as [c|]; [destruct (c =? DOT)|]; done.
Qed.

(** The line edit: a newline-terminated line with something before the
    newline is left, after [strdup], in FQDN form. *)
Lemma blocklist_line_fqdn (body : cstring) :
  body <> [] -> nul_free body ->
  strdup (blocklist_line (body ++ [NEWLINE])) = fqdn body.
Proof.
  intros Hne Hnf. unfold blocklist_line, wire.
  rewrite length_app. simpl length.
  assert (Hlen : (0 < length body)%nat) by (destruct body; [done|simpl; lia]).
  replace (length body + 1 - 1)%nat with (length body + 0)%nat by lia.
  replace (length body + 1 - 2)%nat with (pred (length body)) by lia.
  rewrite (nth_lookup_Some _ _ 0 NEWLINE).
  2: { rewrite lookup_app_r by lia.
       by replace (length body + 0 - length body)%nat with 0%nat by lia. }
  rewrite Z.eqb_refl.
  destruct (Nat.leb_spec 2 (length body + 1)) as [_|Hlt]; [|lia].
  rewrite !insert_app_r. simpl.
  assert (Hl : exists c, last body = Some c /\ nth (pred (length body)) (body ++ [NEWLINE]) 0 = c).
  { destruct (last body) as [c|] eqn:Hl.
    - exists c. split; [done|]. apply nth_lookup_Some.
      rewrite lookup_app_l by lia. by rewrite <- last_lookup.
    - apply last_None in Hl. done. }
  destruct Hl as (c & Hl & ->). unfold fqdn. rewrite Hl.
  destruct (Z.eqb_spec c DOT) as [->|Hc]; simpl; rewrite strdup_app by done; simpl.
  - by rewrite app_nil_r.
  - done.
Qed.

Lemma RB_INSERT_spec (head : bl_tree) (elm : cstring) :
  (forall x, x ∈ head -> x ∈ snd (RB_INSERT head elm))
  /\ (forall x, x ∈ snd (RB_INSERT head elm) -> x ∈ head \/ x = elm)
  /\ (exists e, e ∈ snd (RB_INSERT head elm) /\ bl_cmp elm e = 0).
Proof.
  induction head as [|y head (IH1 & IH2 & e & He & Hcmp)]; simpl.
  - split; [intros x Hx; by apply elem_of_nil in Hx|]. split.
    + intros x Hx. right. by apply list_elem_of_singleton in Hx.
    + exists elm. split; [apply list_elem_of_here | apply strcasecmp_refl].
  - destruct (Z.eqb_spec (bl_cmp elm y) 0) as [H0|Hn0]; simpl.
    { split; [done|]. split; [by left|]. exists y. split; [apply list_elem_of_here|done]. }
    destruct (bl_cmp elm y <? 0); simpl.
    { split; [intros x Hx; by apply list_elem_of_further|]. split.
      - intros x Hx. apply elem_of_cons in Hx as [->|Hx]; [by right|by left].
      - exists elm. split; [apply list_elem_of_here | apply strcasecmp_refl]. }
    destruct (RB_INSERT head elm) as [r rest'] eqn:Hins. simpl in *.
    split; [|split].
    + intros x Hx. apply elem_of_cons in Hx as [->|Hx];
        [apply list_elem_of_here | apply list_elem_of_further; by apply IH1].
    + intros x Hx. apply elem_of_cons in Hx as [->|Hx]; [left; apply list_elem_of_here|].
      destruct (IH2 x Hx) as [Hh| ->]; [left; by apply list_elem_of_further | by right].
    + exists e. split; [by apply list_elem_of_further|done].
Qed.

Lemma RB_FIND_some (head : bl_tree) (elm e : cstring) :
  e ∈ head -> bl_cmp elm e = 0 ->
  exists e', RB_FIND head elm = Some e' /\ e' ∈ head /\ bl_cmp elm e' = 0.
Proof.
  induction head as [|y head IH]; intros Hin Hcmp; [by apply elem_of_nil in Hin|].
  simpl. destruct (Z.eqb_spec (bl_cmp elm y) 0) as [H0|Hn0].
  - exists y. split; [done|]. split; [apply list_elem_of_here|done].
  - apply elem_of_cons in Hin as [->|Hin]; [done|].
    destruct (IH Hin Hcmp) as (e' & Hf & He' & Hc').
    exists e'. split; [done|]. split; [by apply list_elem_of_further|done].
Qed.

Lemma blocklist_fold_keeps (lines : list (list Z)) (head : bl_tree) (x : cstring) :
  x ∈ head -> x ∈ foldl blocklist_insert head lines.
Proof.
  revert head. induction lines as [|l lines IH]; intros head Hx; simpl; [done|].
  apply IH. unfold blocklist_insert. by apply RB_INSERT_spec.
Qed.

Lemma blocklist_fold_stored (lines : list (list Z)) (head : bl_tree) (l : list Z) :
  l ∈ lines ->
  exists e, e ∈ foldl blocklist_insert head lines
            /\ bl_cmp (strdup (blocklist_line l)) e = 0.
Proof.
  revert head. induction lines as [|l' lines IH]; intros head Hin; simpl;
    [by apply elem_of_nil in Hin|].
  apply elem_of_cons in Hin as [->|Hin]; [|by apply IH].
  destruct (RB_INSERT_spec head (strdup (blocklist_line l'))) as (_ & _ & e & He & Hcmp).
  exists e. split; [|done]. by apply blocklist_fold_keeps.
Qed.

Lemma blocklist_fold_origin (lines : list (list Z)) (head : bl_tree) (e : cstring) :
  e ∈ foldl blocklist_insert head lines ->
  e ∈ head \/ exists l, l ∈ lines /\ e = strdup (blocklist_line l).
Proof.
  revert head. induction lines as [|l lines IH]; intros head He; simpl in He; [by left|].
  destruct (IH _ He) as [Hh|(l' & Hl' & ->)].
  - unfold blocklist_insert in Hh. apply RB_INSERT_spec in Hh as [Hh| ->]; [by left|].
    right. exists l. split; [apply list_elem_of_here|done].
  - right. exists l'. split; [by apply list_elem_of_further|done].
Qed.

(** C3. After a reload every stored entry is the stored form of a
    line of the file (nothing of the old list is left), and for every line
    that ends in a newline and has something before it, the stored form is
    the line without its newline, with a [.] appended unless it already
    ended in one; the lookup of that FQDN form finds an entry, and the entry
    ends in [.]. *)
Theorem parse_blocklist_stores_fqdn (content : list Z) (head : bl_tree) (body : cstring) :
  body ++ [NEWLINE] ∈ getlines content -> body <> [] -> nul_free body ->
  (forall e, e ∈ parse_blocklist (Some content) head ->
     exists l, l ∈ getlines content /\ e = strdup (blocklist_line l))
  /\ strdup (blocklist_line (body ++ [NEWLINE])) = fqdn body
  /\ exists e, RB_FIND (parse_blocklist (Some content) head) (fqdn body) = Some e
               /\ strcasecmp (fqdn body) e = 0 /\ last e = Some DOT.
Proof.
  intros Hin Hne Hnf. unfold parse_blocklist, free_bl.
  assert (Horigin : forall e, e ∈ foldl blocklist_insert [] (getlines content) ->
            exists l, l ∈ getlines content /\ e = strdup (blocklist_line l)).
  { intros e He. apply blocklist_fold_origin in He as [He|He]; [|done].
    by apply elem_of_nil in He. }
  split; [exact Horigin|].
  split; [by apply blocklist_line_fqdn|].
  destruct (blocklist_fold_stored (getlines content) [] _ Hin) as (e & He & Hcmp).
  rewrite blocklist_line_fqdn in Hcmp by done.
  destruct (RB_FIND_some _ _ _ He Hcmp) as (e' & Hfind & He' & Hcmp').
  exists e'. split; [done|]. split; [done|].
  destruct (Horigin e' He') as (l & _ & ->).
  apply (strcasecmp_last_dot (fqdn body)); [by apply fqdn_nul_free| |done|apply fqdn_last].
  apply strdup_nul_free.
Qed.

Lemma parse_blocklist_stores_fqdn_witness :
  let body := c_str "Ads.Example" in
  (body ++ [NEWLINE] ∈ getlines blocklist_file /\ body <> [] /\ nul_free body)
  /\ strdup (blocklist_line (body ++ [NEWLINE])) = fqdn body
  /\ exists e, RB_FIND (parse_blocklist (Some blocklist_file) []) (fqdn body) = Some e
               /\ strcasecmp (fqdn body) e = 0 /\ last e = Some DOT.
Proof.
  intros body.
  assert (H1 : body ++ [NEWLINE] ∈ getlines blocklist_file).
  { vm_compute. apply list_elem_of_here. }
  assert (H2 : body <> []) by discriminate.
  assert (H3 : nul_free body).
  { vm_compute. repeat constructor; discriminate. }
  split; [done|].
  exact (proj2 (parse_blocklist_stores_fqdn blocklist_file [] body H1 H2 H3)).
Defined.

(** C3 does not hold as the specification words it. A file that holds one empty line: the reload stores
    the empty string, which does not end in [.]. *)
Lemma parse_blocklist_blank_line_counterexample :
  getlines [NEWLINE] = [[NEWLINE]]
  /\ parse_blocklist (Some [NEWLINE]) [] = [[]]
  /\ ~ stored_domains_end_with_dot [NEWLINE].
Proof.
  split; [reflexivity|]. split; [reflexivity|].
  intros H. specialize (H [] (list_elem_of_here _ _)). discriminate.
Qed.

(** *** free_pending_query *)

Lemma filter_ne_not_elem (p : loc) (q : list loc) : p ∉ filter (fun x => x ≠ p) q.
Proof. intros H. apply list_elem_of_filter in H as [H _]. done. Qed.

Lemma filter_ne_elem (p x : loc) (q : list loc) :
  x ≠ p -> x ∈ filter (fun y => y ≠ p) q <-> x ∈ q.
Proof. intros Hne. rewrite list_elem_of_filter. tauto. Qed.

(** A release of a UDP query only unlinks and frees it. *)
Lemma free_pending_query_udp (st : frontend) (p : loc) (pq : pending_query) :
  heap st !! p = Some pq -> tcp pq = false ->
  free_pending_query (Some p) st
  = Ok (set_heap (set_pending_queries st (filter (fun q => q ≠ p) (pending_queries st)))
          (delete p (heap st))).
Proof.
  intros Hp Htcp. unfold free_pending_query. rewrite Hp. simpl. by rewrite Htcp.
Qed.

(** C10. Releasing a pending query always takes it out of the table and
    frees it, and leaves every other query alone; the events are deleted and
    the descriptor is closed only when the query is a TCP one.  For a UDP
    query the set of open descriptors, the pending events and the output are
    exactly what they were: the shared listening socket [pq->fd] stays
    open. *)
Theorem free_pending_query_closes_only_tcp (st : frontend) (p : loc) (pq : pending_query) :
  heap st !! p = Some pq ->
  exists st',
    free_pending_query (Some p) st = Ok st'
    /\ (p ∉ pending_queries st') /\ heap st' !! p = None
    /\ (forall q, q ≠ p ->
          (q ∈ pending_queries st' <-> q ∈ pending_queries st)
          /\ heap st' !! q = heap st !! q)
    /\ (tcp pq = false ->
          fds st' = fds st /\ pq_events st' = pq_events st /\ out st' = out st
          /\ (fd pq ∈ fds st -> fd pq ∈ fds st'))
    /\ (tcp pq = true ->
          (fd pq <> -1 -> fds st' = (fds st ∖ {[fd pq]}) /\ out st' = out st ++ [Close (fd pq)])
          /\ (fd pq = -1 -> fds st' = fds st /\ out st' = out st)
          /\ (ev pq = true -> pq_events st' !! (p, EvRead) = None)
          /\ (resp_ev pq = true -> pq_events st' !! (p, EvResp) = None)
          /\ (tmo_ev pq = true -> pq_events st' !! (p, EvTmo) = None)).
Proof.
  intros Hp. unfold free_pending_query. rewrite Hp. simpl.
  eexists. split; [reflexivity|].
  destruct (tcp pq) eqn:Htcp, (ev pq), (resp_ev pq), (tmo_ev pq),
    (Z.eqb_spec (fd pq) (-1)) as [Hfd|Hfd]; simpl;
    (split; [apply filter_ne_not_elem|]);
    (split; [apply lookup_delete_eq|]);
    (split; [intros q Hq; split; [by apply filter_ne_elem|by apply lookup_delete_ne]|]);
    (split; [done|]); try done; intros _;
    repeat split; intros; try done;
    rewrite ?lookup_delete_eq, ?lookup_delete_ne, ?lookup_delete_eq by congruence;
    done.
Qed.


Lemma free_pending_query_closes_only_tcp_witness :
  exists st',
    free_pending_query (Some 1%positive) (one_query half_filled) = Ok st'
    /\ fds st' = fds (one_query half_filled)
    /\ 5 ∈ fds st'.
Proof.
  destruct (free_pending_query_closes_only_tcp (one_query half_filled) 1%positive
              (set_abuf (udp_pending example_query 4242) (Some half_filled)))
    as (st' & Hfree & _ & _ & _ & Hudp & _).
  - reflexivity.
  - exists st'. destruct (Hudp eq_refl) as (Hfds & _ & _ & Hfd).
    split; [done|]. split; [done|]. apply Hfd. vm_compute. reflexivity.
Defined.

(** *** handle_query: the screening *)

Lemma meta_qtype_is_meta (t : Z) : meta_qtype t -> is_meta_qtype t = true.
Proof.
  unfold meta_qtype, is_meta_qtype.
  intros [->|[->|[->|[->|[->|[H1 H2]]]]]]; try reflexivity.
  apply orb_true_iff. right. apply andb_true_iff. split; lia.
Qed.

Lemma meta_qtype_not_xfr (t : Z) : meta_qtype t -> is_xfr t = false.
Proof.
  unfold meta_qtype, is_xfr, LDNS_RR_TYPE_AXFR, LDNS_RR_TYPE_IXFR.
  intros [->|[->|[->|[->|[->|[H1 H2]]]]]]; try reflexivity.
  apply orb_false_iff. split; apply Z.eqb_neq; lia.
Qed.

(** C2. For a query that parses and passes the header guards, the
    screening is applied in the order invalid qname, blocklist, AXFR/IXFR,
    meta qtypes, CH class; in particular a query for a valid name that is not
    on the blocklist and whose qtype is OPT, TSIG, TKEY, MAILA, MAILB or in
    128..248 is answered by [error_answer] with FORMERR. *)
Theorem handle_query_screening_order
    (lib : libunbound) (bl : bl_tree) (e : hq_env) (pq : pending_query)
    (qb : sldns_buffer) (qi : query_info) (pos : nat) (qm : msg_parse) (ed : edns_data) :
  qbuf pq = Some qb -> is_Some (qmsg pq) ->
  query_info_parse lib qb = Some (qi, pos) ->
  parse_packet lib (sldns_buffer_rewind qb) = (LDNS_RCODE_NOERROR, qm) ->
  fst (check_query (sldns_buffer_rewind qb)) = LDNS_RCODE_NOERROR ->
  parse_extract_edns lib qm = (LDNS_RCODE_NOERROR, ed) ->
  let dname := dname_str lib (qname qi) in
  let valid := dname_valid lib (qname qi) (qname_len qi) in
  let blocked := bool_decide (is_Some (RB_FIND bl dname)) in
  let pq' := after_parse pq qi qm (snd (check_query (sldns_buffer_rewind qb))) ed in
  screening_exit lib e pq'
    (screening_blocklist_second valid (qtype qi) (qclass qi) (is_version_name dname) blocked)
    (handle_query_exit lib bl e pq)
  /\ (meta_qtype (qtype qi) -> valid = true -> blocked = false ->
      handle_query_exit lib bl e pq
      = hq_send_answer <$> error_answer lib pq' LDNS_RCODE_FORMERR).
Proof.
  intros Hqb [qm0 Hqm] Hparse Hpkt Hchk Hedns dname valid blocked pq'.
  assert (Hexit : screening_exit lib e pq'
            (screening_blocklist_second valid (qtype qi) (qclass qi)
               (is_version_name dname) blocked)
            (handle_query_exit lib bl e pq)).
  { unfold handle_query_exit. rewrite Hqb. simpl. rewrite Hparse, Hqm. simpl.
    rewrite Hpkt. simpl.
    destruct (check_query (sldns_buffer_rewind qb)) as [rcode qb'] eqn:Hcq.
    simpl in Hchk. subst rcode. simpl. rewrite Hedns. simpl.
    unfold screening_blocklist_second, screening_exit, is_xfr, is_version_name.
    fold dname valid blocked. subst pq'. unfold after_parse. simpl.
    destruct valid; simpl; [|done].
    destruct blocked; simpl; [done|].
    destruct ((qtype qi =? LDNS_RR_TYPE_AXFR) || (qtype qi =? LDNS_RR_TYPE_IXFR));
      simpl; [done|].
    destruct (is_meta_qtype (qtype qi)); simpl; [done|].
    destruct (qclass qi =? LDNS_RR_CLASS_CH); simpl; [|done].
    destruct ((strcasecmp dname (c_str "version.server.") =? 0)
              || (strcasecmp dname (c_str "version.bind.") =? 0)); done. }
  split; [exact Hexit|].
  intros Hmeta Hvalid Hblocked. revert Hexit.
  unfold screening_blocklist_second.
  rewrite Hvalid, Hblocked, (meta_qtype_not_xfr _ Hmeta), (meta_qtype_is_meta _ Hmeta).
  simpl. done.
Qed.

Lemma handle_query_screening_order_witness :
  exists pq',
    handle_query_exit ModelLib.lib [] all_ok (udp_pending blocked_meta_query 4242)
    = hq_send_answer <$> error_answer ModelLib.lib pq' LDNS_RCODE_FORMERR.
Proof.
  eexists.
  refine (proj2 (handle_query_screening_order ModelLib.lib [] all_ok
                   (udp_pending blocked_meta_query 4242) _ _ _ _ _
                   eq_refl (ex_intro _ _ eq_refl) _ _ _ _) _ _ _).
  - vm_compute. reflexivity.
  - vm_compute. reflexivity.
  - vm_compute. reflexivity.
  - vm_compute. reflexivity.
  - left. reflexivity.
  - vm_compute. reflexivity.
  - vm_compute. reflexivity.
Defined.

(** C2 does not hold as the specification words it. A query for [ads.example.] with qtype OPT parses and
    passes the header guards; with [ads.example.] on the blocklist the code
    answers it REFUSED, where the order of section 4.1 gives FORMERR. *)
Lemma handle_query_blocklisted_meta_counterexample :
  let pq := udp_pending blocked_meta_query 4242 in
  let bl := parse_blocklist (Some (c_str "ads.example" ++ [NEWLINE])) [] in
  meta_qtype LDNS_RR_TYPE_OPT
  /\ fst (check_query (buffer_of blocked_meta_query)) = LDNS_RCODE_NOERROR
  /\ screening_spec_order true LDNS_RR_TYPE_OPT LDNS_RR_CLASS_IN false true
     = scr_error LDNS_RCODE_FORMERR
  /\ exists pq' ab,
       handle_query_exit ModelLib.lib bl all_ok pq = Ok (hq_send_answer pq')
       /\ qtype (qinfo pq') = LDNS_RR_TYPE_OPT
       /\ ModelLib.dname_str (qname (qinfo pq')) = c_str "ads.example."
       /\ abuf pq' = Some ab
       /\ LDNS_RCODE_WIRE (answer_wire ab) = LDNS_RCODE_REFUSED
       /\ error_answer ModelLib.lib pq' LDNS_RCODE_FORMERR <> Ok pq'.
Proof.
  intros pq bl.
  split; [left; reflexivity|]. split; [reflexivity|]. split; [reflexivity|].
  eexists _, _. split; [vm_compute; reflexivity|].
  split; [reflexivity|]. split; [reflexivity|]. split; [reflexivity|].
  split; [reflexivity|]. vm_compute. discriminate.
Qed.

(** *** The IMSG_ANSWER case *)

#[local] Arguments free_pending_query : simpl never.

Lemma send_answer_udp (e : hq_env) (p : loc) (st : frontend)
    (pq : pending_query) (ab : sldns_buffer) :
  heap st !! p = Some pq -> abuf pq = Some ab -> tcp pq = false ->
  exists st',
    send_answer e p st = Ok st'
    /\ (p ∉ pending_queries st') /\ heap st' !! p = None
    /\ (forall q, q ≠ p ->
          (q ∈ pending_queries st' <-> q ∈ pending_queries st)
          /\ heap st' !! q = heap st !! q)
    /\ fds st' = fds st /\ pq_events st' = pq_events st
    /\ out st' = out st ++ [Sendto (fd pq) (answer_wire ab) (from_ pq)].
Proof.
  intros Hp Hab Htcp. unfold send_answer. rewrite Hp. simpl. rewrite Hab. simpl.
  rewrite Htcp. simpl.
  erewrite free_pending_query_udp; [|exact Hp|exact Htcp].
  unfold answer_wire.
  eexists. split; [reflexivity|]. simpl.
  split; [apply filter_ne_not_elem|].
  split; [apply lookup_delete_eq|].
  split; [|done].
  intros q Hq. split; [by apply filter_ne_elem|by apply lookup_delete_ne].
Qed.

(** C1. An IMSG_ANSWER chunk for a live pending query, with the
    [srvfail] flag clear and nothing bogus to report: if the answer buffer is
    still at position 0 and resizing it to the announced length fails, the
    query is answered SERVFAIL through [error_answer] and [send_answer], which
    for a UDP query sends the answer and releases this query and no other;
    if the chunk would carry the buffer past its capacity (a later chunk, or
    a first chunk longer than the length it announces), the front-end leaves
    through [fatalx]. *)
Theorem answer_chunk_failure_paths
    (lib : libunbound) (hdr : answer_header) (data : list Z) (e : answer_env)
    (st : frontend) (p : loc) (pq : pending_query) (ab : sldns_buffer) (qm : msg_parse) :
  ah_answer_len hdr <= UINT16_MAX ->
  find_pending_query st (ah_id hdr) = Some p -> heap st !! p = Some pq ->
  abuf pq = Some ab -> qmsg pq = Some qm ->
  ah_srvfail hdr = false ->
  (ah_bogus hdr = true -> Z.land (msg_flags qm) BIT_CD <> 0) ->
  let servfail :=
    error_encode lib (sldns_buffer_clear ab) LDNS_RCODE_SERVFAIL (qinfo pq)
      (msg_id qm) (msg_flags qm) (if edns_present (edns pq) then Some (edns pq) else None) in
  (sldns_buffer_position ab = 0%nat -> ans_realloc_ok e = false ->
     frontend_dispatch_resolver_answer lib hdr data e st
     = send_answer (ans_hq e) p (store p (set_abuf pq (Some servfail)) st)
     /\ (tcp pq = false ->
         exists st',
           frontend_dispatch_resolver_answer lib hdr data e st = Ok st'
           /\ (p ∉ pending_queries st') /\ heap st' !! p = None
           /\ (forall q, q ≠ p ->
                 (q ∈ pending_queries st' <-> q ∈ pending_queries st)
                 /\ heap st' !! q = heap st !! q)
           /\ out st' = out st ++ [Sendto (fd pq) (answer_wire servfail) (from_ pq)]))
  /\ ((0 < sldns_buffer_position ab)%nat ->
      (sldns_buffer_capacity ab < sldns_buffer_position ab + length data)%nat ->
      frontend_dispatch_resolver_answer lib hdr data e st = Fatal)
  /\ (sldns_buffer_position ab = 0%nat -> ans_realloc_ok e = true ->
      (Z.to_nat (ah_answer_len hdr) < length data)%nat ->
      frontend_dispatch_resolver_answer lib hdr data e st = Fatal).
Proof.
  intros Hlen Hfind Hp Hab Hqm Hsrv Hbogus servfail.
  assert (Hhead : frontend_dispatch_resolver_answer lib hdr data e st =
    let '(resized, ab') :=
      if (sldns_buffer_position ab =? 0)%nat
      then sldns_buffer_set_capacity (ans_realloc_ok e) ab (Z.to_nat (ah_answer_len hdr))
      else (true, ab) in
    if negb resized
    then send_answer (ans_hq e) p (store p (set_abuf pq (Some servfail)) st)
    else if (sldns_buffer_capacity ab' <? sldns_buffer_position ab' + length data)%nat
    then Fatal
    else
      let ab2 := sldns_buffer_write ab' data in
      let pq2 := set_abuf pq (Some ab2) in
      if (sldns_buffer_position ab2 =? sldns_buffer_capacity ab2)%nat then
        pq' ← noerror_answer lib (set_abuf pq2 (Some (sldns_buffer_flip ab2)));
        send_answer (ans_hq e) p (store p pq' st)
      else Ok (store p pq2 st)).
  { unfold frontend_dispatch_resolver_answer.
    destruct (Z.ltb_spec UINT16_MAX (ah_answer_len hdr)) as [Hbig|_]; [lia|].
    rewrite Hfind, Hp. simpl. rewrite Hsrv.
    unfold error_answer. rewrite Hab, Hqm. simpl.
    destruct (ah_bogus hdr) eqn:Hb; simpl.
    - destruct (Z.eqb_spec (Z.land (msg_flags qm) BIT_CD) 0) as [H0|_];
        [by specialize (Hbogus eq_refl)|].
      simpl. unfold sldns_buffer_set_capacity.
      by destruct (sldns_buffer_position ab =? 0)%nat, (ans_realloc_ok e).
    - unfold sldns_buffer_set_capacity.
      by destruct (sldns_buffer_position ab =? 0)%nat, (ans_realloc_ok e). }
  rewrite Hhead. clear Hhead.
  split; [|split].
  - intros Hpos Hfail. rewrite Hpos, Hfail. simpl. split; [done|].
    intros Htcp.
    destruct (send_answer_udp (ans_hq e) p (store p (set_abuf pq (Some servfail)) st)
                (set_abuf pq (Some servfail)) servfail)
      as (st' & Hsend & Hnot & Hnone & Hothers & _ & _ & Hout).
    { apply lookup_insert_eq. } { done. } { done. }
    exists st'. split; [done|]. split; [done|]. split; [done|]. split; [|done].
    intros q Hq. destruct (Hothers q Hq) as [Hmem Hheap].
    split; [done|]. rewrite Hheap. simpl. by apply lookup_insert_ne.
  - intros Hpos Hover.
    destruct (Nat.eqb_spec (sldns_buffer_position ab) 0) as [H0|_]; [lia|].
    simpl. by destruct (Nat.ltb_spec (sldns_buffer_capacity ab)
                          (sldns_buffer_position ab + length data)) as [_|?]; [|lia].
  - intros Hpos Hok Hover. rewrite Hpos, Hok. simpl.
    unfold sldns_buffer_position in Hpos. rewrite Hpos. simpl.
    by destruct (Nat.ltb_spec (Z.to_nat (ah_answer_len hdr)) (length data)) as [_|?]; [|lia].
Qed.

Lemma answer_chunk_failure_paths_witness :
  exists st',
    frontend_dispatch_resolver_answer ModelLib.lib (chunk 96) [1; 2; 3] realloc_fails
      (one_query (sldns_buffer_new 29)) = Ok st'
    /\ 1%positive ∉ pending_queries st'.
Proof.
  destruct (answer_chunk_failure_paths ModelLib.lib (chunk 96) [1; 2; 3] realloc_fails
              (one_query (sldns_buffer_new 29)) 1%positive
              (set_abuf (udp_pending example_query 4242) (Some (sldns_buffer_new 29)))
              (sldns_buffer_new 29) msg_parse_zero)
    as (Hfirst & _ & _).
  - unfold UINT16_MAX. simpl. lia.
  - vm_compute. reflexivity.
  - reflexivity.
  - reflexivity.
  - reflexivity.
  - reflexivity.
  - discriminate.
  - destruct (Hfirst eq_refl eq_refl) as (_ & Hudp).
    destruct (Hudp eq_refl) as (st' & Hok & Hnot & _).
    exists st'. split; [exact Hok | exact Hnot].
Defined.

(** C1 does not hold as the specification words it. A later chunk that would carry the answer buffer past
    its capacity (4 octets held, 8 announced, 5 more arriving), and a first
    chunk that announces length 0 and carries an octet: in both the handler
    leaves through [fatalx]; no SERVFAIL is sent and no query is dropped. *)
Lemma answer_chunk_overflow_counterexample :
  find_pending_query (one_query half_filled) 4242 = Some 1%positive
  /\ (sldns_buffer_capacity half_filled
      < sldns_buffer_position half_filled + length [5; 6; 7; 8; 9])%nat
  /\ frontend_dispatch_resolver_answer ModelLib.lib (chunk 8) [5; 6; 7; 8; 9] realloc_works
       (one_query half_filled) = Fatal
  /\ ~ servfail_and_drop ModelLib.lib (chunk 8) [5; 6; 7; 8; 9] realloc_works
         (one_query half_filled)
  /\ frontend_dispatch_resolver_answer ModelLib.lib (chunk 0) [5] realloc_works
       (one_query (sldns_buffer_new 29)) = Fatal
  /\ ~ servfail_and_drop ModelLib.lib (chunk 0) [5] realloc_works
         (one_query (sldns_buffer_new 29)).
Proof.
  split; [vm_compute; reflexivity|].
  split; [vm_compute; lia|].
  split; [vm_compute; reflexivity|].
  split.
  { intros (p & pq & st' & payload & _ & _ & Hok & _). vm_compute in Hok. discriminate. }
  split; [vm_compute; reflexivity|].
  intros (p & pq & st' & payload & _ & _ & Hok & _). vm_compute in Hok. discriminate.
Qed.

(** *** The header id of answers *)

Lemma take2_length (d x : list Z) : take 2 d = take 2 x -> (2 <= length x)%nat ->
  (2 <= length d)%nat.
Proof.
  intros Heq Hx. assert (Hl : length (take 2 d) = length (take 2 x)) by congruence.
  rewrite !length_take in Hl. lia.
Qed.

Lemma take2_write_at (d src : list Z) (at_ : nat) :
  (2 <= at_)%nat -> (2 <= length d)%nat -> take 2 (write_at d at_ src) = take 2 d.
Proof.
  intros Hat Hd. unfold write_at.
  rewrite take_app_le by (rewrite length_take; lia).
  rewrite take_take. f_equal. lia.
Qed.

Lemma write_at_length (d src : list Z) (at_ : nat) :
  (length d <= length (write_at d at_ src))%nat.
Proof.
  unfold write_at. rewrite !length_app, length_take, length_drop. lia.
Qed.

Lemma keeps2_write (x : list Z) (ab : sldns_buffer) (src : list Z) :
  keeps2 x ab -> keeps2 x (sldns_buffer_write ab src).
Proof.
  intros (Ht & Hl & Hp). unfold keeps2, sldns_buffer_write. simpl.
  split; [by rewrite take2_write_at|].
  split; [pose proof (write_at_length (_data ab) src (_position ab)); lia | lia].
Qed.

Lemma keeps2_skip (x : list Z) (ab : sldns_buffer) (n : nat) :
  keeps2 x ab -> keeps2 x (sldns_buffer_skip ab n).
Proof. intros (Ht & Hl & Hp). unfold keeps2. simpl. split; [done|]. split; lia. Qed.

Lemma keeps2_insert (x : list Z) (ab : sldns_buffer) (i : nat) (v : Z) :
  (2 <= i)%nat -> keeps2 x ab -> keeps2 x (with_data ab (<[i := v]> (_data ab))).
Proof.
  intros Hi (Ht & Hl & Hp). unfold keeps2, with_data. simpl.
  rewrite take_insert_ge by lia. rewrite length_insert. done.
Qed.

Lemma keeps2_flip (x : list Z) (ab : sldns_buffer) :
  keeps2 x ab -> take 2 (answer_wire (sldns_buffer_flip ab)) = x.
Proof.
  intros (Ht & Hl & Hp).
  unfold answer_wire, sldns_buffer_flip, sldns_buffer_remaining, sldns_buffer_current.
  simpl. rewrite Nat.sub_0_r, drop_0, take_take. rewrite <- Ht. f_equal. lia.
Qed.

Lemma keeps2_copy (ab qb : sldns_buffer) :
  (2 <= _limit qb)%nat -> (2 <= _capacity ab)%nat -> (2 <= length (_data qb))%nat ->
  keeps2 (take 2 (_data qb))
    (sldns_buffer_skip (sldns_buffer_clear (sldns_buffer_copy ab qb)) 2).
Proof.
  intros Hl Hc Hd. unfold keeps2, sldns_buffer_copy, sldns_buffer_limit,
    sldns_buffer_capacity, sldns_buffer_begin. simpl.
  unfold write_at. simpl.
  assert (Hlen : (2 <= length (take (_limit qb `min` _capacity ab) (_data qb)))%nat).
  { rewrite length_take. lia. }
  split; [|split; [rewrite length_app; lia | lia]].
  rewrite take_app_le by done. rewrite take_take. f_equal. lia.
Qed.

Lemma check_query_prefix (pkt : sldns_buffer) :
  take 2 (_data (snd (check_query pkt))) = take 2 (_data pkt)
  /\ _limit (snd (check_query pkt)) = _limit pkt
  /\ length (_data (snd (check_query pkt))) = length (_data pkt)
  /\ _capacity (snd (check_query pkt)) = _capacity pkt.
Proof.
  unfold check_query.
  repeat (case_match; simpl; try done).
  unfold LDNS_TC_CLR, clr_mask. rewrite take_insert_ge by lia.
  by rewrite length_insert.
Qed.

Lemma check_query_accept_limit (pkt : sldns_buffer) :
  fst (check_query pkt) = LDNS_RCODE_NOERROR -> (12 <= _limit pkt)%nat.
Proof.
  unfold check_query, sldns_buffer_limit.
  destruct (Nat.ltb_spec (_limit pkt) LDNS_HEADER_SIZE) as [Hs|Hl]; simpl; [done|].
  intros _. exact Hl.
Qed.

Section AnswerIds.
Variable lib : libunbound.
Hypothesis Hlib : keeps_id lib.

Lemma error_answer_wire_id (pq pq' : pending_query) (qm : msg_parse) (r : Z) :
  qmsg pq = Some qm -> error_answer lib pq r = Ok pq' ->
  exists ab, abuf pq' = Some ab /\ take 2 (answer_wire ab) = u16_bytes (msg_id qm).
Proof.
  intros Hqm. unfold error_answer. rewrite Hqm.
  destruct (abuf pq) as [ab|]; simpl; [|done].
  intros [= <-]. eexists. split; [reflexivity|]. apply (error_encode_id lib Hlib).
Qed.

Lemma noerror_answer_wire_id (pq pq' : pending_query) (qm : msg_parse) :
  qmsg pq = Some qm -> noerror_answer lib pq = Ok pq' ->
  exists ab, abuf pq' = Some ab /\ take 2 (answer_wire ab) = u16_bytes (msg_id qm).
Proof.
  intros Hqm. unfold noerror_answer.
  destruct (abuf pq) as [ab|] eqn:Hab; simpl; [|done].
  destruct (query_info_parse lib ab) as [[skip pos]|];
    [|by apply error_answer_wire_id].
  destruct (reply_info_parse lib _) as [rinfo|]; [|by apply error_answer_wire_id].
  rewrite Hqm. simpl.
  destruct (reply_info_encode lib _ _ _ _ _ _ _) as [[] ab2] eqn:Henc.
  - intros [= <-]. exists ab2. split; [done|].
    by apply (reply_info_encode_id lib Hlib) in Henc.
  - by apply error_answer_wire_id.
Qed.

Lemma chaos_answer_wire_id (pq pq' : pending_query) (qb : sldns_buffer)
    (qm : msg_parse) (ok : bool) :
  qbuf pq = Some qb -> qmsg pq = Some qm ->
  (2 <= _limit qb)%nat -> (2 <= length (_data qb))%nat ->
  u16_bytes (msg_id qm) = take 2 (_data qb) ->
  chaos_answer lib ok pq = Ok pq' ->
  exists ab, abuf pq' = Some ab /\ take 2 (answer_wire ab) = take 2 (_data qb).
Proof.
  intros Hqb Hqm Hlim Hlen Hid. unfold chaos_answer. rewrite Hqb.
  destruct (abuf pq) as [ab|] eqn:Hab; simpl; [|done].
  destruct ok; simpl.
  2: { intros H. rewrite <- Hid.
       by apply (error_answer_wire_id pq pq' qm LDNS_RCODE_SERVFAIL Hqm). }
  intros [= <-]. eexists. split; [reflexivity|].
  apply keeps2_flip.
  repeat first
    [ apply keeps2_copy
    | apply keeps2_write | apply keeps2_skip
    | apply keeps2_insert; [lia|]
    | match goal with |- keeps2 _ (if ?c then _ else _) => destruct c end ];
  simpl; try done; unfold COMPRESSED_RR_SIZE; lia.
Qed.
End AnswerIds.

(** A leaf of [handle_query] that answers through [error_answer]. *)
Local Ltac hq_error_leaf :=
  match goal with
  | |- hq_send_answer <$> error_answer ?lib ?pqX ?r = Ok _ -> _ =>
      let Hea := fresh "Hea" in
      let pq' := fresh "pq'" in
      destruct (error_answer lib pqX r) as [pq'| | |] eqn:Hea; simpl; [|done..];
      intros [= <-]; right; eexists _, _, pqX;
      split; [done|]; split; [done|];
      match goal with H : check_query _ = _ |- _ => rewrite H; simpl end;
      split; [done|]; left; by exists r, pq'
  end.

(** The ways out of [handle_query], with what each has established. *)
Lemma handle_query_exit_inv (lib : libunbound) (bl : bl_tree) (e : hq_env)
    (pq : pending_query) (x : hq_exit) :
  handle_query_exit lib bl e pq = Ok x ->
  x = hq_drop
  \/ exists qb qm pqX,
       qbuf pq = Some qb
       /\ parse_packet lib (sldns_buffer_rewind qb) = (LDNS_RCODE_NOERROR, qm)
       /\ parsed_from pq pqX qm (snd (check_query (sldns_buffer_rewind qb)))
       /\ ((exists r pq', error_answer lib pqX r = Ok pq' /\ x = hq_send_answer pq')
           \/ (exists pq',
                 fst (check_query (sldns_buffer_rewind qb)) = LDNS_RCODE_NOERROR
                 /\ chaos_answer lib (chaos_realloc_ok e) pqX = Ok pq'
                 /\ x = hq_send_answer pq')
           \/ (exists o,
                 fst (check_query (sldns_buffer_rewind qb)) = LDNS_RCODE_NOERROR
                 /\ x = hq_return pqX o)).
Proof.
  unfold handle_query_exit.
  destruct (qbuf pq) as [qb|] eqn:Hqb; simpl; [|done].
  destruct (query_info_parse lib qb) as [[qi pos]|]; [|intros [= <-]; by left].
  destruct (qmsg pq) as [qm0|] eqn:Hqm0; simpl; [|done].
  destruct (parse_packet lib (sldns_buffer_rewind qb)) as [prc qm] eqn:Hpkt.
  destruct (Z.eqb_spec prc LDNS_RCODE_NOERROR) as [->|Hprc]; simpl;
    [|intros [= <-]; by left].
  destruct (check_query (sldns_buffer_rewind qb)) as [rcode qb'] eqn:Hcq.
  destruct (parse_extract_edns lib qm) as [erc ed].
  set (pq1 := set_qbuf (set_qmsg (set_qinfo pq qi) (Some qm)) (Some qb')).
  assert (Hp1 : parsed_from pq pq1 qm qb') by (by repeat split).
  assert (Hp2 : parsed_from pq (set_edns pq1 ed) qm qb') by (by repeat split).
  destruct (Z.eqb_spec rcode LDNS_RCODE_NOERROR) as [->|Hrc].
  2: { destruct (rcode =? -1); [intros [= <-]; by left|]. hq_error_leaf. }
  repeat (match goal with
          | |- context [if ?c then _ else _] => destruct c eqn:?
          end; simpl; try hq_error_leaf).
  - destruct (chaos_answer lib (chaos_realloc_ok e) (set_edns pq1 ed)) as [pq'| | |] eqn:Hch;
      simpl; try done.
    intros [= <-]. right. exists qb, qm, (set_edns pq1 ed).
    split; [done|]. split; [done|]. rewrite Hcq. simpl.
    split; [done|]. right. left. by exists pq'.
  - intros [= <-]. right. exists qb, qm, (set_edns pq1 ed).
    split; [done|]. split; [done|]. rewrite Hcq. simpl.
    split; [done|]. right. right. by eexists.
Qed.

Lemma u16_bytes_read (a b : Z) (rest : list Z) :
  0 <= a < 256 -> 0 <= b < 256 ->
  u16_bytes (sldns_read_uint16 (a :: b :: rest)) = [a; b].
Proof.
  intros Ha Hb. unfold u16_bytes, sldns_read_uint16. simpl nth.
  change 255 with (Z.ones 8).
  assert (Hhi : Z.land (Z.shiftr (Z.lor (Z.shiftl a 8) b) 8) (Z.ones 8) = a).
  { rewrite Z.shiftr_lor, Z.shiftr_shiftl_l by lia.
    change (8 - 8) with 0. rewrite Z.shiftl_0_r.
    rewrite (Z.shiftr_div_pow2 b) by lia. change (2 ^ 8) with 256.
    rewrite (Z.div_small b), Z.lor_0_r, Z.land_ones by lia.
    apply Z.mod_small. change (2 ^ 8) with 256. lia. }
  assert (Hlo : Z.land (Z.lor (Z.shiftl a 8) b) (Z.ones 8) = b).
  { rewrite Z.land_lor_distr_l, !Z.land_ones, Z.shiftl_mul_pow2 by lia.
    rewrite Z.mod_mul by lia. rewrite Z.lor_0_l.
    apply Z.mod_small. change (2 ^ 8) with 256. lia. }
  by rewrite Hhi, Hlo.
Qed.

Lemma answer_wire_written (buf : sldns_buffer) (msg : list Z) :
  answer_wire (sldns_buffer_flip (sldns_buffer_write (sldns_buffer_clear buf) msg)) = msg.
Proof.
  unfold answer_wire, sldns_buffer_remaining, sldns_buffer_current. simpl.
  rewrite Nat.sub_0_r, drop_0. unfold write_at. rewrite take_0. simpl.
  apply take_app_length.
Qed.

(** The reference instance meets the contract [keeps_id]. *)
Lemma model_lib_keeps_id : keeps_id ModelLib.lib.
Proof.
  split.
  - intros b qm. simpl. unfold ModelLib.parse_packet, sldns_buffer_begin.
    destruct (_ <? _)%nat; simpl; [done|].
    destruct (Nat.ltb_spec (length (_data b)) LDNS_HEADER_SIZE) as [|Hlen]; simpl; [done|].
    destruct (forallb ModelLib.octet (take 4 (_data b))) eqn:Hoct; simpl; [|done].
    intros [= <-]. simpl.
    destruct (_data b) as [|x [|y rest]]; simpl in Hlen;
      [unfold LDNS_HEADER_SIZE in Hlen; lia..|].
    simpl in Hoct. apply andb_true_iff in Hoct as [Hx Hoct].
    apply andb_true_iff in Hoct as [Hy _].
    unfold ModelLib.octet in Hx, Hy.
    apply andb_true_iff in Hx as [Hx1 Hx2]. apply andb_true_iff in Hy as [Hy1 Hy2].
    rewrite u16_bytes_read by lia. reflexivity.
  - intros buf r qi qid qflags ed.
    change (error_encode ModelLib.lib) with ModelLib.error_encode.
    unfold ModelLib.error_encode. rewrite answer_wire_written. reflexivity.
  - intros qi rep qid flags buf udpsize dnssec out.
    change (reply_info_encode ModelLib.lib) with ModelLib.reply_info_encode.
    unfold ModelLib.reply_info_encode.
    destruct (_ && _); [|done].
    intros [= <-]. rewrite answer_wire_written. reflexivity.
Qed.



(** *** The pending-query table *)

Lemma find_pending_query_in_spec (h : gmap loc pending_query) (q : list loc) (id : Z) :
  match find_pending_query_in h q id with
  | Some p => p ∈ q /\ imsg_id <$> h !! p = Some id
  | None => forall p, p ∈ q -> imsg_id <$> h !! p <> Some id
  end.
Proof.
  induction q as [|x q IH]; simpl.
  - intros p Hp. by apply elem_of_nil in Hp.
  - destruct (h !! x) as [pq|] eqn:Hx.
    + destruct (Z.eqb_spec (imsg_id pq) id) as [Hid|Hid].
      * split; [apply list_elem_of_here|]. rewrite Hx. simpl. by f_equal.
      * destruct (find_pending_query_in h q id) as [p|].
        -- destruct IH as [Hp Hi]. split; [by apply list_elem_of_further|done].
        -- intros p Hp. apply elem_of_cons in Hp as [->|Hp]; [|by apply IH].
           rewrite Hx. simpl. congruence.
    + destruct (find_pending_query_in h q id) as [p|].
      * destruct IH as [Hp Hi]. split; [by apply list_elem_of_further|done].
      * intros p Hp. apply elem_of_cons in Hp as [->|Hp]; [|by apply IH].
        by rewrite Hx.
Qed.

Lemma table_ok_find (st : frontend) (p : loc) (pq : pending_query) :
  table_ok st -> p ∈ pending_queries st -> heap st !! p = Some pq ->
  find_pending_query st (imsg_id pq) = Some p.
Proof.
  intros (Hnd & Halloc & Huniq) Hp Hpq.
  pose proof (find_pending_query_in_spec (heap st) (pending_queries st) (imsg_id pq)) as Hf.
  unfold find_pending_query.
  destruct (find_pending_query_in (heap st) (pending_queries st) (imsg_id pq)) as [p'|].
  - destruct Hf as [Hp' Hid]. f_equal.
    apply (Huniq p' p (imsg_id pq)); [done|done|done|].
    unfold id_of. by rewrite Hpq.
  - exfalso. apply (Hf p Hp). by rewrite Hpq.
Qed.

Lemma draw_imsg_id_spec (st : frontend) (draws : list Z) :
  match draw_imsg_id st draws with
  | Some id => id ∈ draws /\ find_pending_query st id = None
  | None => forall d, d ∈ draws -> is_Some (find_pending_query st d)
  end.
Proof.
  induction draws as [|d draws IH]; simpl.
  - intros d Hd. by apply elem_of_nil in Hd.
  - destruct (find_pending_query st d) as [p|] eqn:Hfind.
    + destruct (draw_imsg_id st draws) as [id|].
      * destruct IH as [Hin Hnone]. split; [by apply list_elem_of_further|done].
      * intros d' Hd'. apply elem_of_cons in Hd' as [->|Hd']; [by rewrite Hfind|by apply IH].
    + split; [apply list_elem_of_here|done].
Qed.

(** The loop ends as soon as a draw is absent from the table. *)
Lemma draw_imsg_id_terminates (st : frontend) (draws : list Z) (d : Z) :
  d ∈ draws -> find_pending_query st d = None ->
  exists id, draw_imsg_id st draws = Some id /\ find_pending_query st id = None.
Proof.
  intros Hd Hnone. pose proof (draw_imsg_id_spec st draws) as Hspec.
  destruct (draw_imsg_id st draws) as [id|].
  - exists id. by destruct Hspec.
  - destruct (Hspec d Hd) as [p Hp]. congruence.
Qed.

Lemma subtable_refl (st : frontend) : subtable st st.
Proof. split; [reflexivity|done]. Qed.

Lemma subtable_trans (st1 st2 st3 : frontend) :
  subtable st1 st2 -> subtable st2 st3 -> subtable st1 st3.
Proof.
  intros [Hs12 Hi12] [Hs23 Hi23]. split; [by etrans|].
  intros p Hp. rewrite Hi23 by done. apply Hi12.
  by apply (sublist_subseteq _ _ Hs23).
Qed.

(** A handler that leaves queue and heap alone. *)
Lemma subtable_frame (st st' : frontend) :
  pending_queries st' = pending_queries st -> heap st' = heap st -> subtable st st'.
Proof.
  intros Hq Hh. split; [by rewrite Hq|]. intros p _. unfold id_of. by rewrite Hh.
Qed.

Lemma subtable_store (st : frontend) (p : loc) (pq pq' : pending_query) :
  heap st !! p = Some pq -> imsg_id pq' = imsg_id pq -> subtable st (store p pq' st).
Proof.
  intros Hp Hid. split; [reflexivity|]. intros q _. unfold id_of, store. simpl.
  destruct (decide (q = p)) as [->|Hne].
  - rewrite lookup_insert_eq, Hp. simpl. by f_equal.
  - by rewrite lookup_insert_ne.
Qed.

(** A store that keeps the id, followed by changes outside queue and heap. *)
Lemma subtable_store_frame (st st' : frontend) (p : loc) (pq pq' : pending_query) :
  heap st !! p = Some pq -> heap st' = <[p := pq']> (heap st) ->
  pending_queries st' = pending_queries st -> imsg_id pq' = imsg_id pq ->
  subtable st st'.
Proof.
  intros Hp Hh Hq Hid. apply (subtable_trans _ (store p pq' st)).
  - by apply (subtable_store st p pq).
  - by apply subtable_frame.
Qed.

Lemma subtable_free (st st' : frontend) (p : option loc) :
  free_pending_query p st = Ok st' -> subtable st st'.
Proof.
  unfold free_pending_query. destruct p as [p|]; [|intros [= <-]; apply subtable_refl].
  destruct (heap st !! p) as [pq|]; simpl; [|done].
  intros [= <-]. split.
  - destruct (tcp pq), (ev pq), (resp_ev pq), (tmo_ev pq), (fd pq =? -1); simpl;
      apply sublist_filter.
  - intros q Hq. unfold id_of.
    assert (Hne : q ≠ p).
    { intros ->. revert Hq.
      destruct (tcp pq), (ev pq), (resp_ev pq), (tmo_ev pq), (fd pq =? -1); simpl;
        apply filter_ne_not_elem. }
    destruct (tcp pq), (ev pq), (resp_ev pq), (tmo_ev pq), (fd pq =? -1); simpl;
      by rewrite lookup_delete_ne.
Qed.

Lemma table_ok_subtable (st st' : frontend) :
  table_ok st -> subtable st st' -> table_ok st'.
Proof.
  intros (Hnd & Halloc & Huniq) [Hsub Hid].
  pose proof (sublist_subseteq _ _ Hsub) as Hincl.
  split; [by eapply sublist_NoDup|]. split.
  - intros p Hp. specialize (Halloc p (Hincl p Hp)). specialize (Hid p Hp).
    unfold id_of in Hid. destruct Halloc as [pq Hpq]. rewrite Hpq in Hid.
    destruct (heap st' !! p); [done|discriminate].
  - intros p q i Hp Hq Hip Hiq. rewrite Hid in Hip, Hiq by done.
    apply (Huniq p q i); auto.
Qed.

(** Linking a fresh object under an id that is absent from the table. *)
Lemma table_ok_insert (st : frontend) (p : loc) (pq : pending_query) :
  table_ok st -> heap st !! p = None -> find_pending_query st (imsg_id pq) = None ->
  table_ok (TAILQ_INSERT_TAIL p (store p pq st)).
Proof.
  intros (Hnd & Halloc & Huniq) Hfresh Hnone.
  assert (Hnotin : p ∉ pending_queries st).
  { intros Hin. destruct (Halloc p Hin) as [x Hx]. congruence. }
  pose proof (find_pending_query_in_spec (heap st) (pending_queries st) (imsg_id pq)) as Hf.
  unfold find_pending_query in Hnone. rewrite Hnone in Hf.
  unfold table_ok, TAILQ_INSERT_TAIL, store, id_of. simpl.
  split; [|split].
  - apply NoDup_app. split; [done|]. split; [|apply NoDup_singleton].
    intros x Hx Hx'. apply list_elem_of_singleton in Hx'. by subst.
  - intros q Hq. apply elem_of_app in Hq as [Hq|Hq].
    + rewrite lookup_insert_ne by (intros ->; done). by apply Halloc.
    + apply list_elem_of_singleton in Hq as ->. by rewrite lookup_insert_eq.
  - intros a b i Ha Hb Hia Hib.
    apply elem_of_app in Ha as [Ha|Ha]; apply elem_of_app in Hb as [Hb|Hb].
    + rewrite lookup_insert_ne in Hia by (intros ->; done).
      rewrite lookup_insert_ne in Hib by (intros ->; done).
      by apply (Huniq a b i).
    + apply list_elem_of_singleton in Hb as ->.
      rewrite lookup_insert_eq in Hib. simpl in Hib. injection Hib as <-.
      rewrite lookup_insert_ne in Hia by (intros ->; done).
      by destruct (Hf a Ha).
    + apply list_elem_of_singleton in Ha as ->.
      rewrite lookup_insert_eq in Hia. simpl in Hia. injection Hia as <-.
      rewrite lookup_insert_ne in Hib by (intros ->; done).
      by destruct (Hf b Hb).
    + apply list_elem_of_singleton in Ha as ->.
      by apply list_elem_of_singleton in Hb as ->.
Qed.

Lemma calloc_fresh (st : frontend) : heap st !! calloc st = None.
Proof. unfold calloc. apply not_elem_of_dom. apply is_fresh. Qed.

Section TableSteps.
Variable lib : libunbound.

Lemma error_answer_sets_abuf (pq pq' : pending_query) (r : Z) :
  error_answer lib pq r = Ok pq' -> exists ab, pq' = set_abuf pq (Some ab).
Proof.
  unfold error_answer. destruct (abuf pq); simpl; [|done].
  destruct (qmsg pq); simpl; [|done]. intros [= <-]. by eexists.
Qed.

Lemma noerror_answer_sets_abuf (pq pq' : pending_query) :
  noerror_answer lib pq = Ok pq' -> exists ab, pq' = set_abuf pq (Some ab).
Proof.
  unfold noerror_answer. destruct (abuf pq) as [ab|]; simpl; [|done].
  destruct (query_info_parse lib ab) as [[skip pos]|]; [|apply error_answer_sets_abuf].
  destruct (reply_info_parse lib _) as [rinfo|]; [|apply error_answer_sets_abuf].
  destruct (qmsg pq); simpl; [|done].
  destruct (reply_info_encode lib _ _ _ _ _ _ _) as [[] ab2].
  - intros [= <-]. by eexists.
  - intros H. apply error_answer_sets_abuf in H as [ab' ->]. by eexists.
Qed.

Lemma chaos_answer_sets_abuf (pq pq' : pending_query) (ok : bool) :
  chaos_answer lib ok pq = Ok pq' -> exists ab, pq' = set_abuf pq (Some ab).
Proof.
  unfold chaos_answer. destruct (abuf pq) as [ab|]; simpl; [|done].
  destruct (qbuf pq) as [qb|]; simpl; [|done].
  destruct ok; simpl; [|apply error_answer_sets_abuf].
  intros [= <-]. by eexists.
Qed.

Lemma send_answer_subtable (e : hq_env) (p : loc) (st st' : frontend) :
  send_answer e p st = Ok st' -> subtable st st'.
Proof.
  unfold send_answer. destruct (heap st !! p) as [pq|] eqn:Hp; simpl; [|done].
  destruct (abuf pq) as [ab|]; simpl; [|done].
  destruct (tcp pq); simpl.
  - destruct (tmp_ok e); simpl; [|apply subtable_free].
    intros [= <-].
    eapply subtable_store_frame; [exact Hp|reflexivity|reflexivity|done].
  - intros H. apply subtable_free in H.
    eapply subtable_trans; [|exact H]. by apply subtable_frame.
Qed.

Lemma handle_query_subtable (e : hq_env) (p : loc) (st st' : frontend) :
  handle_query lib e p st = Ok st' -> subtable st st'.
Proof.
  unfold handle_query. destruct (heap st !! p) as [pq|] eqn:Hp; simpl; [|done].
  destruct (handle_query_exit lib (bl_head st) e pq) as [x| | |] eqn:Hx; simpl; [|done..].
  apply handle_query_exit_inv in Hx
    as [->|(qb & qm & pqX & _ & _ & Hpf & Hleaf)]; [apply subtable_free|].
  destruct Hpf as (_ & _ & _ & Hid & _).
  destruct Hleaf as [(r & pq' & Hea & ->)|[(pq' & _ & Hch & ->)|(o & _ & ->)]].
  - apply error_answer_sets_abuf in Hea as [ab ->]. intros H.
    apply send_answer_subtable in H. eapply subtable_trans; [|exact H].
    by apply (subtable_store st p pq).
  - apply chaos_answer_sets_abuf in Hch as [ab ->]. intros H.
    apply send_answer_subtable in H. eapply subtable_trans; [|exact H].
    by apply (subtable_store st p pq).
  - intros [= <-].
    eapply subtable_store_frame; [exact Hp|reflexivity|reflexivity|done].
Qed.

Lemma tcp_timeout_subtable (p : loc) (st st' : frontend) :
  tcp_timeout p (event_del p EvTmo st) = Ok st' -> subtable st st'.
Proof.
  unfold tcp_timeout. intros H. apply subtable_free in H.
  eapply subtable_trans; [|exact H]. by apply subtable_frame.
Qed.

Lemma tcp_response_subtable (p : loc) (w : nat + errno) (st st' : frontend) :
  tcp_response p w st = Ok st' -> subtable st st'.
Proof.
  unfold tcp_response. destruct (heap st !! p) as [pq|] eqn:Hp; simpl; [|done].
  destruct (abuf pq) as [ab|]; simpl; [|done].
  destruct w as [n|[]]; try (intros [= <-]; apply subtable_refl);
    try (destruct (free_pending_query (Some p) st); simpl; done).
  set (st1 := store p _ _).
  assert (H1 : subtable st st1).
  { eapply subtable_store_frame; [exact Hp|reflexivity|reflexivity|done]. }
  destruct (_ =? 0)%nat.
  - intros H. apply subtable_free in H. by eapply subtable_trans.
  - by intros [= <-].
Qed.

Lemma tcp_request_subtable (p : loc) (e : req_env) (st st' : frontend) :
  tcp_request lib p e st = Ok st' -> subtable st st'.
Proof.
  unfold tcp_request. destruct (heap st !! p) as [pq|] eqn:Hp; simpl; [|done].
  destruct (qbuf pq) as [qb|]; simpl; [|done].
  destruct (read_result e) as [octets|[]]; try (intros [= <-]; apply subtable_refl);
    try apply subtable_free.
  destruct (_ =? 0)%nat; [apply subtable_free|].
  match goal with |- (?f ≫= _) = _ -> _ => destruct f as [[[pq2 qb2]|]| | |] eqn:Hframed end;
    simpl; [| apply subtable_free | done..].
  assert (Hid : imsg_id pq2 = imsg_id pq).
  { revert Hframed.
    repeat (match goal with |- context [if ?c then _ else _] => destruct c end;
            simpl; try done);
      by intros [= <- <-]. }
  destruct (_ =? 0)%nat.
  - intros H. apply handle_query_subtable in H.
    eapply subtable_trans; [|exact H].
    eapply subtable_store_frame; [exact Hp|reflexivity|reflexivity|done].
  - intros [= <-]. by apply (subtable_store st p pq).
Qed.

Lemma frontend_dispatch_resolver_answer_subtable
    (hdr : answer_header) (data : list Z) (e : answer_env) (st st' : frontend) :
  frontend_dispatch_resolver_answer lib hdr data e st = Ok st' -> subtable st st'.
Proof.
  unfold frontend_dispatch_resolver_answer.
  destruct (UINT16_MAX <? ah_answer_len hdr); [done|].
  destruct (find_pending_query st (ah_id hdr)) as [p|]; [|intros [= <-]; apply subtable_refl].
  destruct (heap st !! p) as [pq|] eqn:Hp; simpl; [|done].
  assert (Hsrv : (error_answer lib pq LDNS_RCODE_SERVFAIL
                  ≫= λ pq', send_answer (ans_hq e) p (store p pq' st)) = Ok st' ->
                 subtable st st').
  { destruct (error_answer lib pq LDNS_RCODE_SERVFAIL) as [pq'| | |] eqn:Hea; simpl; [|done..].
    apply error_answer_sets_abuf in Hea as [ab ->]. intros H.
    apply send_answer_subtable in H. eapply subtable_trans; [|exact H].
    by apply (subtable_store st p pq). }
  destruct (ah_srvfail hdr); [exact Hsrv|].
  match goal with |- (?f ≫= _) = _ -> _ => destruct f as [cd| | |] end; simpl; [|done..].
  destruct (ah_bogus hdr && negb cd); [exact Hsrv|].
  destruct (abuf pq) as [ab|]; simpl; [|done].
  match goal with |- (let '(_, _) := ?f in _) = _ -> _ => destruct f as [resized ab'] end.
  destruct resized; simpl; [|exact Hsrv].
  destruct (_ <? _)%nat; [done|].
  destruct (_ =? _)%nat.
  - match goal with |- (?f ≫= _) = _ -> _ => destruct f as [pq'| | |] eqn:Hno end;
      simpl; [|done..].
    apply noerror_answer_sets_abuf in Hno as [ab2 ->]. intros H.
    apply send_answer_subtable in H. eapply subtable_trans; [|exact H].
    by apply (subtable_store st p pq).
  - intros [= <-]. by apply (subtable_store st p pq).
Qed.
End TableSteps.

Lemma draw_imsg_id_frame (st st' : frontend) (draws : list Z) :
  heap st' = heap st -> pending_queries st' = pending_queries st ->
  draw_imsg_id st' draws = draw_imsg_id st draws.
Proof.
  intros Hh Hq. induction draws as [|d draws IH]; simpl; [done|].
  unfold find_pending_query. by rewrite Hh, Hq, IH.
Qed.

Lemma created_none (st st' : frontend) (draws : list Z) :
  subtable st st' -> created_with_drawn_id st draws st'.
Proof.
  intros [Hsub _] p Hp Hnp. exfalso. apply Hnp. by apply (sublist_subseteq _ _ Hsub).
Qed.

Lemma created_table (st st' : frontend) (p : loc) (pq0 : pending_query) (draws : list Z) :
  table_ok st -> heap st !! p = None ->
  draw_imsg_id st draws = Some (imsg_id pq0) ->
  subtable (TAILQ_INSERT_TAIL p (store p pq0 st)) st' ->
  table_ok st' /\ created_with_drawn_id st draws st'.
Proof.
  intros Hok Hfresh Hdraw Hsub.
  pose proof (draw_imsg_id_spec st draws) as Hspec. rewrite Hdraw in Hspec.
  destruct Hspec as [_ Hnone].
  split.
  - eapply table_ok_subtable; [|exact Hsub]. by apply table_ok_insert.
  - intros q Hq Hnq. destruct Hsub as [Hsub Hid].
    pose proof (sublist_subseteq _ _ Hsub q Hq) as Hq1. simpl in Hq1.
    apply elem_of_app in Hq1 as [Hq1|Hq1]; [done|].
    apply list_elem_of_singleton in Hq1 as ->.
    specialize (Hid p Hq). unfold id_of in Hid. simpl in Hid.
    rewrite lookup_insert_eq in Hid. simpl in Hid.
    destruct (heap st' !! p) as [pq|]; [|done]. simpl in Hid. injection Hid as Hid.
    exists pq. rewrite Hid. done.
Qed.

Lemma accept_reserve_frame (a : (Z * sockaddr_storage) + errno) (st : frontend) :
  heap (snd (accept_reserve a st)) = heap st
  /\ pending_queries (snd (accept_reserve a st)) = pending_queries st.
Proof.
  unfold accept_reserve. destruct (_ <=? _); [done|]. by destruct a as [[? ?]|].
Qed.

Section Reachable.
Variable lib : libunbound.

Lemma udp_receive_table (s : Z) (e : udp_env) (st st' : frontend) :
  table_ok st -> udp_receive lib s e st = Ok st' ->
  table_ok st' /\ created_with_drawn_id st (udp_draws e) st'.
Proof.
  intros Hok. unfold udp_receive.
  assert (Hsame : Ok st = Ok st' -> table_ok st' /\ created_with_drawn_id st (udp_draws e) st').
  { intros [= <-]. split; [done|]. apply created_none, subtable_refl. }
  destruct (recvmsg e) as [[datagram from]|]; [|exact Hsame].
  destruct (udp_calloc_ok e); simpl; [|exact Hsame].
  destruct (draw_imsg_id st (udp_draws e)) as [id|] eqn:Hdraw; [|done].
  set (pq0 := set_imsg_id pq_zero id).
  set (st1 := TAILQ_INSERT_TAIL (calloc st) (store (calloc st) pq0 st)).
  assert (Hp : heap st1 !! calloc st = Some pq0) by apply lookup_insert_eq.
  intros Hrun.
  apply (created_table st st' (calloc st) pq0); [done|apply calloc_fresh|done|].
  revert Hrun. destruct (negb _).
  - intros H. apply subtable_free in H. eapply subtable_trans; [|exact H].
    eapply subtable_store_frame; [exact Hp|reflexivity|reflexivity|done].
  - intros H. apply handle_query_subtable in H. eapply subtable_trans; [|exact H].
    eapply subtable_store_frame; [exact Hp|reflexivity|reflexivity|done].
Qed.

Lemma tcp_accept_table (l : listener) (e : tcp_env) (st st' : frontend) :
  table_ok st -> tcp_accept l e st = Ok st' ->
  table_ok st' /\ created_with_drawn_id st (tcp_draws e) st'.
Proof.
  intros Hok. unfold tcp_accept.
  destruct (accept_reserve_frame (accept4 e) st) as [Hh Hq].
  destruct (accept_reserve (accept4 e) st) as [r st2]. simpl in Hh, Hq.
  assert (H2 : subtable st st2) by (by apply subtable_frame).
  assert (Hframe : forall st3, heap st3 = heap st2 -> pending_queries st3 = pending_queries st2 ->
            Ok st3 = Ok st' -> table_ok st' /\ created_with_drawn_id st (tcp_draws e) st').
  { intros st3 Hh3 Hq3 [= <-].
    assert (H3 : subtable st st3).
    { eapply subtable_trans; [exact H2|]. by apply subtable_frame. }
    split; [by eapply table_ok_subtable|by apply created_none]. }
  destruct r as [[s ss]|[]];
    [| by apply Hframe | by apply Hframe | by apply Hframe
     | apply Hframe; by destruct l | apply Hframe; by destruct l | done].
  destruct (tcp_calloc_ok e); simpl; [|by apply Hframe].
  rewrite (draw_imsg_id_frame st st2) by done.
  destruct (draw_imsg_id st (tcp_draws e)) as [id|] eqn:Hdraw; [|done].
  assert (Hcalloc : calloc st2 = calloc st) by (unfold calloc; by rewrite Hh).
  rewrite Hcalloc.
  set (pq0 := set_imsg_id pq_zero id).
  set (st1 := TAILQ_INSERT_TAIL (calloc st) (store (calloc st) pq0 st2)).
  assert (Hp : heap st1 !! calloc st = Some pq0) by apply lookup_insert_eq.
  intros Hrun.
  apply (created_table st st' (calloc st) pq0); [done|apply calloc_fresh|done|].
  apply (subtable_trans _ st1).
  { apply subtable_frame; simpl; by rewrite ?Hh, ?Hq. }
  revert Hrun. destruct (negb _).
  - intros H. apply subtable_free in H. eapply subtable_trans; [|exact H].
    eapply subtable_store_frame; [exact Hp|reflexivity|reflexivity|done].
  - intros [= <-].
    eapply subtable_store_frame; [exact Hp|reflexivity|reflexivity|done].
Qed.

Lemma step_table_ok (st st' : frontend) :
  table_ok st -> step lib st st' -> table_ok st'.
Proof.
  intros Hok (cb & _ & Hrun). destruct cb; simpl in Hrun.
  - by apply udp_receive_table in Hrun as [? _].
  - by apply tcp_accept_table in Hrun as [? _].
  - injection Hrun as <-. eapply table_ok_subtable; [done|]. apply subtable_frame; by destruct l.
  - apply tcp_request_subtable in Hrun. by eapply table_ok_subtable.
  - apply tcp_response_subtable in Hrun. by eapply table_ok_subtable.
  - apply tcp_timeout_subtable in Hrun. by eapply table_ok_subtable.
  - apply frontend_dispatch_resolver_answer_subtable in Hrun. by eapply table_ok_subtable.
  - injection Hrun as <-. eapply table_ok_subtable; [done|]. by apply subtable_frame.
Qed.

Lemma initial_table_ok (st : frontend) : initial st -> table_ok st.
Proof.
  intros (Hq & Hh & _). unfold table_ok. rewrite Hq.
  split; [apply NoDup_nil_2|]. split.
  - intros p H. by apply elem_of_nil in H.
  - intros p q i H. by apply elem_of_nil in H.
Qed.

Lemma reachable_table_ok (st : frontend) : reachable lib st -> table_ok st.
Proof.
  intros (st0 & Hinit & Hsteps). apply initial_table_ok in Hinit.
  induction Hsteps as [|x y z Hxy _ IH]; [done|].
  apply IH. by apply (step_table_ok x).
Qed.

(** C6. In every state the event loop can reach, each pending query is
    allocated, [find_pending_query] on its id returns that very query, and no
    two pending queries carry the same id.  Both creation paths keep it so:
    a query that [udp_receive] or [tcp_accept] adds carries the id the
    drawing loop ended with, which is a draw that [find_pending_query] did
    not find in the table; and the loop does end as soon as such a draw
    comes. *)
Theorem pending_query_ids_unique (st : frontend) :
  reachable lib st ->
  (forall p, p ∈ pending_queries st ->
     exists pq, heap st !! p = Some pq /\ find_pending_query st (imsg_id pq) = Some p)
  /\ (forall p q pq1 pq2,
        p ∈ pending_queries st -> q ∈ pending_queries st ->
        heap st !! p = Some pq1 -> heap st !! q = Some pq2 ->
        imsg_id pq1 = imsg_id pq2 -> p = q)
  /\ (forall s e st', udp_receive lib s e st = Ok st' ->
        created_with_drawn_id st (udp_draws e) st')
  /\ (forall l e st', tcp_accept l e st = Ok st' ->
        created_with_drawn_id st (tcp_draws e) st')
  /\ (forall draws d, d ∈ draws -> find_pending_query st d = None ->
        exists id, draw_imsg_id st draws = Some id /\ find_pending_query st id = None).
Proof.
  intros Hreach. pose proof (reachable_table_ok st Hreach) as Hok.
  split; [|split; [|split; [|split]]].
  - intros p Hp. destruct Hok as (Hnd & Halloc & Huniq).
    destruct (Halloc p Hp) as [pq Hpq]. exists pq. split; [done|].
    by apply table_ok_find.
  - intros p q pq1 pq2 Hp Hq Hpq1 Hpq2 Hid. destruct Hok as (_ & _ & Huniq).
    apply (Huniq p q (imsg_id pq1)); [done|done| |]; unfold id_of.
    + by rewrite Hpq1.
    + rewrite Hpq2. simpl. by rewrite Hid.
  - intros s e st' Hrun. by apply udp_receive_table in Hrun as [_ ?].
  - intros l e st' Hrun. by apply tcp_accept_table in Hrun as [_ ?].
  - intros draws d. apply draw_imsg_id_terminates.
Qed.
End Reachable.

Lemma pending_query_ids_unique_witness :
  reachable ModelLib.lib after_first_datagram
  /\ exists pq,
       heap after_first_datagram !! 1%positive = Some pq
       /\ find_pending_query after_first_datagram (imsg_id pq) = Some 1%positive.
Proof.
  assert (H : reachable ModelLib.lib after_first_datagram).
  { exists just_started. split; [by repeat split|].
    apply rtc_once. exists (cb_udp_receive 5 first_datagram).
    split; [reflexivity|]. vm_compute. reflexivity. }
  split; [exact H|].
  destruct (pending_query_ids_unique ModelLib.lib _ H) as (Hfind & _).
  apply Hfind. vm_compute. apply list_elem_of_here.
Defined.

(** *** Accept backoff *)

Lemma quiet_refl (st : frontend) : quiet st st.
Proof. done. Qed.

Lemma quiet_trans (st1 st2 st3 : frontend) : quiet st1 st2 -> quiet st2 st3 -> quiet st1 st3.
Proof. intros (?&?&?) (?&?&?). unfold quiet. split; [|split]; congruence. Qed.

Lemma quiet_free (st st' : frontend) (p : option loc) :
  free_pending_query p st = Ok st' -> quiet st st'.
Proof.
  unfold free_pending_query. destruct p as [p|]; [|by intros [= <-]].
  destruct (heap st !! p) as [pq|]; simpl; [|done].
  intros [= <-].
  by destruct (tcp pq), (ev pq), (resp_ev pq), (tmo_ev pq), (fd pq =? -1).
Qed.

(** The clock and the accept events of a state built from [st] by stores,
    outputs and changes to the events of pending queries are those of [st]. *)
Local Ltac quiet_from H :=
  eapply quiet_trans; [|exact H]; done.

Section QuietSteps.
Variable lib : libunbound.

Lemma quiet_send_answer (e : hq_env) (p : loc) (st st' : frontend) :
  send_answer e p st = Ok st' -> quiet st st'.
Proof.
  unfold send_answer. destruct (heap st !! p) as [pq|]; simpl; [|done].
  destruct (abuf pq) as [ab|]; simpl; [|done].
  destruct (tcp pq); simpl.
  - destruct (tmp_ok e); simpl; [by intros [= <-]|apply quiet_free].
  - intros H. apply quiet_free in H. quiet_from H.
Qed.

Lemma quiet_handle_query (e : hq_env) (p : loc) (st st' : frontend) :
  handle_query lib e p st = Ok st' -> quiet st st'.
Proof.
  unfold handle_query. destruct (heap st !! p) as [pq|]; simpl; [|done].
  destruct (handle_query_exit lib (bl_head st) e pq) as [[|pq'|pq' o]| | |]; simpl; [| | |done..].
  - apply quiet_free.
  - intros H. apply quiet_send_answer in H. quiet_from H.
  - by intros [= <-].
Qed.

Lemma quiet_udp_receive (s : Z) (e : udp_env) (st st' : frontend) :
  udp_receive lib s e st = Ok st' -> quiet st st'.
Proof.
  unfold udp_receive.
  destruct (recvmsg e) as [[datagram from]|]; [|by intros [= <-]].
  destruct (udp_calloc_ok e); simpl; [|by intros [= <-]].
  destruct (draw_imsg_id st (udp_draws e)) as [id|]; [|done].
  destruct (negb _).
  - intros H. apply quiet_free in H. quiet_from H.
  - intros H. apply quiet_handle_query in H. quiet_from H.
Qed.

Lemma quiet_tcp_request (p : loc) (e : req_env) (st st' : frontend) :
  tcp_request lib p e st = Ok st' -> quiet st st'.
Proof.
  unfold tcp_request. destruct (heap st !! p) as [pq|]; simpl; [|done].
  destruct (qbuf pq) as [qb|]; simpl; [|done].
  destruct (read_result e) as [octets|[]]; try (by intros [= <-]); try apply quiet_free.
  destruct (_ =? 0)%nat; [apply quiet_free|].
  match goal with |- (?f ≫= _) = _ -> _ => destruct f as [[[pq2 qb2]|]| | |] end;
    simpl; [| apply quiet_free | done..].
  destruct (_ =? 0)%nat.
  - intros H. apply quiet_handle_query in H. quiet_from H.
  - by intros [= <-].
Qed.

Lemma quiet_tcp_response (p : loc) (w : nat + errno) (st st' : frontend) :
  tcp_response p w st = Ok st' -> quiet st st'.
Proof.
  unfold tcp_response. destruct (heap st !! p) as [pq|]; simpl; [|done].
  destruct (abuf pq) as [ab|]; simpl; [|done].
  destruct w as [n|[]]; try (by intros [= <-]);
    try (destruct (free_pending_query (Some p) st); simpl; done).
  destruct (_ =? 0)%nat.
  - intros H. apply quiet_free in H. quiet_from H.
  - by intros [= <-].
Qed.

Lemma quiet_answer (hdr : answer_header) (data : list Z) (e : answer_env)
    (st st' : frontend) :
  frontend_dispatch_resolver_answer lib hdr data e st = Ok st' -> quiet st st'.
Proof.
  unfold frontend_dispatch_resolver_answer.
  destruct (UINT16_MAX <? ah_answer_len hdr); [done|].
  destruct (find_pending_query st (ah_id hdr)) as [p|]; [|by intros [= <-]].
  destruct (heap st !! p) as [pq|]; simpl; [|done].
  assert (Hsrv : (error_answer lib pq LDNS_RCODE_SERVFAIL
                  ≫= λ pq', send_answer (ans_hq e) p (store p pq' st)) = Ok st' ->
                 quiet st st').
  { destruct (error_answer lib pq LDNS_RCODE_SERVFAIL) as [pq'| | |]; simpl; [|done..].
    intros H. apply quiet_send_answer in H. quiet_from H. }
  destruct (ah_srvfail hdr); [exact Hsrv|].
  match goal with |- (?f ≫= _) = _ -> _ => destruct f as [cd| | |] end; simpl; [|done..].
  destruct (ah_bogus hdr && negb cd); [exact Hsrv|].
  destruct (abuf pq) as [ab|]; simpl; [|done].
  match goal with |- (let '(_, _) := ?f in _) = _ -> _ => destruct f as [resized ab'] end.
  destruct resized; simpl; [|exact Hsrv].
  destruct (_ <? _)%nat; [done|].
  destruct (_ =? _)%nat.
  - match goal with |- (?f ≫= _) = _ -> _ => destruct f as [pq'| | |] end; simpl; [|done..].
    intros H. apply quiet_send_answer in H. quiet_from H.
  - by intros [= <-].
Qed.

(** [tcp_accept] on [l'] leaves the clock and the other listener alone. *)
Lemma tcp_accept_other (l l' : listener) (e : tcp_env) (st st' : frontend) :
  tcp_accept l' e st = Ok st' ->
  now st' = now st /\ (l <> l' -> tcpev st' l = tcpev st l).
Proof.
  unfold tcp_accept, accept_reserve.
  set (pause := {| accept_pending := false; pause_due := Some (now st + 1)%nat |}).
  assert (Hset : now (set_tcpev st l' pause) = now st
                 /\ (l <> l' -> tcpev (set_tcpev st l' pause) l = tcpev st l)).
  { by destruct l, l'. }
  destruct (_ <=? _); [by intros [= <-]|].
  destruct (accept4 e) as [[s ss]|[]]; try (by intros [= <-]).
  destruct (tcp_calloc_ok e); simpl; [|by intros [= <-]].
  destruct (draw_imsg_id _ _) as [id|]; [|done].
  destruct (negb _).
  - intros H. apply quiet_free in H as (Hn & H4 & H6). simpl in *.
    split; [done|]. intros _. by destruct l.
  - intros [= <-]. split; [done|]. intros _. by destruct l.
Qed.

Lemma step_backing_off (l : listener) (D : nat) (st st' : frontend) :
  backing_off l D st -> step lib st st' -> backing_off l D st'.
Proof.
  intros Hback (cb & Hen & Hrun).
  assert (Hquiet : quiet st st' -> backing_off l D st').
  { intros (Hn & H4 & H6). unfold backing_off in *. rewrite Hn.
    by destruct l; simpl in *; rewrite ?H4, ?H6. }
  destruct cb; simpl in Hrun, Hen.
  - by apply Hquiet, (quiet_udp_receive s e).
  - destruct (tcp_accept_other l l0 e st st' Hrun) as [Hn Hother].
    unfold backing_off in *. rewrite Hn.
    destruct (decide (l = l0)) as [<-|Hne].
    + destruct Hback as [[Hpend _]|Hdue]; [congruence|by right].
    + by rewrite (Hother Hne).
  - injection Hrun as <-. unfold backing_off, due in *.
    destruct (decide (l = l0)) as [<-|Hne].
    + right. destruct Hback as [[_ Hpause]|Hdue]; [|by destruct l].
      rewrite Hpause in Hen. apply Nat.leb_le in Hen. by destruct l.
    + by destruct l, l0.
  - by apply Hquiet, (quiet_tcp_request p e).
  - by apply Hquiet, (quiet_tcp_response p w).
  - apply Hquiet. unfold tcp_timeout in Hrun. apply quiet_free in Hrun. quiet_from Hrun.
  - by apply Hquiet, (quiet_answer hdr data e).
  - injection Hrun as <-. unfold backing_off in *. simpl.
    destruct Hback as [Hpaused|Hdue]; [left; by destruct l|right; lia].
Qed.

Lemma steps_backing_off (l : listener) (D : nat) (st st' : frontend) :
  backing_off l D st -> rtc (step lib) st st' -> backing_off l D st'.
Proof.
  intros Hback Hsteps. induction Hsteps as [|x y z Hxy _ IH]; [done|].
  apply IH. by apply (step_backing_off l D x).
Qed.

End QuietSteps.


(** *** The order of the trust-anchor list *)

Lemma strcmp_antisym (a b : cstring) : strcmp b a = - strcmp a b.
Proof.
  revert b. induction a as [|c a IH]; intros [|d b]; simpl; try lia.
  rewrite (Z.eqb_sym d c).
  destruct (Z.eqb_spec c d) as [->|Hne]; [|lia].
  destruct (d =? NUL); [done|apply IH].
Qed.

Lemma strcmp_trans (a b c : cstring) :
  strcmp a b < 0 -> strcmp b c < 0 -> strcmp a c < 0.
Proof.
  revert b c. induction a as [|x a IH]; intros [|y b] [|z c] H1 H2; simpl in *;
    unfold NUL in *;
    repeat match goal with
           | H : context [?u =? ?v] |- _ => destruct (Z.eqb_spec u v); subst
           | |- context [?u =? ?v] => destruct (Z.eqb_spec u v); subst
           end; try lia; eauto.
Qed.

Lemma ta_lt_irrefl (a : cstring) : ~ ta_lt a a.
Proof. unfold ta_lt. rewrite strcmp_refl. lia. Qed.

Lemma StronglySorted_ext {A : Type} (R : A -> A -> Prop) (l1 l2 : list A) :
  (forall x, ~ R x x) -> (forall x y z, R x y -> R y z -> R x z) ->
  StronglySorted R l1 -> StronglySorted R l2 -> (forall x, x ∈ l1 <-> x ∈ l2) -> l1 = l2.
Proof.
  intros Hirr Htr. revert l2.
  induction l1 as [|a l1 IH]; intros [|b l2] H1 H2 Heq.
  - done.
  - pose proof (proj2 (Heq b) (list_elem_of_here _ _)) as H. by apply elem_of_nil in H.
  - pose proof (proj1 (Heq a) (list_elem_of_here _ _)) as H. by apply elem_of_nil in H.
  - apply StronglySorted_inv in H1 as [H1 Ha]. apply StronglySorted_inv in H2 as [H2 Hb].
    rewrite Forall_forall in Ha, Hb.
    assert (a = b) as ->.
    { pose proof (proj1 (Heq a) (list_elem_of_here _ _)) as Hab.
      pose proof (proj2 (Heq b) (list_elem_of_here _ _)) as Hba.
      apply elem_of_cons in Hab as [->|Hab]; [done|].
      apply elem_of_cons in Hba as [->|Hba]; [done|].
      exfalso. apply (Hirr a). apply (Htr a b a); [by apply Ha|by apply Hb]. }
    f_equal. apply IH; [done|done|]. intros x. split; intros Hx.
    + pose proof (proj1 (Heq x) (list_elem_of_further _ _ _ Hx)) as Hx'.
      apply elem_of_cons in Hx' as [->|Hx']; [|done].
      exfalso. apply (Hirr b). by apply Ha.
    + pose proof (proj2 (Heq x) (list_elem_of_further _ _ _ Hx)) as Hx'.
      apply elem_of_cons in Hx' as [->|Hx']; [|done].
      exfalso. apply (Hirr b). by apply Hb.
Qed.

Lemma add_new_ta_elem (tah : trust_anchor_head) (v x : cstring) :
  x ∈ add_new_ta tah v -> x ∈ tah \/ x = strdup v.
Proof.
  induction tah as [|i rest IH]; simpl.
  - intros Hx. apply list_elem_of_singleton in Hx. by right.
  - destruct (strcmp i (strdup v) =? 0); [intros Hx; by left|].
    destruct (0 <? strcmp i (strdup v)).
    + intros Hx. apply elem_of_cons in Hx as [->|Hx]; [by right|by left].
    + intros Hx. apply elem_of_cons in Hx as [->|Hx]; [left; apply list_elem_of_here|].
      destruct (IH Hx) as [H|H]; [left; by apply list_elem_of_further|by right].
Qed.

Lemma add_new_ta_keeps (tah : trust_anchor_head) (v x : cstring) :
  x ∈ tah -> x ∈ add_new_ta tah v.
Proof.
  induction tah as [|i rest IH]; simpl; [intros H; by apply elem_of_nil in H|].
  destruct (strcmp i (strdup v) =? 0); [done|].
  destruct (0 <? strcmp i (strdup v)).
  - intros Hx. by apply list_elem_of_further.
  - intros Hx. apply elem_of_cons in Hx as [->|Hx];
      [apply list_elem_of_here|apply list_elem_of_further; by apply IH].
Qed.

Lemma add_new_ta_stores (tah : trust_anchor_head) (v : cstring) :
  Forall nul_free tah -> strdup v ∈ add_new_ta tah v.
Proof.
  induction tah as [|i rest IH]; simpl; intros Hnf.
  - apply list_elem_of_here.
  - apply Forall_cons_1 in Hnf as [Hi Hrest].
    destruct (Z.eqb_spec (strcmp i (strdup v)) 0) as [H0|Hn0].
    + apply strcmp_eq in H0; [|done|apply strdup_nul_free]. subst i. apply list_elem_of_here.
    + destruct (0 <? strcmp i (strdup v)); [apply list_elem_of_here|].
      apply list_elem_of_further. by apply IH.
Qed.

Lemma add_new_ta_sorted (tah : trust_anchor_head) (val : cstring) :
  StronglySorted ta_lt tah -> StronglySorted ta_lt (add_new_ta tah val).
Proof.
  intros Hs. induction Hs as [|i rest Hrest IH Hi]; simpl.
  - repeat constructor.
  - destruct (Z.eqb_spec (strcmp i (strdup val)) 0) as [H0|Hn0]; [by constructor|].
    destruct (Z.ltb_spec 0 (strcmp i (strdup val))) as [Hgt|Hle].
    + constructor; [by constructor|]. constructor.
      * unfold ta_lt. rewrite (strcmp_antisym i). lia.
      * eapply Forall_impl; [exact Hi|]. intros x Hx. unfold ta_lt in *.
        apply (strcmp_trans _ i); [rewrite (strcmp_antisym i); lia|done].
    + constructor; [done|]. apply Forall_forall. intros x Hx.
      apply add_new_ta_elem in Hx as [Hx| ->].
      * rewrite Forall_forall in Hi. by apply Hi.
      * unfold ta_lt. lia.
Qed.

(** X1. [add_new_ta] keeps the list in strictly ascending [strcmp] order:
    inserting into such a list gives such a list, which holds every old
    anchor, holds the new string when the old anchors are C strings, and
    holds nothing else. *)
Theorem add_new_ta_keeps_sorted (tah : trust_anchor_head) (val : cstring) :
  StronglySorted ta_lt tah ->
  StronglySorted ta_lt (add_new_ta tah val)
  /\ (forall x, x ∈ add_new_ta tah val -> x ∈ tah \/ x = strdup val)
  /\ (forall x, x ∈ tah -> x ∈ add_new_ta tah val)
  /\ (Forall nul_free tah -> strdup val ∈ add_new_ta tah val).
Proof.
  intros Hs. split; [by apply add_new_ta_sorted|]. split; [apply add_new_ta_elem|].
  split; [intros x; apply add_new_ta_keeps|apply add_new_ta_stores].
Qed.

Lemma add_new_ta_keeps_sorted_witness :
  StronglySorted ta_lt (add_new_ta [c_str "a"; c_str "c"] (c_str "b"))
  /\ add_new_ta [c_str "a"; c_str "c"] (c_str "b") = [c_str "a"; c_str "b"; c_str "c"].
Proof.
  split; [|reflexivity].
  apply (add_new_ta_keeps_sorted [c_str "a"; c_str "c"] (c_str "b")).
  repeat constructor.
Defined.

Lemma foldl_add_new_ta_sorted (l : list cstring) (acc : trust_anchor_head) :
  StronglySorted ta_lt acc -> StronglySorted ta_lt (foldl add_new_ta acc l).
Proof.
  revert acc. induction l as [|v l IH]; intros acc Hs; simpl; [done|].
  apply IH. by apply add_new_ta_sorted.
Qed.

Lemma foldl_add_new_ta_nul_free (l : list cstring) (acc : trust_anchor_head) :
  Forall nul_free acc -> Forall nul_free (foldl add_new_ta acc l).
Proof.
  revert acc. induction l as [|v l IH]; intros acc Hs; simpl; [done|].
  apply IH. by apply add_new_ta_nul_free.
Qed.

Lemma foldl_add_new_ta_elem (l : list cstring) (acc : trust_anchor_head) (x : cstring) :
  Forall nul_free acc ->
  x ∈ foldl add_new_ta acc l <-> x ∈ acc \/ x ∈ (strdup <$> l).
Proof.
  revert acc. induction l as [|v l IH]; intros acc Hnf; simpl.
  - split; [by left|]. intros [H|H]; [done|by apply elem_of_nil in H].
  - rewrite IH by (by apply add_new_ta_nul_free). rewrite elem_of_cons. split.
    + intros [H|H]; [|by right; right].
      apply add_new_ta_elem in H as [H| ->]; [by left|by right; left].
    + intros [H|[->|H]]; [left; by apply add_new_ta_keeps| |by right].
      left. by apply add_new_ta_stores.
Qed.

Lemma merge_tas_same (l : trust_anchor_head) :
  Forall nul_free l -> merge_tas l l = (false, [], l).
Proof.
  intros Hnf. pose proof (merge_tas_loop_spec l l Hnf Hnf) as H.
  unfold merge_tas, free_tas. destruct (merge_tas_loop l l) as [[] j]; [done|].
  assert (j = []) as ->; [|done].
  apply (f_equal length) in H. rewrite length_app in H.
  destruct j; [done|simpl in H; lia].
Qed.

(** X2. The list that repeated [add_new_ta] builds depends only on which
    strings are handed in, not on their order or on repetitions; so
    [merge_tas] of two lists built from the same strings reports no change
    and keeps the list. *)
Theorem trust_anchors_order_independent (l1 l2 : list cstring) :
  (forall x, x ∈ l1 <-> x ∈ l2) ->
  foldl add_new_ta [] l1 = foldl add_new_ta [] l2
  /\ merge_tas (foldl add_new_ta [] l1) (foldl add_new_ta [] l2)
     = (false, [], foldl add_new_ta [] l2).
Proof.
  intros Heq.
  assert (H : foldl add_new_ta [] l1 = foldl add_new_ta [] l2).
  { apply (StronglySorted_ext ta_lt).
    - apply ta_lt_irrefl.
    - intros x y z. apply strcmp_trans.
    - apply foldl_add_new_ta_sorted. constructor.
    - apply foldl_add_new_ta_sorted. constructor.
    - intros x. rewrite !foldl_add_new_ta_elem by constructor.
      rewrite !list_elem_of_fmap. split.
      + intros [H|(y & -> & Hy)]; [by left|]. right. exists y. split; [done|by apply Heq].
      + intros [H|(y & -> & Hy)]; [by left|]. right. exists y. split; [done|by apply Heq]. }
  split; [done|]. rewrite H. apply merge_tas_same.
  apply foldl_add_new_ta_nul_free. constructor.
Qed.

Lemma trust_anchors_order_independent_witness :
  foldl add_new_ta [] [c_str "B"; c_str "A"; c_str "B"] = foldl add_new_ta [] [c_str "A"; c_str "B"]
  /\ merge_tas (foldl add_new_ta [] [c_str "B"; c_str "A"; c_str "B"])
       (foldl add_new_ta [] [c_str "A"; c_str "B"])
     = (false, [], [c_str "A"; c_str "B"]).
Proof.
  apply (trust_anchors_order_independent [c_str "B"; c_str "A"; c_str "B"] [c_str "A"; c_str "B"]).
  intros x. rewrite !elem_of_cons. rewrite !elem_of_nil. tauto.
Defined.

(** *** The order of the blocklist tree *)

Lemma tolower_nul (c : Z) : (tolower c =? NUL) = (c =? NUL).
Proof.
  unfold tolower, NUL. destruct ((65 <=? c) && (c <=? 90)) eqn:Hup; [|done].
  apply andb_true_iff in Hup as [H1 H2].
  destruct (Z.eqb_spec (c + 32) 0), (Z.eqb_spec c 0); lia || done.
Qed.

Lemma strcasecmp_strcmp (a b : cstring) :
  strcasecmp a b = strcmp (tolower <$> a) (tolower <$> b).
Proof.
  revert b. induction a as [|c a IH]; intros [|d b]; simpl; try done.
  rewrite tolower_nul, IH. done.
Qed.

Lemma strcmp_zero_l (a b x : cstring) : strcmp a b = 0 -> strcmp a x = strcmp b x.
Proof.
  revert b x. induction a as [|c a IH]; intros [|d b] [|z x] H; simpl in *;
    unfold NUL in *;
    repeat match goal with
           | H : context [?u =? ?v] |- _ => destruct (Z.eqb_spec u v); subst
           | |- context [?u =? ?v] => destruct (Z.eqb_spec u v); subst
           end; try lia; eauto.
Qed.

Lemma bl_cmp_zero_l (a b x : cstring) : bl_cmp a b = 0 -> bl_cmp a x = bl_cmp b x.
Proof. unfold bl_cmp. rewrite !strcasecmp_strcmp. apply strcmp_zero_l. Qed.

Lemma bl_cmp_antisym (a b : cstring) : bl_cmp b a = - bl_cmp a b.
Proof. unfold bl_cmp. rewrite !strcasecmp_strcmp. apply strcmp_antisym. Qed.

Lemma bl_lt_trans (a b c : cstring) : bl_lt a b -> bl_lt b c -> bl_lt a c.
Proof. unfold bl_lt, bl_cmp. rewrite !strcasecmp_strcmp. apply strcmp_trans. Qed.

Lemma RB_FIND_cmp_zero (head : bl_tree) (a b : cstring) :
  bl_cmp a b = 0 -> RB_FIND head a = RB_FIND head b.
Proof.
  intros Hab. induction head as [|x head IH]; simpl; [done|].
  by rewrite (bl_cmp_zero_l a b x Hab), IH.
Qed.

(** X3. Lookups in the blocklist ignore case: a name that [strcasecmp]
    equates with the stored form of a line finds in every tree what that form
    finds, and so it is found after the reload of a file that has the
    line. *)
Theorem blocklist_lookup_ignores_case
    (content : list Z) (head : bl_tree) (body name : cstring) :
  body ++ [NEWLINE] ∈ getlines content -> body <> [] -> nul_free body ->
  strcasecmp name (fqdn body) = 0 ->
  (forall tree, RB_FIND tree name = RB_FIND tree (fqdn body))
  /\ is_Some (RB_FIND (parse_blocklist (Some content) head) name).
Proof.
  intros Hin Hne Hnf Hcmp.
  assert (Hsame : forall tree, RB_FIND tree name = RB_FIND tree (fqdn body)).
  { intros tree. by apply RB_FIND_cmp_zero. }
  split; [done|]. rewrite Hsame. unfold parse_blocklist, free_bl.
  destruct (blocklist_fold_stored (getlines content) [] _ Hin) as (e & He & Hc).
  rewrite blocklist_line_fqdn in Hc by done.
  destruct (RB_FIND_some _ _ _ He Hc) as (e' & -> & _). by eexists.
Qed.

Lemma blocklist_lookup_ignores_case_witness :
  is_Some (RB_FIND (parse_blocklist (Some blocklist_file) []) (c_str "ADS.example.")).
Proof.
  refine (proj2 (blocklist_lookup_ignores_case blocklist_file [] (c_str "Ads.Example")
                   (c_str "ADS.example.") _ _ _ _)).
  - vm_compute. apply list_elem_of_here.
  - discriminate.
  - vm_compute. repeat constructor; discriminate.
  - reflexivity.
Defined.

Lemma RB_INSERT_sorted (head : bl_tree) (elm : cstring) :
  StronglySorted bl_lt head -> StronglySorted bl_lt (snd (RB_INSERT head elm)).
Proof.
  induction 1 as [|x rest Hrest IH Hx]; simpl.
  - repeat constructor.
  - destruct (Z.eqb_spec (bl_cmp elm x) 0) as [H0|Hn0]; simpl; [by constructor|].
    destruct (Z.ltb_spec (bl_cmp elm x) 0) as [Hlt|Hge]; simpl.
    + constructor; [by constructor|]. constructor; [done|].
      eapply Forall_impl; [exact Hx|]. intros y Hy. by apply (bl_lt_trans _ x).
    + pose proof (RB_INSERT_spec rest elm) as (_ & Hfrom & _).
      destruct (RB_INSERT rest elm) as [r rest']. simpl in *.
      constructor; [done|]. apply Forall_forall. intros y Hy.
      destruct (Hfrom y Hy) as [Hin| ->].
      * rewrite Forall_forall in Hx. by apply Hx.
      * unfold bl_lt. rewrite (bl_cmp_antisym elm). lia.
Qed.

Lemma blocklist_fold_sorted (lines : list (list Z)) (head : bl_tree) :
  StronglySorted bl_lt head -> StronglySorted bl_lt (foldl blocklist_insert head lines).
Proof.
  revert head. induction lines as [|l lines IH]; intros head Hs; simpl; [done|].
  apply IH. by apply RB_INSERT_sorted.
Qed.

Lemma StronglySorted_lookup_lt {A : Type} (R : A -> A -> Prop) (l : list A)
    (i j : nat) (a b : A) :
  StronglySorted R l -> l !! i = Some a -> l !! j = Some b -> (i < j)%nat -> R a b.
Proof.
  intros Hs. revert i j. induction Hs as [|x l Hl IH Hx]; intros i j Hi Hj Hlt; [done|].
  destruct j as [|j]; [lia|]. simpl in Hj.
  destruct i as [|i]; simpl in Hi.
  - injection Hi as ->. rewrite Forall_forall in Hx. apply Hx.
    by apply list_elem_of_lookup_2 in Hj.
  - apply (IH i j); [done|done|lia].
Qed.

(** X4. After a reload the tree is strictly ascending in [bl_cmp], whatever
    the file holds: no two of its entries compare equal, so a line that
    repeats an earlier one up to case has been dropped. *)
Theorem parse_blocklist_sorted (content : list Z) (head : bl_tree) :
  StronglySorted bl_lt (parse_blocklist (Some content) head)
  /\ forall i j a b,
       parse_blocklist (Some content) head !! i = Some a ->
       parse_blocklist (Some content) head !! j = Some b ->
       bl_cmp a b = 0 -> i = j.
Proof.
  assert (Hs : StronglySorted bl_lt (parse_blocklist (Some content) head)).
  { unfold parse_blocklist, free_bl. apply blocklist_fold_sorted. constructor. }
  split; [done|]. intros i j a b Hi Hj Hcmp.
  destruct (Nat.lt_trichotomy i j) as [Hlt|[Heq|Hgt]]; [|done|].
  - pose proof (StronglySorted_lookup_lt _ _ _ _ _ _ Hs Hi Hj Hlt) as H.
    unfold bl_lt in H. lia.
  - pose proof (StronglySorted_lookup_lt _ _ _ _ _ _ Hs Hj Hi Hgt) as H.
    unfold bl_lt in H. rewrite (bl_cmp_antisym a) in H. lia.
Qed.

Lemma getlines_from_no_newline (cur body : list Z) :
  NEWLINE ∉ body -> body <> [] -> getlines_from cur body = [rev cur ++ body].
Proof.
  revert cur. induction body as [|c body IH]; intros cur Hnl Hne; [done|]. simpl.
  destruct (Z.eqb_spec c NEWLINE) as [->|Hc]; [exfalso; apply Hnl; apply list_elem_of_here|].
  destruct body as [|d body].
  - reflexivity.
  - rewrite IH; [|intros H; apply Hnl; by apply list_elem_of_further|done].
    simpl. by rewrite <- app_assoc.
Qed.

Lemma strcasecmp_snoc_dot (l : cstring) : nul_free l -> strcasecmp (l ++ [DOT]) l <> 0.
Proof.
  induction 1 as [|c l Hc Hl IH]; simpl; [done|].
  rewrite Z.eqb_refl. by destruct (Z.eqb_spec c NUL).
Qed.

Lemma blocklist_line_unterminated (l : list Z) :
  last l <> Some NEWLINE -> blocklist_line l = l.
Proof.
  intros Hl. unfold blocklist_line, wire.
  destruct (Z.eqb_spec (nth (length l - 1) l 0) NEWLINE) as [Heq|]; [|done].
  exfalso. apply Hl. rewrite last_lookup.
  replace (pred (length l)) with (length l - 1)%nat by lia.
  destruct (l !! (length l - 1)%nat) as [c|] eqn:Hc.
  - rewrite (nth_lookup_Some _ _ _ _ Hc) in Heq. by subst.
  - rewrite nth_lookup, Hc in Heq. done.
Qed.

Lemma strdup_id (s : cstring) : nul_free s -> strdup s = s.
Proof.
  induction 1 as [|c s Hc Hs IH]; simpl; [done|].
  destruct (Z.eqb_spec c NUL); [done|]. by rewrite IH.
Qed.

(** X5. A file that consists of one line without a newline at its end, and
    without a dot there, is stored as it stands: the tree holds that one
    string, no dot is appended, and the lookup of its FQDN form finds
    nothing. *)
Theorem parse_blocklist_unterminated_line (l : cstring) (head : bl_tree) :
  l <> [] -> nul_free l -> NEWLINE ∉ l -> last l <> Some DOT ->
  parse_blocklist (Some l) head = [l]
  /\ RB_FIND (parse_blocklist (Some l) head) l = Some l
  /\ RB_FIND (parse_blocklist (Some l) head) (fqdn l) = None.
Proof.
  intros Hne Hnf Hnl Hdot.
  assert (Hp : parse_blocklist (Some l) head = [l]).
  { unfold parse_blocklist, free_bl, getlines.
    rewrite getlines_from_no_newline by done. simpl. unfold blocklist_insert.
    rewrite blocklist_line_unterminated, strdup_id; [done|done|].
    intros Hlast. apply Hnl. apply last_Some in Hlast as (l' & ->).
    apply elem_of_app. right. apply list_elem_of_here. }
  rewrite Hp. simpl. unfold bl_cmp. rewrite strcasecmp_refl. simpl.
  split; [done|]. split; [done|].
  assert (fqdn l = l ++ [DOT]) as ->.
  { unfold fqdn. destruct (last l) as [c|]; [|done].
    destruct (Z.eqb_spec c DOT) as [->|]; done. }
  destruct (Z.eqb_spec (strcasecmp (l ++ [DOT]) l) 0) as [H0|]; [|done].
  by apply strcasecmp_snoc_dot in H0.
Qed.

Lemma parse_blocklist_unterminated_line_witness :
  parse_blocklist (Some (c_str "example.com")) [] = [c_str "example.com"]
  /\ RB_FIND (parse_blocklist (Some (c_str "example.com")) []) (c_str "example.com")
     = Some (c_str "example.com")
  /\ RB_FIND (parse_blocklist (Some (c_str "example.com")) []) (fqdn (c_str "example.com"))
     = None.
Proof.
  apply (parse_blocklist_unterminated_line (c_str "example.com") []).
  - discriminate.
  - vm_compute. repeat constructor; discriminate.
  - vm_compute. intros H. repeat (apply elem_of_cons in H as [H|H]; [discriminate|]).
    by apply elem_of_nil in H.
  - vm_compute. discriminate.
Defined.

(** *** The trust-anchor file *)

Lemma ta_lines_cons (ta : cstring) (rest : trust_anchor_head) :
  ta_lines (ta :: rest) = (strdup ta ++ [NEWLINE]) ++ ta_lines rest.
Proof. reflexivity. Qed.

Lemma write_trust_anchors_loop_spec (e : wta_env) (tah : trust_anchor_head)
    (i0 : nat) (f : file) (len : nat) :
  f_offset f = len -> (len <= length (f_octets f))%nat ->
  (wta_ok_from e i0 tah
   /\ let '(f', len') := write_trust_anchors_loop e i0 tah f len in
      len' = (len + length (ta_lines tah))%nat /\ f_offset f' = len'
      /\ (len' <= length (f_octets f'))%nat
      /\ take len' (f_octets f') = take len (f_octets f) ++ ta_lines tah)
  \/ (~ wta_ok_from e i0 tah /\ snd (write_trust_anchors_loop e i0 tah f len) = 0%nat).
Proof.
  revert i0 f len. induction tah as [|ta rest IH]; intros i0 f len Hoff Hlen.
  - left. split; [intros i ta H; done|]. simpl. change (ta_lines []) with (@nil Z).
    rewrite app_nil_r. simpl. repeat split; [lia|done|done].
  - simpl. destruct (asprintf_ok e i0) eqn:Hasp; simpl.
    2: { right. split; [|done]. intros Hok.
         destruct (Hok 0%nat ta eq_refl) as [H _]. rewrite Nat.add_0_r in H. congruence. }
    destruct (write_result e i0) as [k|] eqn:Hw.
    2: { right. split; [|done]. intros Hok.
         destruct (Hok 0%nat ta eq_refl) as [_ (k & H & _)]. rewrite Nat.add_0_r in H.
         congruence. }
    rewrite length_app. simpl length.
    destruct (Nat.eqb_spec (Nat.min k (length (strdup ta) + 1)) (length (strdup ta) + 1))
      as [Hk|Hk].
    2: { right. split; [|done]. intros Hok.
         destruct (Hok 0%nat ta eq_refl) as [_ (k' & H & Hle)]. rewrite Nat.add_0_r in H.
         assert (k' = k) by congruence. subst. lia. }
    rewrite Hk.
    assert (Htake : take (length (strdup ta) + 1) (strdup ta ++ [NEWLINE])
                    = strdup ta ++ [NEWLINE]).
    { apply take_ge. rewrite length_app. simpl. lia. }
    rewrite Htake.
    set (f1 := write f (strdup ta ++ [NEWLINE])).
    assert (Hf1 : f_octets f1 = take len (f_octets f) ++ (strdup ta ++ [NEWLINE])
                                ++ drop (len + (length (strdup ta) + 1)) (f_octets f)).
    { unfold f1, write. simpl. rewrite Hoff.
      replace (len - length (f_octets f))%nat with 0%nat by lia.
      simpl. rewrite app_nil_r, length_app. done. }
    assert (Hoff1 : f_offset f1 = (len + (length (strdup ta) + 1))%nat).
    { unfold f1, write. simpl. rewrite Hoff, length_app. done. }
    assert (Hlen1 : (len + (length (strdup ta) + 1) <= length (f_octets f1))%nat).
    { rewrite Hf1, !length_app, length_take. simpl. lia. }
    destruct (IH (S i0) f1 _ Hoff1 Hlen1) as [[Hok H]|[Hnok H]].
    + left. split.
      * intros [|i] ta' Hi.
        -- injection Hi as <-. rewrite Nat.add_0_r. split; [done|].
           exists k. split; [done|lia].
        -- replace (i0 + S i)%nat with (S i0 + i)%nat by lia. by apply Hok.
      * destruct (write_trust_anchors_loop e (S i0) rest f1 _) as [f' len'].
        destruct H as (-> & Hoff' & Hlen' & Htk).
        rewrite ta_lines_cons, !length_app. simpl length.
        split; [lia|]. split; [rewrite Hoff'; lia|]. split; [lia|].
        replace (len + (length (strdup ta) + 1 + length (ta_lines rest)))%nat
          with (len + (length (strdup ta) + 1) + length (ta_lines rest))%nat by lia.
        rewrite Htk, Hf1.
        rewrite app_assoc.
        rewrite take_app_length'.
        2: { rewrite !length_app, length_take. simpl. lia. }
        by rewrite <- !app_assoc.
    + right. split; [|done]. intros Hok. apply Hnok.
      intros i ta' Hi. replace (S i0 + i)%nat with (i0 + S i)%nat by lia. by apply Hok.
Qed.

(** X6. [write_trust_anchors] writes all or nothing: when [ftruncate]
    succeeds, the file afterwards holds exactly the anchors, one per line, if
    the seek and every [asprintf] and [write] succeeded, and is empty if one
    of them failed, whatever it held before. *)
Theorem write_trust_anchors_all_or_nothing
    (e : wta_env) (tah : trust_anchor_head) (f : file) :
  ftruncate_ok e = true ->
  (wta_succeeds e tah -> f_octets (write_trust_anchors e tah f) = ta_lines tah)
  /\ (~ wta_succeeds e tah -> f_octets (write_trust_anchors e tah f) = []).
Proof.
  intros Hft. unfold write_trust_anchors, wta_succeeds. rewrite Hft.
  destruct (lseek_ok e) eqn:Hseek; simpl.
  2: { split; [intros [H _]; done|done]. }
  destruct (write_trust_anchors_loop_spec e tah 0 (lseek f 0) 0 eq_refl ltac:(simpl; lia))
    as [[Hok H]|[Hnok H]].
  - destruct (write_trust_anchors_loop e 0 tah (lseek f 0) 0) as [f' len'].
    destruct H as (Hlen' & _ & Hle & Htk). simpl in *. split.
    + intros _. unfold resize. rewrite Htk.
      replace (len' - length (f_octets f'))%nat with 0%nat by lia.
      simpl. by rewrite app_nil_r.
    + intros Hn. exfalso. apply Hn. split; [done|]. exact Hok.
  - destruct (write_trust_anchors_loop e 0 tah (lseek f 0) 0) as [f' len'].
    simpl in H. subst len'. split.
    + intros [_ Hok]. exfalso. by apply Hnok.
    + intros _. reflexivity.
Qed.

Lemma write_trust_anchors_all_or_nothing_witness :
  f_octets (write_trust_anchors wta_all_ok two_anchors old_file) = ta_lines two_anchors
  /\ f_octets (write_trust_anchors wta_disk_full two_anchors old_file) = [].
Proof.
  split.
  - apply (write_trust_anchors_all_or_nothing wta_all_ok two_anchors old_file); [reflexivity|].
    split; [reflexivity|]. intros i ta Hi. split; [reflexivity|].
    exists 4096%nat. split; [reflexivity|].
    destruct i as [|[|i]]; [injection Hi as <-; vm_compute; lia
                           |injection Hi as <-; vm_compute; lia|done].
  - apply (write_trust_anchors_all_or_nothing wta_disk_full two_anchors old_file); [reflexivity|].
    intros [_ H]. destruct (H 1%nat _ eq_refl) as [_ (k & Hk & Hle)].
    injection Hk as <-. vm_compute in Hle. lia.
Defined.

Lemma write_trust_anchors_success (e : wta_env) (tah : trust_anchor_head) (f : file) :
  ftruncate_ok e = true -> wta_succeeds e tah ->
  f_octets (write_trust_anchors e tah f) = ta_lines tah.
Proof.
  intros Hft [Hseek Hok]. unfold write_trust_anchors. rewrite Hft, Hseek. simpl.
  destruct (write_trust_anchors_loop_spec e tah 0 (lseek f 0) 0 eq_refl ltac:(simpl; lia))
    as [[_ H]|[Hnok _]]; [|by destruct Hnok].
  destruct (write_trust_anchors_loop e 0 tah (lseek f 0) 0) as [f' len'].
  destruct H as (Hlen' & _ & Hle & Htk). simpl in *. unfold resize. rewrite Htk.
  replace (len' - length (f_octets f'))%nat with 0%nat by lia.
  simpl. by rewrite app_nil_r.
Qed.

Lemma strsep_newline_line (cur ta rest : list Z) :
  nul_free ta -> NEWLINE ∉ ta ->
  strsep_newline cur (ta ++ NEWLINE :: rest) = (rev cur ++ ta) :: strsep_newline [] rest.
Proof.
  intros Hnf. revert cur. induction Hnf as [|c ta Hc Hta IH]; intros cur Hnl; simpl.
  - rewrite app_nil_r. done.
  - destruct (Z.eqb_spec c NUL); [done|].
    destruct (Z.eqb_spec c NEWLINE) as [->|_]; [exfalso; apply Hnl; apply list_elem_of_here|].
    rewrite IH by (intros H; apply Hnl; by apply list_elem_of_further).
    simpl. by rewrite <- app_assoc.
Qed.

Lemma strsep_newline_ta_lines (tah : trust_anchor_head) :
  Forall nul_free tah -> Forall (fun ta => NEWLINE ∉ ta) tah ->
  strsep_newline [] (ta_lines tah) = tah ++ [[]].
Proof.
  induction tah as [|ta tah IH]; intros Hnf Hnl; [done|].
  apply Forall_cons_1 in Hnf as [Hta Hnf]. apply Forall_cons_1 in Hnl as [Hnta Hnl].
  rewrite ta_lines_cons, strdup_id by done.
  rewrite <- app_assoc. simpl. rewrite strsep_newline_line by done.
  simpl. by rewrite IH.
Qed.

Lemma parse_trust_anchor_lines_dnskeys (sldns : libsldns) (lines : list cstring)
    (len : nat) (tah : trust_anchor_head) :
  reads_as_dnskeys sldns len lines ->
  parse_trust_anchor_lines sldns (lines ++ [[]]) len tah = foldl add_new_ta tah lines.
Proof.
  revert len tah. induction lines as [|line lines IH]; intros len tah H; simpl in *.
  - destruct (sldns_str2wire_rr_buf sldns [] len) as [[[status rr] len'] dl].
    destruct (Z.eqb_spec status 0) as [->|]; [|done]. simpl.
    destruct (Z.eqb_spec (sldns_wirerr_get_type sldns rr len' dl) LDNS_RR_TYPE_DNSKEY); [|done].
    by destruct H.
  - destruct (sldns_str2wire_rr_buf sldns line len) as [[[status rr] len'] dl].
    destruct H as (-> & Ht & H). rewrite Ht. simpl. rewrite ?Z.eqb_refl. by apply IH.
Qed.

Lemma add_new_ta_last (tah : trust_anchor_head) (v : cstring) :
  Forall (fun i => ta_lt i v) tah -> nul_free v -> add_new_ta tah v = tah ++ [v].
Proof.
  intros Hlt Hv.
  induction Hlt as [|i tah Hi Htah IH]; simpl; rewrite (strdup_id v Hv); [done|].
  unfold ta_lt in Hi.
  destruct (Z.eqb_spec (strcmp i v) 0); [lia|].
  destruct (Z.ltb_spec 0 (strcmp i v)); [lia|]. by rewrite IH.
Qed.

Lemma StronglySorted_app_lt {A : Type} (R : A -> A -> Prop) (l1 l2 : list A) (v : A) :
  StronglySorted R (l1 ++ v :: l2) -> Forall (fun i => R i v) l1.
Proof.
  induction l1 as [|a l1 IH]; simpl; intros Hs; [constructor|].
  apply StronglySorted_inv in Hs as [Hs Ha]. constructor; [|by apply IH].
  rewrite Forall_forall in Ha. apply Ha. apply elem_of_app. right. apply list_elem_of_here.
Qed.

Lemma foldl_add_new_ta_sorted_id (l acc : trust_anchor_head) :
  StronglySorted ta_lt (acc ++ l) -> Forall nul_free l -> foldl add_new_ta acc l = acc ++ l.
Proof.
  revert acc. induction l as [|v l IH]; intros acc Hs Hnf; simpl; [by rewrite app_nil_r|].
  apply Forall_cons_1 in Hnf as [Hv Hnf].
  rewrite add_new_ta_last; [|by apply StronglySorted_app_lt in Hs|done].
  rewrite IH; [by rewrite <- app_assoc| |done]. by rewrite <- app_assoc.
Qed.

(** X7. What [write_trust_anchors] writes, [parse_trust_anchor] reads back:
    for a strictly ascending list of anchors without NUL and newline, each of
    which the record parser takes for a DNSKEY record, parsing the written
    file into an empty list gives the list again. *)
Theorem trust_anchor_file_round_trip
    (sldns : libsldns) (e : wta_env) (tah : trust_anchor_head) (f : file) :
  StronglySorted ta_lt tah -> Forall nul_free tah -> Forall (fun ta => NEWLINE ∉ ta) tah ->
  ftruncate_ok e = true -> wta_succeeds e tah ->
  reads_as_dnskeys sldns LDNS_RR_BUF_SIZE tah ->
  parse_trust_anchor sldns [] (Some (f_octets (write_trust_anchors e tah f))) = tah.
Proof.
  intros Hs Hnf Hnl Hft Hok Hlib. unfold parse_trust_anchor.
  rewrite write_trust_anchors_success by done.
  rewrite strsep_newline_ta_lines by done.
  rewrite parse_trust_anchor_lines_dnskeys by done.
  by apply foldl_add_new_ta_sorted_id.
Qed.

Lemma trust_anchor_file_round_trip_witness :
  parse_trust_anchor sldns_sample []
    (Some (f_octets (write_trust_anchors wta_all_ok two_anchors old_file))) = two_anchors.
Proof.
  apply trust_anchor_file_round_trip.
  - repeat constructor.
  - vm_compute. repeat constructor; discriminate.
  - repeat constructor; vm_compute; intros H;
      repeat (apply elem_of_cons in H as [H|H]; [discriminate|]); by apply elem_of_nil in H.
  - reflexivity.
  - split; [reflexivity|]. intros i ta Hi. split; [reflexivity|].
    exists 4096%nat. split; [reflexivity|].
    destruct i as [|[|i]]; [injection Hi as <-; vm_compute; lia
                           |injection Hi as <-; vm_compute; lia|done].
  - vm_compute. repeat split; try reflexivity. left. discriminate.
Defined.

(** *** The trust-anchor messages *)

Lemma strdup_nul_tail (x y : list Z) : strdup (x ++ NUL :: y) = strdup x.
Proof.
  induction x as [|c x IH]; simpl; [done|].
  destruct (c =? NUL); [done|]. by rewrite IH.
Qed.

Lemma strdup_terminated (d : list Z) :
  d <> [] -> strdup (<[(length d - 1)%nat := NUL]> d) = strdup (chop d).
Proof.
  intros Hd. unfold chop.
  destruct (exists_last Hd) as (x & c & ->).
  rewrite length_app. simpl length.
  replace (length x + 1 - 1)%nat with (length x + 0)%nat by lia.
  rewrite insert_app_r. simpl. rewrite strdup_nul_tail.
  rewrite Nat.add_0_r, take_app_length. done.
Qed.

Lemma add_new_ta_strdup (tah : trust_anchor_head) (v v' : cstring) :
  strdup v = strdup v' -> add_new_ta tah v = add_new_ta tah v'.
Proof.
  intros Hv. induction tah as [|i tah IH]; simpl; rewrite Hv; [done|]. by rewrite IH.
Qed.

Lemma merge_tas_result (newh oldh : trust_anchor_head) :
  Forall nul_free newh -> Forall nul_free oldh ->
  merge_tas newh oldh = (negb (bool_decide (newh = oldh)), [], newh).
Proof.
  intros Hn Ho. pose proof (merge_tas_loop_spec newh oldh Hn Ho) as H.
  unfold merge_tas, free_tas. destruct (merge_tas_loop newh oldh) as [[] j]; simpl.
  - rewrite bool_decide_eq_false_2 by done. by destruct j.
  - destruct j as [|x j]; simpl.
    + rewrite app_nil_r in H. subst. by rewrite bool_decide_eq_true_2.
    + rewrite bool_decide_eq_false_2; [done|]. intros ->.
      apply (f_equal length) in H. rewrite length_app in H. simpl in H. lia.
Qed.

Lemma frontend_dispatch_resolver_new_tas (payloads : list (list Z)) (rest : list imsg_ta)
    (e : wta_env) (s : ta_store) :
  Forall (fun d => d <> []) payloads ->
  frontend_dispatch_resolver_tas ((IMSG_NEW_TA <$> payloads) ++ rest) e s
  = frontend_dispatch_resolver_tas rest e
      {| trust_anchors := trust_anchors s;
         new_trust_anchors := foldl add_new_ta (new_trust_anchors s) (chop <$> payloads);
         ta_fd := ta_fd s; to_resolver := to_resolver s |}.
Proof.
  intros Hne. revert s. induction Hne as [|d payloads Hd Hne IH]; intros s; simpl.
  - by destruct s.
  - destruct d as [|c d]; [done|]. simpl. rewrite IH. simpl. do 2 f_equal.
    f_equal. apply add_new_ta_strdup.
    by rewrite <- (strdup_terminated (c :: d)).
Qed.

(** X8. An update round of the resolver: after IMSG_NEW_TA messages with
    non-empty payloads and a closing IMSG_NEW_TAS_DONE, the current list is
    the sorted list of the payloads (each without its last octet), the new
    list is empty again, the file, if there is one, has been rewritten from
    the current list, and the anchors have been sent back to the resolver
    exactly when the list changed. *)
Theorem trust_anchor_update_round (payloads : list (list Z)) (e : wta_env) (s : ta_store) :
  Forall (fun d => d <> []) payloads ->
  new_trust_anchors s = [] -> Forall nul_free (trust_anchors s) ->
  frontend_dispatch_resolver_tas ((IMSG_NEW_TA <$> payloads) ++ [IMSG_NEW_TAS_DONE]) e s
  = Ok {| trust_anchors := foldl add_new_ta [] (chop <$> payloads);
          new_trust_anchors := [];
          ta_fd := write_trust_anchors e (foldl add_new_ta [] (chop <$> payloads)) <$> ta_fd s;
          to_resolver :=
            if bool_decide (foldl add_new_ta [] (chop <$> payloads) = trust_anchors s)
            then to_resolver s
            else to_resolver s
                 ++ send_trust_anchors (foldl add_new_ta [] (chop <$> payloads)) |}.
Proof.
  intros Hne Hnew Hold. rewrite frontend_dispatch_resolver_new_tas by done.
  rewrite Hnew. simpl.
  rewrite merge_tas_result; [|apply foldl_add_new_ta_nul_free; constructor|done].
  simpl. by destruct (bool_decide _).
Qed.

Lemma trust_anchor_update_round_witness :
  frontend_dispatch_resolver_tas
    [IMSG_NEW_TA (c_str "B" ++ [NUL]); IMSG_NEW_TA (c_str "A" ++ [NUL]); IMSG_NEW_TAS_DONE]
    wta_all_ok
    {| trust_anchors := [c_str "A"]; new_trust_anchors := [];
       ta_fd := Some old_file; to_resolver := [] |}
  = Ok {| trust_anchors := [c_str "A"; c_str "B"]; new_trust_anchors := [];
          ta_fd := Some (mk_file (c_str "A" ++ [NEWLINE] ++ c_str "B" ++ [NEWLINE]) 4);
          to_resolver := [IMSG_NEW_TA (c_str "A" ++ [NUL]); IMSG_NEW_TA (c_str "B" ++ [NUL]);
                          IMSG_NEW_TAS_DONE] |}.
Proof.
  exact (trust_anchor_update_round [c_str "B" ++ [NUL]; c_str "A" ++ [NUL]] wta_all_ok
           {| trust_anchors := [c_str "A"]; new_trust_anchors := [];
              ta_fd := Some old_file; to_resolver := [] |}
           ltac:(repeat constructor; discriminate) eq_refl
           ltac:(vm_compute; repeat constructor; discriminate)).
Defined.



(** *** Answers in chunks *)

Lemma store_store (p : loc) (pq1 pq2 : pending_query) (st : frontend) :
  store p pq2 (store p pq1 st) = store p pq2 st.
Proof. unfold store, set_heap. simpl. by rewrite insert_insert_eq. Qed.

Lemma find_pending_query_in_store (h : gmap loc pending_query) (q : list loc) (id : Z)
    (p : loc) (pq pq' : pending_query) :
  h !! p = Some pq -> imsg_id pq' = imsg_id pq ->
  find_pending_query_in (<[p := pq']> h) q id = find_pending_query_in h q id.
Proof.
  intros Hp Hid. induction q as [|x q IH]; simpl; [done|].
  destruct (decide (x = p)) as [->|Hne].
  - rewrite lookup_insert_eq, Hp, Hid. by rewrite IH.
  - rewrite lookup_insert_ne by done. by rewrite IH.
Qed.

Lemma write_at_app (d d1 d2 : list Z) :
  write_at (write_at d 0 d1) (length d1) d2 = write_at d 0 (d1 ++ d2).
Proof.
  unfold write_at. rewrite !take_0. simpl.
  rewrite take_app_length. rewrite <- app_assoc. do 2 f_equal.
  rewrite drop_app_add, drop_drop, length_app. done.
Qed.

Section Chunks.
Variable lib : libunbound.

(** An IMSG_ANSWER chunk that is neither marked [srvfail] nor [bogus], for a
    query that is found, when the reallocation succeeds. *)
Lemma frontend_dispatch_resolver_answer_chunk
    (hdr : answer_header) (data : list Z) (e : answer_env) (st : frontend)
    (p : loc) (pq : pending_query) (ab : sldns_buffer) :
  ah_answer_len hdr <= UINT16_MAX ->
  find_pending_query st (ah_id hdr) = Some p -> heap st !! p = Some pq ->
  abuf pq = Some ab -> ah_srvfail hdr = false -> ah_bogus hdr = false ->
  ans_realloc_ok e = true ->
  frontend_dispatch_resolver_answer lib hdr data e st =
    let ab1 :=
      if (sldns_buffer_position ab =? 0)%nat
      then mk_buffer (resize (_data ab) (Z.to_nat (ah_answer_len hdr))) (_position ab)
             (Z.to_nat (ah_answer_len hdr)) (Z.to_nat (ah_answer_len hdr))
      else ab in
    if (sldns_buffer_capacity ab1 <? sldns_buffer_position ab1 + length data)%nat
    then Fatal
    else
      let ab2 := sldns_buffer_write ab1 data in
      if (sldns_buffer_position ab2 =? sldns_buffer_capacity ab2)%nat then
        pq' ← noerror_answer lib (set_abuf pq (Some (sldns_buffer_flip ab2)));
        send_answer (ans_hq e) p (store p pq' st)
      else Ok (store p (set_abuf pq (Some ab2)) st).
Proof.
  intros Hlen Hfind Hp Hab Hsrv Hbogus Hre.
  unfold frontend_dispatch_resolver_answer.
  destruct (Z.ltb_spec UINT16_MAX (ah_answer_len hdr)) as [Hbig|_]; [lia|].
  rewrite Hfind, Hp. simpl. rewrite Hsrv, Hbogus. simpl. rewrite Hab. simpl.
  unfold sldns_buffer_set_capacity. rewrite Hre.
  by destruct (sldns_buffer_position ab =? 0)%nat.
Qed.

(** X10. Splitting an answer over IMSG_ANSWER chunks is transparent: for a
    pending query whose answer buffer is still at position 0, handling a
    non-empty chunk that does not complete the answer and then a second
    chunk gives what handling the two as one chunk gives. *)
Theorem answer_chunks_compose
    (hdr : answer_header) (d1 d2 : list Z) (e : answer_env) (st : frontend)
    (p : loc) (pq : pending_query) (ab : sldns_buffer) :
  ah_answer_len hdr <= UINT16_MAX ->
  find_pending_query st (ah_id hdr) = Some p -> heap st !! p = Some pq ->
  abuf pq = Some ab -> sldns_buffer_position ab = 0%nat ->
  ah_srvfail hdr = false -> ah_bogus hdr = false -> ans_realloc_ok e = true ->
  d1 <> [] -> (length d1 < Z.to_nat (ah_answer_len hdr))%nat ->
  (st1 ← frontend_dispatch_resolver_answer lib hdr d1 e st;
   frontend_dispatch_resolver_answer lib hdr d2 e st1)
  = frontend_dispatch_resolver_answer lib hdr (d1 ++ d2) e st.
Proof.
  intros Hlen Hfind Hp Hab Hpos Hsrv Hbogus Hre Hd1 Hlt.
  assert (Hl1 : (0 < length d1)%nat) by (destruct d1; [done|simpl; lia]).
  rewrite (frontend_dispatch_resolver_answer_chunk hdr d1 e st p pq ab) by done.
  rewrite (frontend_dispatch_resolver_answer_chunk hdr (d1 ++ d2) e st p pq ab) by done.
  rewrite Hpos. simpl. unfold sldns_buffer_position in Hpos. rewrite Hpos. simpl.
  destruct (Nat.ltb_spec (Z.to_nat (ah_answer_len hdr)) (length d1)) as [|_]; [lia|].
  destruct (Nat.eqb_spec (length d1) (Z.to_nat (ah_answer_len hdr))) as [|_]; [lia|].
  simpl.
  set (ab1 := sldns_buffer_write _ d1).
  rewrite (frontend_dispatch_resolver_answer_chunk hdr d2 e
             (store p (set_abuf pq (Some ab1)) st) p (set_abuf pq (Some ab1)) ab1);
    [|done| |apply lookup_insert_eq|done|done|done|done].
  2: { unfold find_pending_query, store. simpl.
       by rewrite (find_pending_query_in_store _ _ _ p pq). }
  subst ab1. unfold sldns_buffer_write. simpl.
  destruct (Nat.eqb_spec (length d1) 0) as [|_]; [lia|]. simpl.
  rewrite length_app.
  destruct (_ <? _)%nat; [done|].
  rewrite write_at_app. destruct (_ =? _)%nat.
  - destruct (noerror_answer lib _) as [pq'| | |]; simpl; [|done..].
    by rewrite store_store.
  - by rewrite store_store.
Qed.
End Chunks.

Lemma answer_chunks_compose_witness :
  (st1 ← frontend_dispatch_resolver_answer ModelLib.lib (chunk 8) [1; 2; 3] realloc_works
           (one_query (sldns_buffer_new 29));
   frontend_dispatch_resolver_answer ModelLib.lib (chunk 8) [4; 5; 6; 7; 8] realloc_works st1)
  = frontend_dispatch_resolver_answer ModelLib.lib (chunk 8) [1; 2; 3; 4; 5; 6; 7; 8]
      realloc_works (one_query (sldns_buffer_new 29)).
Proof.
  apply (answer_chunks_compose ModelLib.lib (chunk 8) [1; 2; 3] [4; 5; 6; 7; 8] realloc_works
           (one_query (sldns_buffer_new 29)) 1%positive
           (set_abuf (udp_pending example_query 4242) (Some (sldns_buffer_new 29)))
           (sldns_buffer_new 29)); try reflexivity.
  - unfold UINT16_MAX. simpl. lia.
  - discriminate.
  - simpl. lia.
Defined.

(** *** Released queries *)

Lemma length_filter_ne (p : loc) (q : list loc) :
  NoDup q -> p ∈ q -> length (filter (fun x => x ≠ p) q) = pred (length q).
Proof.
  induction 1 as [|x q Hx Hnd IH]; intros Hp; [by apply elem_of_nil in Hp|].
  rewrite filter_cons. destruct (decide (x ≠ p)) as [Hne|Heq].
  - apply elem_of_cons in Hp as [->|Hp]; [done|]. simpl. rewrite IH by done.
    destruct q; [by apply elem_of_nil in Hp|done].
  - assert (x = p) as -> by (by destruct (decide (x = p))). simpl.
    f_equal. clear IH Hp Heq Hnd. induction q as [|y q IH]; [done|].
    rewrite filter_cons. destruct (decide (y ≠ p)) as [_|Hy].
    + simpl. f_equal. apply IH. intros H. apply Hx. by apply list_elem_of_further.
    + exfalso. apply Hx. assert (y = p) as -> by (by destruct (decide (y = p))).
      apply list_elem_of_here.
Qed.

(** X11. A released query is gone: [free_pending_query] on a query of the
    table succeeds, [pending_query_cnt] drops by one, [find_pending_query]
    no longer finds its id, and an IMSG_ANSWER that arrives for it afterwards
    changes nothing. *)
Theorem late_answer_is_ignored
    (lib : libunbound) (st : frontend) (p : loc) (pq : pending_query)
    (hdr : answer_header) (data : list Z) (e : answer_env) :
  table_ok st -> p ∈ pending_queries st -> heap st !! p = Some pq ->
  ah_id hdr = imsg_id pq -> ah_answer_len hdr <= UINT16_MAX ->
  exists st',
    free_pending_query (Some p) st = Ok st'
    /\ pending_query_cnt st' = pending_query_cnt st - 1
    /\ find_pending_query st' (imsg_id pq) = None
    /\ frontend_dispatch_resolver_answer lib hdr data e st' = Ok st'.
Proof.
  intros Hok Hin Hp Hid Hlen.
  destruct (free_pending_query (Some p) st) as [st'| | |] eqn:Hfree;
    [|unfold free_pending_query in Hfree; rewrite Hp in Hfree; done..].
  exists st'. split; [done|].
  assert (Hq : pending_queries st' = filter (fun x => x ≠ p) (pending_queries st)).
  { unfold free_pending_query in Hfree. rewrite Hp in Hfree. simpl in Hfree.
    injection Hfree as <-.
    by destruct (tcp pq), (ev pq), (resp_ev pq), (tmo_ev pq), (fd pq =? -1). }
  assert (Hfind : find_pending_query st' (imsg_id pq) = None).
  { pose proof (subtable_free _ _ _ Hfree) as [Hsub Hids].
    pose proof (find_pending_query_in_spec (heap st') (pending_queries st') (imsg_id pq)) as Hf.
    unfold find_pending_query.
    destruct (find_pending_query_in (heap st') (pending_queries st') (imsg_id pq)) as [q|];
      [|done].
    exfalso. destruct Hf as [Hq' Hidq].
    assert (Hqp : q = p).
    { destruct Hok as (_ & _ & Huniq). apply (Huniq q p (imsg_id pq)).
      - by apply (sublist_subseteq _ _ Hsub).
      - done.
      - rewrite <- (Hids q Hq'). done.
      - unfold id_of. by rewrite Hp. }
    subst q. rewrite Hq in Hq'. by apply filter_ne_not_elem in Hq'. }
  split; [|split; [done|]].
  - unfold pending_query_cnt. rewrite Hq.
    destruct Hok as (Hnd & _). rewrite length_filter_ne by done.
    destruct (pending_queries st); [by apply elem_of_nil in Hin|simpl; lia].
  - unfold frontend_dispatch_resolver_answer.
    destruct (Z.ltb_spec UINT16_MAX (ah_answer_len hdr)) as [|_]; [lia|].
    by rewrite Hid, Hfind.
Qed.

Lemma late_answer_is_ignored_witness :
  exists st',
    free_pending_query (Some 1%positive) (one_query half_filled) = Ok st'
    /\ pending_query_cnt st' = 0
    /\ frontend_dispatch_resolver_answer ModelLib.lib (chunk 8) [5; 6; 7; 8] realloc_works st'
       = Ok st'.
Proof.
  destruct (late_answer_is_ignored ModelLib.lib (one_query half_filled) 1%positive
              (set_abuf (udp_pending example_query 4242) (Some half_filled))
              (chunk 8) [5; 6; 7; 8] realloc_works)
    as (st' & H1 & H2 & _ & H4).
  - split; [apply NoDup_singleton|]. split.
    + intros p Hp. apply list_elem_of_singleton in Hp as ->. by eexists.
    + intros p q i Hp Hq _ _. apply list_elem_of_singleton in Hp as ->.
      by apply list_elem_of_singleton in Hq as ->.
  - apply list_elem_of_here.
  - reflexivity.
  - reflexivity.
  - unfold UINT16_MAX. simpl. lia.
  - exists st'. split; [done|]. split; [|done]. rewrite H2. reflexivity.
Defined.

(** *** Failed allocations *)

Lemma filter_ne_snoc (p : loc) (q : list loc) :
  p ∉ q -> filter (fun x => x ≠ p) (q ++ [p]) = q.
Proof.
  intros Hp. rewrite filter_app.
  assert (H1 : filter (fun x => x ≠ p) q = q).
  { induction q as [|x q IH]; [done|]. rewrite filter_cons.
    destruct (decide (x ≠ p)) as [_|Hx].
    - f_equal. apply IH. intros H. apply Hp. by apply list_elem_of_further.
    - exfalso. apply Hp. assert (x = p) as -> by (by destruct (decide (x = p))).
      apply list_elem_of_here. }
  rewrite H1. rewrite filter_cons. destruct (decide (p ≠ p)); [done|].
  by rewrite app_nil_r.
Qed.

Lemma calloc_not_linked (st : frontend) : table_ok st -> calloc st ∉ pending_queries st.
Proof.
  intros (_ & Halloc & _) Hin. destruct (Halloc _ Hin) as [pq Hpq].
  by rewrite calloc_fresh in Hpq.
Qed.





(** *** TCP framing *)

Lemma answer_wire_length (ab : sldns_buffer) :
  sldns_buffer_invariant ab -> length (answer_wire ab) = sldns_buffer_remaining ab.
Proof.
  intros (H1 & H2 & H3). unfold answer_wire, sldns_buffer_remaining, sldns_buffer_current.
  rewrite length_take, length_drop. lia.
Qed.

Lemma frame_buffer (n : nat) (W : list Z) :
  length W = n ->
  let tmp := sldns_buffer_flip
               (sldns_buffer_write
                  (sldns_buffer_write_u16 (sldns_buffer_new (n + 2)) (Z.of_nat n)) W) in
  sldns_buffer_invariant tmp /\ sldns_buffer_position tmp = 0%nat
  /\ answer_wire tmp = u16_bytes (Z.of_nat n) ++ W.
Proof.
  intros HW. unfold sldns_buffer_write_u16.
  set (hdr := u16_bytes (Z.of_nat n)).
  assert (Hhdr : length hdr = 2%nat) by reflexivity.
  unfold sldns_buffer_flip, sldns_buffer_write, sldns_buffer_new, sldns_buffer_invariant,
    sldns_buffer_position, answer_wire, sldns_buffer_remaining, sldns_buffer_current, write_at.
  cbn [_data _position _limit _capacity]. rewrite Hhdr, HW, take_0, drop_0, Nat.sub_0_r.
  cbn [app Nat.add].
  rewrite (take_app_length' hdr) by done.
  split; [|split; [done|]].
  - split; [lia|]. split; [lia|].
    rewrite !length_app, !length_drop, !length_app, !length_drop, length_replicate. lia.
  - rewrite app_assoc. rewrite take_app_length'; [done|]. rewrite length_app. lia.
Qed.

(** X14. [send_answer] on a TCP query queues the answer behind its length:
    the answer buffer becomes one that reads as the two-octet big-endian
    length followed by the answer, and the write event is armed. *)
Theorem send_answer_tcp_frames
    (e : hq_env) (p : loc) (st : frontend) (pq : pending_query) (ab : sldns_buffer) :
  heap st !! p = Some pq -> abuf pq = Some ab -> tcp pq = true -> tmp_ok e = true ->
  sldns_buffer_invariant ab -> sldns_buffer_position ab = 0%nat ->
  exists tmp,
    send_answer e p st = Ok (event_add p EvResp None (store p (set_abuf pq (Some tmp)) st))
    /\ sldns_buffer_invariant tmp /\ sldns_buffer_position tmp = 0%nat
    /\ answer_wire tmp = u16_bytes (Z.of_nat (length (answer_wire ab))) ++ answer_wire ab.
Proof.
  intros Hp Hab Htcp Htmp Hinv Hpos.
  pose proof (answer_wire_length ab Hinv) as Hlen.
  assert (Hrem : sldns_buffer_remaining ab = sldns_buffer_limit ab).
  { unfold sldns_buffer_remaining, sldns_buffer_limit. unfold sldns_buffer_position in Hpos. lia. }
  rewrite Hrem in Hlen.
  unfold send_answer. rewrite Hp. simpl. rewrite Hab. simpl. rewrite Htcp, Htmp. simpl.
  eexists. split; [reflexivity|].
  fold (answer_wire ab). rewrite Hlen.
  by apply frame_buffer.
Qed.

Lemma send_answer_tcp_frames_witness :
  exists tmp,
    send_answer all_ok 1%positive
      (one_connection (sldns_buffer_new 0) (Some (buffer_of [1; 2; 3])))
    = Ok (event_add 1%positive EvResp None
            (store 1%positive
               (set_abuf (tcp_pending (sldns_buffer_new 0) (Some (buffer_of [1; 2; 3])))
                  (Some tmp))
               (one_connection (sldns_buffer_new 0) (Some (buffer_of [1; 2; 3])))))
    /\ answer_wire tmp = [0; 3; 1; 2; 3].
Proof.
  destruct (send_answer_tcp_frames all_ok 1%positive
              (one_connection (sldns_buffer_new 0) (Some (buffer_of [1; 2; 3])))
              (tcp_pending (sldns_buffer_new 0) (Some (buffer_of [1; 2; 3])))
              (buffer_of [1; 2; 3]))
    as (tmp & H1 & _ & _ & H2); try reflexivity.
  - unfold sldns_buffer_invariant. simpl. lia.
  - exists tmp. split; [exact H1|]. rewrite H2. reflexivity.
Defined.

Lemma answer_wire_skip (ab : sldns_buffer) (n : nat) :
  (n <= sldns_buffer_remaining ab)%nat ->
  answer_wire ab = take n (sldns_buffer_current ab) ++ answer_wire (sldns_buffer_skip ab n).
Proof.
  intros Hn. unfold answer_wire, sldns_buffer_remaining, sldns_buffer_current in *. simpl.
  rewrite <- drop_drop, take_take_drop. f_equal. lia.
Qed.

(** X15. The writes of [tcp_response] carry the queued answer in order:
    whatever non-empty portions the socket takes, the portions written add
    up to the content of the buffer, and with the last of them the
    connection is closed and the query released. *)
Theorem tcp_response_stream
    (ns : list nat) (p : loc) (st : frontend) (pq : pending_query) (ab : sldns_buffer) :
  heap st !! p = Some pq -> abuf pq = Some ab -> tcp pq = true -> fd pq <> -1 ->
  Forall (fun n => 0 < n)%nat ns -> ns <> [] -> sum_list ns = sldns_buffer_remaining ab ->
  exists st' payloads,
    tcp_responses p (inl <$> ns) st = Ok st'
    /\ out st' = out st ++ (TcpWrite (fd pq) <$> payloads) ++ [Close (fd pq)]
    /\ concat payloads = answer_wire ab
    /\ (p ∉ pending_queries st') /\ heap st' !! p = None /\ (fd pq ∉ fds st').
Proof.
  intros Hp Hab Htcp Hfd Hpos. revert st pq ab Hp Hab Htcp Hfd.
  induction Hpos as [|n ns Hn Hns IH]; intros st pq ab Hp Hab Htcp Hfd Hne Hsum; [done|].
  simpl in Hsum. simpl. unfold tcp_response at 1. rewrite Hp. simpl. rewrite Hab. simpl.
  rewrite Nat.min_l by lia.
  rewrite (answer_wire_skip ab n) by lia.
  set (ab' := sldns_buffer_skip ab n).
  set (st1 := store p (set_abuf pq (Some ab')) (emit st _)).
  assert (Hrem : sldns_buffer_remaining ab' = sum_list ns).
  { unfold ab', sldns_buffer_remaining in *. simpl. lia. }
  destruct ns as [|m ns].
  - simpl in Hrem. rewrite Hrem. simpl.
    unfold free_pending_query. simpl. rewrite lookup_insert_eq. simpl. rewrite Htcp.
    destruct (Z.eqb_spec (fd pq) (-1)) as [|_]; [done|]. simpl.
    eexists. exists [take n (sldns_buffer_current ab)].
    split; [reflexivity|]. simpl.
    unfold answer_wire. rewrite Hrem. simpl. rewrite !app_nil_r.
    split.
    { by destruct (ev pq), (resp_ev pq), (tmo_ev pq); simpl; rewrite <- app_assoc. }
    split; [done|]. split.
    { destruct (ev pq), (resp_ev pq), (tmo_ev pq); simpl; apply filter_ne_not_elem. }
    split.
    { destruct (ev pq), (resp_ev pq), (tmo_ev pq); simpl; apply lookup_delete_eq. }
    intros Hin. apply elem_of_difference in Hin as [_ Hin].
    apply Hin. by apply elem_of_singleton.
  - assert (Hm : (0 < m)%nat) by (by apply Forall_cons_1 in Hns as [? _]).
    destruct (Nat.eqb_spec (sldns_buffer_remaining ab') 0) as [H0|_];
      [rewrite Hrem in H0; simpl in H0; lia|].
    destruct (IH st1 (set_abuf pq (Some ab')) ab') as (st' & payloads & H1 & H2 & H3 & H4);
      [apply lookup_insert_eq|done|done|done|done|done|].
    exists st', (take n (sldns_buffer_current ab) :: payloads).
    split; [exact H1|]. split; [|split; [|done]].
    + rewrite H2. simpl. by rewrite <- app_assoc.
    + simpl. by rewrite H3.
Qed.

Lemma tcp_response_stream_witness :
  exists st' payloads,
    tcp_responses 1%positive [inl 2%nat; inl 3%nat]
      (one_connection (sldns_buffer_new 0) (Some (buffer_of [0; 3; 1; 2; 3]))) = Ok st'
    /\ out st' = (TcpWrite 6 <$> payloads) ++ [Close 6]
    /\ concat payloads = [0; 3; 1; 2; 3]
    /\ 1%positive ∉ pending_queries st'.
Proof.
  destruct (tcp_response_stream [2; 3]%nat 1%positive
              (one_connection (sldns_buffer_new 0) (Some (buffer_of [0; 3; 1; 2; 3])))
              (tcp_pending (sldns_buffer_new 0) (Some (buffer_of [0; 3; 1; 2; 3])))
              (buffer_of [0; 3; 1; 2; 3]))
    as (st' & payloads & H1 & H2 & H3 & H4 & _); try reflexivity.
  - discriminate.
  - repeat constructor.
  - discriminate.
  - exists st', payloads. split; [exact H1|]. split; [exact H2|]. split; [exact H3|exact H4].
Defined.

(** *** TCP reassembly *)

Lemma sldns_read_uint16_u16_bytes (v : Z) (rest : list Z) :
  0 <= v < 65536 -> sldns_read_uint16 (u16_bytes v ++ rest) = v.
Proof.
  intros Hv. unfold sldns_read_uint16, u16_bytes. cbn [app nth].
  change 255 with (Z.ones 8). rewrite !Z.land_ones by lia.
  rewrite Z.shiftr_div_pow2, Z.shiftl_mul_pow2 by lia. change (2 ^ 8) with 256.
  rewrite (Z.mod_small (v / 256)) by (split; [apply Z.div_pos; lia|apply Z.div_lt_upper_bound; lia]).
  rewrite <- Z.add_nocarry_lor.
  - pose proof (Z.div_mod v 256). lia.
  - apply Z.bits_inj'. intros n Hn. rewrite Z.land_spec, Z.bits_0.
    destruct (Z.lt_ge_cases n 8) as [Hlt|Hge].
    + replace (v / 256 * 256) with (Z.shiftl (v / 256) 8)
        by (rewrite Z.shiftl_mul_pow2 by lia; reflexivity).
      rewrite Z.shiftl_spec_low by lia. reflexivity.
    + replace (v mod 256) with (v mod 2 ^ 8) by reflexivity.
      rewrite Z.mod_pow2_bits_high by lia. apply andb_false_r.
Qed.

Lemma write_at_stream (s c rest : list Z) (k N : nat) :
  c ++ rest = drop k s -> (k <= length s)%nat ->
  write_at (take k s ++ replicate (N - k) 0) k c
  = take (k + length c) s ++ replicate (N - (k + length c)) 0.
Proof.
  intros Hsplit Hk.
  assert (Htk : take (k + length c) s = take k s ++ c).
  { rewrite <- take_take_drop, <- Hsplit. by rewrite take_app_length. }
  unfold write_at. rewrite Htk.
  rewrite take_app_length' by (rewrite length_take; lia).
  rewrite <- app_assoc. do 2 f_equal.
  replace (k + length c)%nat with (length (take k s) + length c)%nat at 1
    by (rewrite length_take; lia).
  rewrite drop_app_add. rewrite drop_replicate. f_equal. lia.
Qed.

Section Reassembly.
Variable lib : libunbound.
Variable hq : hq_env.
Variable p : loc.
Variable pq0 : pending_query.
Variable body : list Z.

(** A read while the body is being collected. *)
Lemma tcp_request_body (st : frontend) (m : nat) (c rest : list Z) :
  heap st !! p = Some (framed_pq pq0 body m) ->
  c <> [] -> c ++ rest = drop m body ->
  tcp_request lib p (delivers hq c) st =
    if (m + length c =? length body)%nat then tcp_request_complete lib hq p pq0 body st
    else Ok (store p (framed_pq pq0 body (m + length c)) st).
Proof.
  intros Hp Hc Hsplit.
  assert (Hlen : (m + length c + length rest = length body)%nat /\ (m <= length body)%nat).
  { apply (f_equal length) in Hsplit. rewrite length_app, length_drop in Hsplit.
    destruct c; [done|]. simpl in *. lia. }
  assert (Hc0 : (0 < length c)%nat) by (destruct c; [done|simpl; lia]).
  assert (Htk : take (m + length c) body = take m body ++ c).
  { rewrite <- take_take_drop, <- Hsplit. by rewrite take_app_length. }
  unfold tcp_request. rewrite Hp. cbn [framed_pq set_abuf set_qbuf qbuf abuf mbind outcome_bind deref
    read_result delivers req_tmp_ok req_abuf_ok req_hq].
  unfold sldns_buffer_write, sldns_buffer_remaining. cbn [_data _limit _position _capacity].
  rewrite !(take_ge c) by lia.
  destruct (Nat.eqb_spec (length c) 0) as [|_]; [lia|].
  rewrite andb_false_r. cbn [mbind outcome_bind].
  assert (Hdata : write_at (take m body ++ replicate (length body - m) 0) m c
                  = take (m + length c) body ++ replicate (length body - (m + length c)) 0).
  { unfold write_at. rewrite Htk.
    rewrite take_app_length' by (rewrite length_take; lia).
    rewrite <- app_assoc. do 2 f_equal.
    replace (m + length c)%nat with (length (take m body) + length c)%nat
      by (rewrite length_take; lia).
    rewrite drop_app_add. rewrite drop_replicate. f_equal. rewrite length_take. lia. }
  rewrite Hdata.
  destruct (Nat.eqb_spec (m + length c) (length body)) as [Heq|Hne].
  - rewrite Heq, Nat.sub_diag. cbn [Nat.eqb].
    assert (Hbuf : take (length body) body ++ replicate (length body - length body) 0 = body).
    { rewrite firstn_all, Nat.sub_diag. apply app_nil_r. }
    rewrite Hbuf. reflexivity.
  - cbn [_limit _position].
    destruct (Nat.eqb_spec (length body - (m + length c)) 0) as [|_]; [lia|].
    reflexivity.
Qed.

Lemma tcp_requests_body (chunks : list (list Z)) (st : frontend) (m : nat) :
  heap st !! p = Some (framed_pq pq0 body m) -> (m < length body)%nat ->
  Forall (fun c => c <> []) chunks -> concat chunks = drop m body ->
  tcp_requests lib p (delivers hq <$> chunks) st = tcp_request_complete lib hq p pq0 body st.
Proof.
  intros Hp Hm Hne. revert st m Hp Hm.
  induction Hne as [|c chunks Hc Hne IH]; intros st m Hp Hm Hcat.
  - simpl in Hcat. apply (f_equal length) in Hcat. rewrite length_drop in Hcat.
    simpl in Hcat. lia.
  - simpl in Hcat. cbn [fmap list_fmap tcp_requests].
    rewrite (tcp_request_body st m c (concat chunks)) by done.
    assert (Hlen : (m + length c + length (concat chunks) = length body)%nat).
    { apply (f_equal length) in Hcat. rewrite length_app, length_drop in Hcat. lia. }
    destruct (Nat.eqb_spec (m + length c) (length body)) as [Heq|Hneq].
    + assert (chunks = []) as ->.
      { destruct chunks as [|c' chunks]; [done|]. apply Forall_cons_1 in Hne as [Hc' _].
        simpl in Hlen. rewrite length_app in Hlen. destruct c'; [done|simpl in Hlen; lia]. }
      simpl. by destruct (tcp_request_complete _ _ _ _ _ _).
    + cbn [mbind outcome_bind].
      rewrite (IH (store p (framed_pq pq0 body (m + length c)) st) (m + length c)%nat).
      * unfold tcp_request_complete. by rewrite store_store.
      * apply lookup_insert_eq.
      * lia.
      * rewrite <- drop_drop, <- Hcat. by rewrite drop_app_length.
Qed.

(** The read that completes the length prefix: [k] octets of the stream are
    in the buffer of size [N], and [c] brings the total to two or more. *)
Lemma tcp_request_frames (st : frontend) (pqA : pending_query) (N k : nat) (c rest : list Z) :
  let stream := u16_bytes (Z.of_nat (length body)) ++ body in
  heap st !! p = Some pqA ->
  qbuf pqA = Some (mk_buffer (take k stream ++ replicate (N - k) 0) k N N) ->
  abuf pqA = None -> fd pqA = fd pq0 -> (forall b, set_qbuf pqA b = set_qbuf pq0 b) ->
  (2 + length body <= N)%nat -> Z.of_nat (length body) < 65536 ->
  c ++ rest = drop k stream -> (2 <= k + length c)%nat -> (k <= 1)%nat ->
  tcp_request lib p (delivers hq c) st =
    if (k + length c - 2 =? length body)%nat then tcp_request_complete lib hq p pq0 body st
    else Ok (store p (framed_pq pq0 body (k + length c - 2)) st).
Proof.
  intros stream Hp Hqb Hab Hfd Hset HN H16 Hsplit Hk2 Hk.
  assert (Hstream : length stream = (2 + length body)%nat).
  { unfold stream. rewrite length_app. reflexivity. }
  assert (Hlen : (k + length c + length rest = 2 + length body)%nat).
  { apply (f_equal length) in Hsplit. rewrite length_app, length_drop, Hstream in Hsplit. lia. }
  set (m := (k + length c - 2)%nat).
  assert (Hm : (m <= length body)%nat) by (unfold m; lia).
  assert (Hdata : write_at (take k stream ++ replicate (N - k) 0) k c
                  = u16_bytes (Z.of_nat (length body))
                    ++ take m body ++ replicate (N - (k + length c)) 0).
  { rewrite (write_at_stream stream c rest k N) by (done || lia).
    unfold stream. rewrite take_app.
    rewrite (take_ge (u16_bytes _)) by (simpl; lia).
    rewrite <- app_assoc. reflexivity. }
  unfold tcp_request. rewrite Hp. cbn [mbind outcome_bind deref]. rewrite Hqb.
  cbn [mbind outcome_bind deref read_result delivers req_tmp_ok req_abuf_ok req_hq].
  unfold sldns_buffer_write, sldns_buffer_remaining, sldns_buffer_position,
    sldns_buffer_flip, sldns_buffer_skip, sldns_buffer_current, sldns_buffer_new.
  cbn [_data _limit _position _capacity].
  rewrite !(take_ge c) by lia.
  destruct (Nat.eqb_spec (length c) 0) as [|_]; [lia|].
  destruct (Nat.leb_spec 2 (k + length c)) as [_|]; [|lia].
  rewrite Hab. rewrite bool_decide_eq_true_2 by done. cbn [andb negb].
  rewrite Hdata. rewrite drop_0.
  rewrite sldns_read_uint16_u16_bytes by lia. rewrite Nat2Z.id.
  fold m. replace (k + length c - (0 + 2))%nat with m by (unfold m; lia).
  destruct (Nat.ltb_spec (length body) m) as [|_]; [lia|].
  cbn [mbind outcome_bind].
  replace (drop (0 + 2) (u16_bytes (Z.of_nat (length body)) ++ take m body
                         ++ replicate (N - (k + length c)) 0))
    with (take m body ++ replicate (N - (k + length c)) 0) by reflexivity.
  rewrite take_app_length' by (rewrite length_take; lia).
  unfold write_at. rewrite take_0, length_take, Nat.min_l by lia.
  cbn [app Nat.add]. rewrite drop_replicate.
  rewrite Hset. fold (sldns_buffer_new (length body)). fold (framed_pq pq0 body m).
  destruct (Nat.eqb_spec m (length body)) as [Heq|Hne].
  - rewrite Heq, Nat.sub_diag. cbn [Nat.eqb].
    assert (Hbuf : take (length body) body ++ replicate (length body - length body) 0 = body).
    { rewrite firstn_all, Nat.sub_diag. apply app_nil_r. }
    unfold framed_pq. rewrite Hbuf. unfold tcp_request_complete, buffer_of.
    cbn [fd set_abuf set_qbuf]. rewrite <- Hfd. reflexivity.
  - cbn [_limit _position _data _capacity].
    destruct (Nat.eqb_spec (length body - m) 0) as [|_]; [lia|]. reflexivity.
Qed.

End Reassembly.

Lemma concat_nonempty_nil (chunks : list (list Z)) :
  Forall (fun c => c <> []) chunks -> length (concat chunks) = 0%nat -> chunks = [].
Proof.
  intros Hne Hlen. destruct chunks as [|c chunks]; [done|].
  apply Forall_cons_1 in Hne as [Hc _]. simpl in Hlen. rewrite length_app in Hlen.
  destruct c; [done|simpl in Hlen; lia].
Qed.

Lemma tcp_requests_frames
    (lib : libunbound) (hq : hq_env) (p : loc) (pq0 : pending_query) (body : list Z)
    (st : frontend) (pqA : pending_query) (N k : nat) (c : list Z) (cs : list (list Z)) :
  let stream := u16_bytes (Z.of_nat (length body)) ++ body in
  heap st !! p = Some pqA ->
  qbuf pqA = Some (mk_buffer (take k stream ++ replicate (N - k) 0) k N N) ->
  abuf pqA = None -> fd pqA = fd pq0 -> (forall b, set_qbuf pqA b = set_qbuf pq0 b) ->
  (2 + length body <= N)%nat -> Z.of_nat (length body) < 65536 ->
  Forall (fun c => c <> []) cs ->
  c ++ concat cs = drop k stream -> (2 <= k + length c)%nat -> (k <= 1)%nat ->
  tcp_requests lib p (delivers hq <$> (c :: cs)) st
  = handle_query lib hq p
      (event_del p EvRead
         (emit (store p (set_abuf (set_qbuf pq0 (Some (buffer_of body)))
                           (Some (sldns_buffer_new (length body)))) st)
            (ShutdownRd (fd pq0)))).
Proof.
  intros stream Hp Hqb Hab Hfd Hset HN H16 Hne Hsplit Hk2 Hk.
  assert (Hlen : (k + length c + length (concat cs) = 2 + length body)%nat).
  { apply (f_equal length) in Hsplit.
    rewrite length_app, length_drop in Hsplit. unfold stream in Hsplit.
    rewrite length_app in Hsplit. simpl length in Hsplit. lia. }
  cbn [fmap list_fmap tcp_requests].
  rewrite (tcp_request_frames lib hq p pq0 body st pqA N k c (concat cs)) by done.
  unfold tcp_request_complete.
  destruct (Nat.eqb_spec (k + length c - 2) (length body)) as [Heq|Hneq].
  - rewrite (concat_nonempty_nil cs) by (done || lia). simpl.
    by destruct (handle_query _ _ _ _).
  - cbn [mbind outcome_bind].
    rewrite (tcp_requests_body lib hq p pq0 body cs _ (k + length c - 2)).
    + unfold tcp_request_complete. by rewrite store_store.
    + apply lookup_insert_eq.
    + lia.
    + done.
    + assert (Hd : drop (k + length c) stream = concat cs).
      { rewrite <- drop_drop, <- Hsplit. by rewrite drop_app_length. }
      rewrite <- Hd. unfold stream.
      rewrite drop_app_ge by (simpl; lia). reflexivity.
Qed.

(** X16. [tcp_request] reassembles a framed query however the stream is
    cut: for every split of the length prefix and the body into non-empty
    reads, the reads end in [handle_query] on the query whose buffer holds
    exactly the body, with the read event removed and the reading side shut
    down. *)
Theorem tcp_request_reassembles
    (lib : libunbound) (hq : hq_env) (p : loc) (pq0 : pending_query) (body : list Z)
    (chunks : list (list Z)) (st : frontend) :
  heap st !! p = Some pq0 ->
  qbuf pq0 = Some (sldns_buffer_new DEFAULT_TCP_SIZE) -> abuf pq0 = None ->
  (2 + length body <= DEFAULT_TCP_SIZE)%nat ->
  Forall (fun c => c <> []) chunks ->
  concat chunks = u16_bytes (Z.of_nat (length body)) ++ body ->
  tcp_requests lib p (delivers hq <$> chunks) st
  = handle_query lib hq p
      (event_del p EvRead
         (emit (store p (set_abuf (set_qbuf pq0 (Some (buffer_of body)))
                           (Some (sldns_buffer_new (length body)))) st)
            (ShutdownRd (fd pq0)))).
Proof.
  intros Hp Hqb Hab HN Hne Hcat.
  set (stream := u16_bytes (Z.of_nat (length body)) ++ body) in *.
  assert (Hstream : length stream = (2 + length body)%nat).
  { unfold stream. rewrite length_app. reflexivity. }
  assert (H16 : Z.of_nat (length body) < 65536).
  { unfold DEFAULT_TCP_SIZE in HN. lia. }
  destruct chunks as [|c1 cs].
  { simpl in Hcat. apply (f_equal length) in Hcat. rewrite Hstream in Hcat. simpl in Hcat. lia. }
  apply Forall_cons_1 in Hne as [Hc1 Hne]. simpl in Hcat.
  assert (Hlen : (length c1 + length (concat cs) = 2 + length body)%nat).
  { apply (f_equal length) in Hcat. rewrite length_app, Hstream in Hcat. lia. }
  assert (Hl1 : (0 < length c1)%nat) by (destruct c1; [done|simpl; lia]).
  destruct (Nat.le_gt_cases 2 (length c1)) as [Hge|Hlt].
  - apply (tcp_requests_frames lib hq p pq0 body st pq0 DEFAULT_TCP_SIZE 0 c1 cs);
      try done; try lia.
  - assert (Hone : length c1 = 1%nat) by lia.
    destruct cs as [|c2 cs].
    { simpl in Hlen. lia. }
    apply Forall_cons_1 in Hne as [Hc2 Hne].
    assert (Hl2 : (0 < length c2)%nat) by (destruct c2; [done|simpl; lia]).
    set (bufA := mk_buffer (take 1 stream ++ replicate (DEFAULT_TCP_SIZE - 1) 0) 1
                   DEFAULT_TCP_SIZE DEFAULT_TCP_SIZE).
    assert (Hfirst : tcp_request lib p (delivers hq c1) st
                     = Ok (store p (set_qbuf pq0 (Some bufA)) st)).
    { unfold tcp_request. rewrite Hp. cbn [mbind outcome_bind deref]. rewrite Hqb.
      cbn [mbind outcome_bind deref read_result delivers req_tmp_ok req_abuf_ok req_hq].
      unfold sldns_buffer_write, sldns_buffer_remaining, sldns_buffer_position,
        sldns_buffer_new.
      cbn [_data _limit _position _capacity].
      rewrite !(take_ge c1) by lia.
      rewrite Hone. cbn [Nat.eqb Nat.add Nat.leb andb mbind outcome_bind].
      destruct (Nat.eqb_spec (DEFAULT_TCP_SIZE - 1) 0) as [|_]; [lia|].
      unfold bufA. do 4 f_equal. f_equal.
      pose proof (write_at_stream stream c1 (concat (c2 :: cs)) 0 DEFAULT_TCP_SIZE) as Hw.
      rewrite Nat.sub_0_r, Hone in Hw. simpl take at 1 in Hw. simpl app at 1 in Hw.
      exact (Hw Hcat ltac:(lia)). }
    rewrite (fmap_cons (delivers hq) c1).
    change (tcp_requests lib p (delivers hq c1 :: (delivers hq <$> c2 :: cs)) st)
      with (tcp_request lib p (delivers hq c1) st
            ≫= tcp_requests lib p (delivers hq <$> c2 :: cs)).
    rewrite Hfirst. cbn [mbind outcome_bind].
    rewrite (tcp_requests_frames lib hq p pq0 body _ (set_qbuf pq0 (Some bufA))
               DEFAULT_TCP_SIZE 1 c2 cs); try done; try lia.
    + by rewrite store_store.
    + apply lookup_insert_eq.
    + fold stream. rewrite <- Hcat, <- Hone. by rewrite drop_app_length.
Qed.

Lemma tcp_request_reassembles_witness :
  tcp_requests ModelLib.lib 1%positive
    (delivers all_ok <$> [[0]; [29; 190; 239; 1]; drop 3 example_query])
    (one_connection (sldns_buffer_new DEFAULT_TCP_SIZE) None)
  = handle_query ModelLib.lib all_ok 1%positive
      (event_del 1%positive EvRead
         (emit (store 1%positive
                  (set_abuf (set_qbuf (tcp_pending (sldns_buffer_new DEFAULT_TCP_SIZE) None)
                               (Some (buffer_of example_query)))
                     (Some (sldns_buffer_new (length example_query))))
                  (one_connection (sldns_buffer_new DEFAULT_TCP_SIZE) None))
            (ShutdownRd 6))).
Proof.
  apply (tcp_request_reassembles ModelLib.lib all_ok 1%positive
           (tcp_pending (sldns_buffer_new DEFAULT_TCP_SIZE) None) example_query
           [[0]; [29; 190; 239; 1]; drop 3 example_query]
           (one_connection (sldns_buffer_new DEFAULT_TCP_SIZE) None)).
  - reflexivity.
  - reflexivity.
  - reflexivity.
  - vm_compute. lia.
  - repeat constructor; discriminate.
  - reflexivity.
Defined.

(** *** Events and the queries they belong to *)

Lemma events_ok_frame (st st' : frontend) :
  heap st' = heap st -> pq_events st' = pq_events st -> events_ok st -> events_ok st'.
Proof. intros Hh He [Ha Hb]. unfold events_ok. rewrite Hh, He. done. Qed.

Lemma events_ok_store (st : frontend) (p : loc) (pq pq' : pending_query) :
  heap st !! p = Some pq -> same_kind pq pq' -> events_ok st -> events_ok (store p pq' st).
Proof.
  intros Hp (Ht & He & Hr & Hm) [Ha Hb]. split.
  - intros q e d Hq. simpl in Hq. destruct (Ha q e d Hq) as (x & Hx & Htx).
    unfold store. simpl. destruct (decide (q = p)) as [->|Hne].
    + rewrite lookup_insert_eq. exists pq'. split; [done|]. rewrite Ht. congruence.
    + rewrite lookup_insert_ne by done. by exists x.
  - intros q x. unfold store. simpl. destruct (decide (q = p)) as [->|Hne].
    + rewrite lookup_insert_eq. intros [= <-] Htcp. rewrite Ht in Htcp.
      rewrite He, Hr, Hm. by apply (Hb p pq).
    + rewrite lookup_insert_ne by done. apply Hb.
Qed.

(** Allocating a UDP query at a fresh address. *)
Lemma events_ok_alloc (st : frontend) (p : loc) (pq : pending_query) :
  heap st !! p = None -> tcp pq = false -> events_ok st -> events_ok (store p pq st).
Proof.
  intros Hp Ht [Ha Hb]. split.
  - intros q e d Hq. simpl in Hq. destruct (Ha q e d Hq) as (x & Hx & Htx).
    unfold store. simpl. rewrite lookup_insert_ne by congruence. by exists x.
  - intros q x. unfold store. simpl. destruct (decide (q = p)) as [->|Hne].
    + rewrite lookup_insert_eq. intros [= <-] Htcp. congruence.
    + rewrite lookup_insert_ne by done. apply Hb.
Qed.

Lemma events_ok_event_add (st : frontend) (p : loc) (e : pq_event) (d : option nat)
    (pq : pending_query) :
  heap st !! p = Some pq -> tcp pq = true -> events_ok st -> events_ok (event_add p e d st).
Proof.
  intros Hp Ht [Ha Hb]. split; [|exact Hb].
  intros q e' d'. unfold event_add. simpl.
  destruct (decide ((p, e) = (q, e'))) as [[= <- <-]|Hne].
  - intros _. by exists pq.
  - rewrite lookup_insert_ne by done. apply Ha.
Qed.

Lemma events_ok_event_del (st : frontend) (p : loc) (e : pq_event) :
  events_ok st -> events_ok (event_del p e st).
Proof.
  intros [Ha Hb]. split; [|exact Hb].
  intros q e' d'. unfold event_del. simpl.
  destruct (decide ((p, e) = (q, e'))) as [[= <- <-]|Hne].
  - by rewrite lookup_delete_eq.
  - rewrite lookup_delete_ne by done. apply Ha.
Qed.

Lemma events_ok_free (st st' : frontend) (p : option loc) :
  free_pending_query p st = Ok st' -> events_ok st -> events_ok st'.
Proof.
  unfold free_pending_query. destruct p as [p|]; [|by intros [= <-]].
  destruct (heap st !! p) as [pq|] eqn:Hp; simpl; [|done].
  intros [= <-] [Ha Hb].
  assert (Hheap : forall q x, delete p (heap st) !! q = Some x -> q ≠ p /\ heap st !! q = Some x).
  { intros q x. destruct (decide (q = p)) as [->|Hne].
    - by rewrite lookup_delete_eq.
    - by rewrite lookup_delete_ne. }
  destruct (tcp pq) eqn:Htcp.
  - destruct (Hb p pq Hp Htcp) as (-> & -> & ->). simpl.
    assert (Hev : forall q e d,
              delete (p, EvTmo) (delete (p, EvResp) (delete (p, EvRead) (pq_events st)))
                !! (q, e) = Some d ->
              q ≠ p /\ pq_events st !! (q, e) = Some d).
    { intros q e d H.
      apply lookup_delete_Some in H as [H1 H].
      apply lookup_delete_Some in H as [H2 H].
      apply lookup_delete_Some in H as [H3 H].
      split; [|done]. intros ->. destruct e; congruence. }
    split.
    + intros q e d Hq.
      assert (Hq' : q ≠ p /\ pq_events st !! (q, e) = Some d).
      { apply Hev. by destruct (fd pq =? -1). }
      destruct Hq' as [Hne Hq']. destruct (Ha q e d Hq') as (x & Hx & Htx).
      exists x. split; [|done].
      destruct (fd pq =? -1); simpl; by rewrite lookup_delete_ne.
    + intros q x Hq. apply (Hb q x).
      destruct (fd pq =? -1); simpl in Hq; by apply Hheap in Hq as [_ ?].
  - split.
    + intros q e d Hq. simpl in Hq. destruct (Ha q e d Hq) as (x & Hx & Htx).
      exists x. split; [|done]. simpl. rewrite lookup_delete_ne; [done|]. congruence.
    + intros q x Hq. simpl in Hq. apply (Hb q x). by apply Hheap in Hq as [_ ?].
Qed.

Section EventSteps.
Variable lib : libunbound.

Lemma same_kind_set_abuf (pq : pending_query) (ab : option sldns_buffer) :
  same_kind pq (set_abuf pq ab).
Proof. done. Qed.

Lemma events_ok_send_answer (e : hq_env) (p : loc) (st st' : frontend) :
  send_answer e p st = Ok st' -> events_ok st -> events_ok st'.
Proof.
  unfold send_answer. destruct (heap st !! p) as [pq|] eqn:Hp; simpl; [|done].
  destruct (abuf pq) as [ab|]; simpl; [|done].
  destruct (tcp pq) eqn:Htcp; simpl.
  - destruct (tmp_ok e); simpl; [|apply events_ok_free].
    intros [= <-] Hok.
    eapply events_ok_event_add; [apply lookup_insert_eq|exact Htcp|].
    by apply (events_ok_store st p pq).
  - intros H Hok. apply events_ok_free in H; [done|]. by apply (events_ok_frame st).
Qed.

Lemma events_ok_handle_query (e : hq_env) (p : loc) (st st' : frontend) :
  handle_query lib e p st = Ok st' -> events_ok st -> events_ok st'.
Proof.
  unfold handle_query. destruct (heap st !! p) as [pq|] eqn:Hp; simpl; [|done].
  destruct (handle_query_exit lib (bl_head st) e pq) as [x| | |] eqn:Hx; simpl; [|done..].
  apply handle_query_exit_inv in Hx
    as [->|(qb & qm & pqX & _ & _ & Hpf & Hleaf)]; [apply events_ok_free|].
  destruct Hpf as (_ & _ & _ & _ & Htcp & _ & _ & Hev & Hresp & Htmo).
  assert (Hk : same_kind pq pqX) by done.
  destruct Hleaf as [(r & pq' & Hea & ->)|[(pq' & _ & Hch & ->)|(o & _ & ->)]].
  - apply error_answer_sets_abuf in Hea as [ab ->]. intros H Hok.
    apply events_ok_send_answer in H; [done|]. by apply (events_ok_store st p pq).
  - apply chaos_answer_sets_abuf in Hch as [ab ->]. intros H Hok.
    apply events_ok_send_answer in H; [done|]. by apply (events_ok_store st p pq).
  - intros [= <-] Hok. apply (events_ok_frame (store p pqX st)); [done|done|].
    by apply (events_ok_store st p pq).
Qed.

Lemma events_ok_udp_receive (s : Z) (e : udp_env) (st st' : frontend) :
  udp_receive lib s e st = Ok st' -> events_ok st -> events_ok st'.
Proof.
  unfold udp_receive.
  destruct (recvmsg e) as [[datagram from]|]; [|by intros [= <-]].
  destruct (udp_calloc_ok e); simpl; [|by intros [= <-]].
  destruct (draw_imsg_id st (udp_draws e)) as [id|]; [|done].
  intros Hrun Hok.
  assert (H1 : forall pq, tcp pq = false ->
            events_ok (store (calloc st) pq
                         (TAILQ_INSERT_TAIL (calloc st)
                            (store (calloc st) (set_imsg_id pq_zero id) st)))).
  { intros pq Ht. unfold store, TAILQ_INSERT_TAIL at 1. simpl. rewrite insert_insert_eq.
    apply (events_ok_frame (store (calloc st) pq st)); [done|done|].
    apply events_ok_alloc; [apply calloc_fresh|done|done]. }
  revert Hrun. destruct (negb _).
  - intros H. apply events_ok_free in H; [done|]. by apply H1.
  - intros H. apply events_ok_handle_query in H; [done|]. by apply H1.
Qed.

Lemma events_ok_tcp_accept (l : listener) (e : tcp_env) (st st' : frontend) :
  tcp_accept l e st = Ok st' -> events_ok st -> events_ok st'.
Proof.
  unfold tcp_accept. intros Hrun Hok.
  destruct (accept_reserve_frame (accept4 e) st) as [Hh _].
  assert (He : pq_events (snd (accept_reserve (accept4 e) st)) = pq_events st).
  { unfold accept_reserve. destruct (_ <=? _); [done|]. by destruct (accept4 e) as [[? ?]|]. }
  destruct (accept_reserve (accept4 e) st) as [r st2]. simpl in Hh, He.
  assert (Hok2 : events_ok st2) by (by apply (events_ok_frame st)).
  assert (Hframe : forall st3, heap st3 = heap st2 -> pq_events st3 = pq_events st2 ->
            Ok st3 = Ok st' -> events_ok st').
  { intros st3 Hh3 He3 [= <-]. by apply (events_ok_frame st2). }
  revert Hrun.
  destruct r as [[s ss]|[]];
    [| by apply Hframe | by apply Hframe | by apply Hframe
     | apply Hframe; by destruct l | apply Hframe; by destruct l | done].
  destruct (tcp_calloc_ok e); simpl; [|by apply Hframe].
  destruct (draw_imsg_id st2 (tcp_draws e)) as [id|]; [|done].
  assert (Hfresh : heap st2 !! calloc st2 = None) by apply calloc_fresh.
  assert (Hnoev : forall ev d, pq_events st2 !! (calloc st2, ev) = Some d -> False).
  { intros ev d H. destruct Hok2 as [Ha _]. destruct (Ha _ _ _ H) as (x & Hx & _). congruence. }
  destruct (negb _).
  - unfold free_pending_query. simpl. rewrite lookup_insert_eq. simpl.
    intros [= <-]. destruct Hok2 as [Ha Hb].
    assert (Hheap : delete (calloc st2)
                      (<[calloc st2 := mk_pq ss
                           (if tcp_qbuf_ok e then Some (sldns_buffer_new DEFAULT_TCP_SIZE) else None)
                           None (tcp_region_ok e) query_info_zero
                           (if tcp_region_ok e && tcp_qmsg_ok e then Some msg_parse_zero else None)
                           edns_data_zero false false false id s true]>
                         (<[calloc st2 := set_imsg_id pq_zero id]> (heap st2))) = heap st2).
    { by rewrite !delete_insert_eq, delete_id. }
    destruct (s =? -1); simpl; rewrite Hheap; by split.
  - intros [= <-].
    eapply events_ok_event_add; [apply lookup_insert_eq|done|].
    eapply events_ok_event_add; [apply lookup_insert_eq|done|].
    destruct Hok2 as [Ha Hb]. split.
    + intros q ev d Hq. simpl in Hq. destruct (Ha q ev d Hq) as (x & Hx & Htx).
      simpl. rewrite !lookup_insert_ne by congruence. by exists x.
    + intros q x. simpl. destruct (decide (q = calloc st2)) as [->|Hne].
      * rewrite lookup_insert_eq. by intros [= <-].
      * rewrite !lookup_insert_ne by done. apply Hb.
Qed.

Lemma events_ok_tcp_request (p : loc) (e : req_env) (st st' : frontend) :
  tcp_request lib p e st = Ok st' -> events_ok st -> events_ok st'.
Proof.
  unfold tcp_request. destruct (heap st !! p) as [pq|] eqn:Hp; simpl; [|done].
  destruct (qbuf pq) as [qb|]; simpl; [|done].
  destruct (read_result e) as [octets|[]]; try (by intros [= <-]);
    try apply events_ok_free.
  destruct (_ =? 0)%nat; [apply events_ok_free|].
  match goal with |- (?f ≫= _) = _ -> _ => destruct f as [[[pq2 qb2]|]| | |] eqn:Hframed end;
    simpl; [| apply events_ok_free | done..].
  assert (Hk : same_kind pq pq2).
  { revert Hframed.
    repeat (match goal with |- context [if ?c then _ else _] => destruct c end;
            simpl; try done);
      by intros [= <- <-]. }
  destruct (_ =? 0)%nat.
  - intros H Hok. apply events_ok_handle_query in H; [done|].
    apply events_ok_event_del.
    apply (events_ok_frame (store p (set_qbuf pq2 (Some (sldns_buffer_flip qb2))) st));
      [done|done|].
    apply (events_ok_store st p pq); [done| |done].
    destruct Hk as (?&?&?&?). by repeat split.
  - intros [= <-] Hok. by apply (events_ok_store st p pq).
Qed.

Lemma events_ok_tcp_response (p : loc) (w : nat + errno) (st st' : frontend) :
  tcp_response p w st = Ok st' -> events_ok st -> events_ok st'.
Proof.
  unfold tcp_response. destruct (heap st !! p) as [pq|] eqn:Hp; simpl; [|done].
  destruct (abuf pq) as [ab|]; simpl; [|done].
  destruct w as [n|[]]; try (by intros [= <-]);
    try (destruct (free_pending_query (Some p) st); simpl; done).
  set (st1 := store p _ _).
  assert (H1 : events_ok st -> events_ok st1).
  { intros Hok. unfold st1.
    apply (events_ok_store _ p pq); [done|done|]. by apply (events_ok_frame st). }
  destruct (_ =? 0)%nat.
  - intros H Hok. apply events_ok_free in H; [done|]. by apply H1.
  - intros [= <-]. exact H1.
Qed.

Lemma events_ok_answer
    (hdr : answer_header) (data : list Z) (e : answer_env) (st st' : frontend) :
  frontend_dispatch_resolver_answer lib hdr data e st = Ok st' ->
  events_ok st -> events_ok st'.
Proof.
  unfold frontend_dispatch_resolver_answer.
  destruct (UINT16_MAX <? ah_answer_len hdr); [done|].
  destruct (find_pending_query st (ah_id hdr)) as [p|]; [|by intros [= <-]].
  destruct (heap st !! p) as [pq|] eqn:Hp; simpl; [|done].
  assert (Hsrv : (error_answer lib pq LDNS_RCODE_SERVFAIL
                  ≫= λ pq', send_answer (ans_hq e) p (store p pq' st)) = Ok st' ->
                 events_ok st -> events_ok st').
  { destruct (error_answer lib pq LDNS_RCODE_SERVFAIL) as [pq'| | |] eqn:Hea; simpl; [|done..].
    apply error_answer_sets_abuf in Hea as [ab ->]. intros H Hok.
    apply events_ok_send_answer in H; [done|]. by apply (events_ok_store st p pq). }
  destruct (ah_srvfail hdr); [exact Hsrv|].
  match goal with |- (?f ≫= _) = _ -> _ => destruct f as [cd| | |] end; simpl; [|done..].
  destruct (ah_bogus hdr && negb cd); [exact Hsrv|].
  destruct (abuf pq) as [ab|]; simpl; [|done].
  match goal with |- (let '(_, _) := ?f in _) = _ -> _ => destruct f as [resized ab'] end.
  destruct resized; simpl; [|exact Hsrv].
  destruct (_ <? _)%nat; [done|].
  destruct (_ =? _)%nat.
  - match goal with |- (?f ≫= _) = _ -> _ => destruct f as [pq'| | |] eqn:Hno end;
      simpl; [|done..].
    apply noerror_answer_sets_abuf in Hno as [ab2 ->]. intros H Hok.
    apply events_ok_send_answer in H; [done|]. by apply (events_ok_store st p pq).
  - intros [= <-] Hok. by apply (events_ok_store st p pq).
Qed.

Lemma step_events_ok (st st' : frontend) :
  events_ok st -> step lib st st' -> events_ok st'.
Proof.
  intros Hok (cb & _ & Hrun). destruct cb; simpl in Hrun.
  - by apply events_ok_udp_receive in Hrun.
  - by apply events_ok_tcp_accept in Hrun.
  - injection Hrun as <-. apply (events_ok_frame st); [by destruct l|by destruct l|done].
  - by apply events_ok_tcp_request in Hrun.
  - by apply events_ok_tcp_response in Hrun.
  - unfold tcp_timeout in Hrun. apply events_ok_free in Hrun; [done|].
    by apply events_ok_event_del.
  - by apply events_ok_answer in Hrun.
  - injection Hrun as <-. by apply (events_ok_frame st).
Qed.

Lemma reachable_events_ok (st : frontend) : reachable lib st -> events_ok st.
Proof.
  intros (st0 & (_ & Hh & He) & Hsteps).
  assert (H0 : events_ok st0).
  { split.
    - intros p e d. by rewrite He, lookup_empty.
    - intros p pq. by rewrite Hh, lookup_empty. }
  clear Hh He. induction Hsteps as [|x y z Hxy _ IH]; [done|].
  apply IH. by apply (step_events_ok x).
Qed.

End EventSteps.


(** *** PKCS12_newpass: what failure and success leave behind *)

Section NewpassMore.
Import P12.
Variable L : libcrypto.

Lemma pkcs12_repack_authsafes_failure (pkcs12 : PKCS12) (safes : list PKCS7) (n : password) :
  fst (pkcs12_repack_authsafes L pkcs12 safes n) = 0 ->
  snd (pkcs12_repack_authsafes L pkcs12 safes n) = pkcs12.
Proof.
  unfold pkcs12_repack_authsafes.
  destruct (authsafes_data pkcs12); [|done].
  destruct (ASN1_OCTET_STRING_new L); simpl; [|done].
  destruct (PKCS12_pack_authsafes L _ safes); [|done].
  destruct (PKCS12_gen_mac L _ n); [|done].
  destruct (ASN1_OCTET_STRING_set L _); simpl; [lia|done].
Qed.

(** X18. [PKCS12_newpass] returns 0 or 1, and when it returns 0 the
    structure is as it was: every error path leaves the authsafes data and
    the MAC digest in place or puts them back. *)
Theorem PKCS12_newpass_failure_is_atomic (pkcs12 : option PKCS12) (o n : password) :
  (fst (PKCS12_newpass L pkcs12 o n) = 0 \/ fst (PKCS12_newpass L pkcs12 o n) = 1)
  /\ (fst (PKCS12_newpass L pkcs12 o n) = 0 -> snd (PKCS12_newpass L pkcs12 o n) = pkcs12).
Proof.
  unfold PKCS12_newpass. destruct pkcs12 as [p12|]; [|by split; [left|]].
  destruct (PKCS12_verify_mac L p12 o); simpl; [|by split; [left|]].
  destruct (PKCS12_unpack_authsafes L p12); [|by split; [left|]].
  destruct (sk_PKCS7_new_null L); [|by split; [left|]].
  destruct (newpass_authsafes L _ _ o n) as [safes'|]; [|by split; [left|]].
  pose proof (pkcs12_repack_authsafes_failure p12 safes' n) as Hfail.
  destruct (pkcs12_repack_authsafes L p12 safes' n) as [r p12']. simpl in Hfail.
  destruct (Z.eqb_spec r 0) as [->|Hr]; simpl.
  - split; [by left|]. intros _. by rewrite Hfail.
  - split; [by right|]. lia.
Qed.

Lemma newpass_authsafes_keeps_stack
    (authsafes safes safes' : list PKCS7) (o n : password) :
  newpass_authsafes L authsafes safes o n = Some safes' ->
  safes' = safes
  /\ forall pkcs7, pkcs7 ∈ authsafes ->
       (p7_type pkcs7 = NID_pkcs7_data -> fst (pkcs7_repack_data L pkcs7 safes o n) = 0)
       /\ (p7_type pkcs7 = NID_pkcs7_encrypted ->
           fst (pkcs7_repack_encdata L pkcs7 safes o n) = 0).
Proof.
  induction authsafes as [|x rest IH]; simpl.
  - intros [= <-]. split; [done|]. intros pkcs7 H. by apply elem_of_nil in H.
  - destruct (Z.eqb_spec (p7_type x) NID_pkcs7_data) as [Hd|Hd].
    + pose proof (pkcs7_repack_data_failure L x safes o n) as Hfail.
      destruct (pkcs7_repack_data L x safes o n) as [r s1] eqn:Hr; simpl in Hfail.
      destruct (Z.eqb_spec r 0) as [->|Hnz]; simpl; [|done].
      rewrite Hfail by done. intros H. destruct (IH H) as [-> Hall].
      split; [done|]. intros pkcs7 Hin. apply elem_of_cons in Hin as [->|Hin]; [|by apply Hall].
      split; [by rewrite Hr|]. intros He. rewrite Hd in He. discriminate.
    + destruct (Z.eqb_spec (p7_type x) NID_pkcs7_encrypted) as [He|He].
      * pose proof (pkcs7_repack_encdata_failure L x safes o n) as Hfail.
        destruct (pkcs7_repack_encdata L x safes o n) as [r s1] eqn:Hr; simpl in Hfail.
        destruct (Z.eqb_spec r 0) as [->|Hnz]; simpl; [|done].
        rewrite Hfail by done. intros H. destruct (IH H) as [-> Hall].
        split; [done|]. intros pkcs7 Hin.
        apply elem_of_cons in Hin as [->|Hin]; [|by apply Hall].
        split; [done|]. by rewrite Hr.
      * intros H. destruct (IH H) as [-> Hall].
        split; [done|]. intros pkcs7 Hin.
        apply elem_of_cons in Hin as [->|Hin]; [done|by apply Hall].
Qed.

(** X19. When [PKCS12_newpass] returns 1, every data or encrypted authsafe
    failed to repack and pushed nothing: the new authsafes data is what
    [PKCS12_pack_authsafes] makes of the stack exactly as [sk_PKCS7_new_null]
    returned it. *)
Theorem PKCS12_newpass_success_carries_nothing
    (pkcs12 : PKCS12) (o n : password) (r : option PKCS12) :
  PKCS12_newpass L (Some pkcs12) o n = (1, r) ->
  exists authsafes safes0 packed mac,
    PKCS12_unpack_authsafes L pkcs12 = Some authsafes
    /\ sk_PKCS7_new_null L = Some safes0
    /\ (forall pkcs7, pkcs7 ∈ authsafes ->
          (p7_type pkcs7 = NID_pkcs7_data ->
           pkcs7_repack_data L pkcs7 safes0 o n = (0, safes0))
          /\ (p7_type pkcs7 = NID_pkcs7_encrypted ->
              pkcs7_repack_encdata L pkcs7 safes0 o n = (0, safes0)))
    /\ PKCS12_pack_authsafes L
         {| authsafes_data := Some []; mac_digest := mac_digest pkcs12 |} safes0
       = Some packed
    /\ r = Some {| authsafes_data := Some packed; mac_digest := mac |}.
Proof.
  unfold PKCS12_newpass.
  destruct (PKCS12_verify_mac L pkcs12 o); simpl; [|intros [= ?]; lia].
  destruct (PKCS12_unpack_authsafes L pkcs12) as [authsafes|]; [|intros [= ?]; lia].
  destruct (sk_PKCS7_new_null L) as [safes0|]; [|intros [= ?]; lia].
  destruct (newpass_authsafes L authsafes safes0 o n) as [safes'|] eqn:Hloop;
    [|intros [= ?]; lia].
  apply newpass_authsafes_keeps_stack in Hloop as [-> Hall].
  unfold pkcs12_repack_authsafes.
  destruct (authsafes_data pkcs12); [|simpl; intros [= ?]; lia].
  destruct (ASN1_OCTET_STRING_new L); simpl; [|intros [= ?]; lia].
  destruct (PKCS12_pack_authsafes L _ safes0) as [packed|] eqn:Hpack;
    [|simpl; intros [= ?]; lia].
  destruct (PKCS12_gen_mac L _ n) as [mac|]; [|simpl; intros [= ?]; lia].
  destruct (ASN1_OCTET_STRING_set L mac) as [new_mac|]; simpl; [|intros [= ?]; lia].
  intros [= <-]. exists authsafes, safes0, packed, new_mac.
  split; [done|]. split; [done|]. split; [|done].
  intros pkcs7 Hin. destruct (Hall pkcs7 Hin) as [Hd He]. split.
  - intros Ht. pose proof (pkcs7_repack_data_failure L pkcs7 safes0 o n (Hd Ht)) as Hs.
    specialize (Hd Ht). destruct (pkcs7_repack_data L pkcs7 safes0 o n). simpl in *. congruence.
  - intros Ht. pose proof (pkcs7_repack_encdata_failure L pkcs7 safes0 o n (He Ht)) as Hs.
    specialize (He Ht). destruct (pkcs7_repack_encdata L pkcs7 safes0 o n). simpl in *.
    congruence.
Qed.

(** X20. [newpass_bags] returns 0 or 1, keeps the number and the types of
    the bags and leaves every bag that is not a shrouded key bag alone; when
    it returns 1, every shrouded key bag holds the key that the old password
    decrypts, encrypted under the new password with the algorithm, the salt
    length and the iteration count of the old bag. *)
Theorem newpass_bags_reencrypts (bags : list PKCS12_SAFEBAG) (o n : password) :
  let r := fst (newpass_bags L bags o n) in
  let bags' := snd (newpass_bags L bags o n) in
  (r = 0 \/ r = 1)
  /\ bag_type <$> bags' = bag_type <$> bags
  /\ (forall i b, bags !! i = Some b -> bag_type b <> NID_pkcs8ShroudedKeyBag ->
        bags' !! i = Some b)
  /\ (r = 1 ->
      forall i b b', bags !! i = Some b -> bags' !! i = Some b' ->
        bag_type b = NID_pkcs8ShroudedKeyBag ->
        exists p8 pbe,
          PKCS8_decrypt L (shkeybag b) o = Some p8
          /\ d2i_PBEPARAM L (parameter (algor (shkeybag b))) = Some pbe
          /\ PKCS8_encrypt L (algorithm (algor (shkeybag b))) n
               (Z.of_nat (length (salt pbe))) (iter pbe) p8 = Some (shkeybag b')).
Proof.
  induction bags as [|bag rest IH]; simpl.
  - split; [by right|]. split; [done|]. split; [done|]. intros _ i b b' H. done.
  - destruct IH as (Hr & Hty & Hkeep & Hre).
    assert (Hbag :
      let '(rb, bag') := newpass_bag L bag o n in
      (rb = 0 \/ rb = 1) /\ bag_type bag' = bag_type bag
      /\ (bag_type bag <> NID_pkcs8ShroudedKeyBag -> rb = 1 /\ bag' = bag)
      /\ (rb = 1 -> bag_type bag = NID_pkcs8ShroudedKeyBag ->
          exists p8 pbe,
            PKCS8_decrypt L (shkeybag bag) o = Some p8
            /\ d2i_PBEPARAM L (parameter (algor (shkeybag bag))) = Some pbe
            /\ PKCS8_encrypt L (algorithm (algor (shkeybag bag))) n
                 (Z.of_nat (length (salt pbe))) (iter pbe) p8 = Some (shkeybag bag'))).
    { unfold newpass_bag, alg_get.
      destruct (Z.eqb_spec (bag_type bag) NID_pkcs8ShroudedKeyBag) as [Hs|Hs]; simpl.
      2: { split; [by right|]. split; [done|]. split; [done|]. intros _ ?. done. }
      destruct (PKCS8_decrypt L (shkeybag bag) o) as [p8|];
        [|split; [by left|]; split; [done|]; split; [done|]; intros ?; lia].
      destruct (d2i_PBEPARAM L _) as [pbe|];
        [|split; [by left|]; split; [done|]; split; [done|]; intros ?; lia].
      destruct (PKCS8_encrypt L _ n _ _ p8) as [p8new|] eqn:Henc;
        [|split; [by left|]; split; [done|]; split; [done|]; intros ?; lia].
      split; [by right|]. split; [done|]. split; [done|].
      intros _ _. by exists p8, pbe. }
    destruct (newpass_bag L bag o n) as [rb bag'].
    destruct Hbag as (Hrb & Htb & Hkb & Hreb).
    destruct (Z.eqb_spec rb 0) as [->|Hnz]; simpl.
    + split; [by left|]. split; [by rewrite Htb|]. split; [|intros ?; lia].
      intros [|i] b Hb Hns; simpl in *; [|done].
      injection Hb as <-. destruct (Hkb Hns) as [? _]. lia.
    + destruct (newpass_bags L rest o n) as [r' rest']. simpl in *.
      split; [done|]. split; [by f_equal|]. split.
      * intros [|i] b Hb Hns; simpl in *; [|by apply Hkeep].
        injection Hb as <-. by destruct (Hkb Hns) as [_ ->].
      * intros Hr1 [|i] b b' Hb Hb' Hs; simpl in *; [|by apply (Hre Hr1 i)].
        injection Hb as <-. injection Hb' as <-. apply Hreb; [lia|done].
Qed.
End NewpassMore.

Lemma PKCS12_newpass_success_carries_nothing_witness :
  exists packed mac,
    P12.PKCS12_newpass P12_failing.crypto (Some P12_sample.p12) [] []
    = (1, Some {| P12.authsafes_data := Some packed; P12.mac_digest := mac |})
    /\ P12.PKCS12_pack_authsafes P12_failing.crypto
         {| P12.authsafes_data := Some []; P12.mac_digest := P12.mac_digest P12_sample.p12 |} []
       = Some packed.
Proof.
  destruct (PKCS12_newpass_success_carries_nothing P12_failing.crypto P12_sample.p12 [] []
              (Some {| P12.authsafes_data := Some [0; 4; 5; 6]; P12.mac_digest := [7] |})
              eq_refl)
    as (authsafes & safes0 & packed & mac & _ & Hnew & _ & Hpack & Hr).
  injection Hnew as <-. injection Hr as <- <-.
  exists [0; 4; 5; 6], [7]. split; [reflexivity|exact Hpack].
Defined.

(** *** The route watcher *)

Lemma lor_ones (x k : Z) :
  0 <= k -> Z.lor x (2 ^ k - 1) = x - x mod 2 ^ k + (2 ^ k - 1).
Proof.
  intros Hk. pose proof (Z.add_lor_land x (2 ^ k - 1)) as H.
  replace (2 ^ k - 1) with (Z.ones k) in * by (rewrite Z.ones_equiv; lia).
  rewrite Z.land_ones in H by done. lia.
Qed.

Lemma ROUNDUP_multiple (h : route_h) (k a : Z) :
  0 <= k -> sizeof_long h = 2 ^ k -> 0 < a ->
  ROUNDUP h a = ((a - 1) / 2 ^ k + 1) * 2 ^ k.
Proof.
  intros Hk Hsz Ha. unfold ROUNDUP. rewrite Hsz.
  assert (Hpos : 0 < 2 ^ k) by (apply Z.pow_pos_nonneg; lia).
  destruct (Z.ltb_spec 0 a) as [_|]; [|lia].
  rewrite lor_ones by done.
  pose proof (Z.div_mod (a - 1) (2 ^ k) ltac:(lia)) as Hdm. lia.
Qed.

Lemma ROUNDUP_ge (h : route_h) (k a : Z) :
  0 <= k -> sizeof_long h = 2 ^ k -> 0 <= a -> 0 < ROUNDUP h a /\ a <= ROUNDUP h a.
Proof.
  intros Hk Hsz Ha.
  assert (Hpos : 0 < 2 ^ k) by (apply Z.pow_pos_nonneg; lia).
  destruct (Z.lt_ge_cases 0 a) as [Hlt|Hge].
  - rewrite (ROUNDUP_multiple h k a) by done.
    pose proof (Z.mod_pos_bound (a - 1) (2 ^ k) Hpos) as Hm.
    pose proof (Z.div_mod (a - 1) (2 ^ k) ltac:(lia)) as Hdm.
    assert (Hq : 0 <= (a - 1) / 2 ^ k) by (apply Z.div_pos; lia).
    split; nia.
  - unfold ROUNDUP. destruct (Z.ltb_spec 0 a); [lia|]. lia.
Qed.

(** X21. When [sizeof(long)] is a power of two, ROUNDUP gives a multiple of
    it that is at least [sizeof(long)]: for a positive argument the least
    multiple that is not below the argument, and [sizeof(long)] itself for
    an argument that is not positive. *)
Theorem ROUNDUP_rounds_up (h : route_h) (k a : Z) :
  0 <= k -> sizeof_long h = 2 ^ k ->
  ROUNDUP h a mod sizeof_long h = 0
  /\ sizeof_long h <= ROUNDUP h a
  /\ (0 < a -> a <= ROUNDUP h a < a + sizeof_long h)
  /\ (a <= 0 -> ROUNDUP h a = sizeof_long h).
Proof.
  intros Hk Hsz.
  assert (Hpos : 0 < 2 ^ k) by (apply Z.pow_pos_nonneg; lia).
  destruct (Z.lt_ge_cases 0 a) as [Ha|Ha].
  - rewrite (ROUNDUP_multiple h k a), Hsz by done.
    pose proof (Z.mod_pos_bound (a - 1) (2 ^ k) Hpos) as Hm.
    pose proof (Z.div_mod (a - 1) (2 ^ k) ltac:(lia)) as Hdm.
    assert (Hq : 0 <= (a - 1) / 2 ^ k) by (apply Z.div_pos; lia).
    split; [apply Z.mod_mul; lia|]. split; [nia|]. split; [|lia].
    intros _. nia.
  - unfold ROUNDUP. destruct (Z.ltb_spec 0 a) as [|_]; [lia|].
    split; [apply Z.mod_same; lia|]. split; [lia|]. split; [lia|done].
Qed.

Lemma ROUNDUP_rounds_up_witness :
  ROUNDUP openbsd64 6 = 8 /\ ROUNDUP openbsd64 16 = 16 /\ ROUNDUP openbsd64 0 = 8
  /\ ROUNDUP openbsd64 6 mod sizeof_long openbsd64 = 0.
Proof.
  split; [reflexivity|]. split; [reflexivity|]. split; [reflexivity|].
  apply (ROUNDUP_rounds_up openbsd64 3 6); [lia|reflexivity].
Defined.

Lemma testbit_land_shiftl (addrs : Z) (i : nat) :
  (Z.land addrs (Z.shiftl 1 (Z.of_nat i)) =? 0) = negb (Z.testbit addrs (Z.of_nat i)).
Proof.
  rewrite Z.shiftl_1_l. apply land_pow2_testbit. lia.
Qed.

Lemma get_rtaddrs_from_spec (h : route_h) (k : Z) (buf : route_buf) (addrs : Z)
    (n i sa : nat) (rti : list (option nat)) :
  0 <= k -> sizeof_long h = 2 ^ k ->
  (forall a len, sa_len_at buf a = Some len -> 0 <= len) ->
  get_rtaddrs_from h buf addrs i n sa = Ok rti ->
  length rti = n
  /\ (forall j, (j < n)%nat ->
        rti !! j = Some None <-> Z.testbit addrs (Z.of_nat (i + j)) = false)
  /\ (forall j a, rti !! j = Some (Some a) ->
        (sa <= a)%nat /\ exists len, sa_len_at buf a = Some len
        /\ forall j' b, (j < j')%nat -> rti !! j' = Some (Some b) ->
             Z.of_nat a + len <= Z.of_nat b /\ (a < b)%nat).
Proof.
  intros Hk Hsz Hlen. revert i sa rti.
  induction n as [|n IH]; intros i sa rti; simpl.
  - intros [= <-]. split; [done|]. split; [intros j Hj; lia|]. intros j a H. done.
  - rewrite testbit_land_shiftl, negb_involutive.
    destruct (Z.testbit addrs (Z.of_nat i)) eqn:Hbit.
    + destruct (sa_len_at buf sa) as [len|] eqn:Hsa; simpl; [|done].
      destruct (get_rtaddrs_from h buf addrs (S i) n _) as [rest| | |] eqn:Hrest;
        simpl; [|done..].
      intros [= <-]. destruct (IH _ _ _ Hrest) as (Hl & Hbits & Hptr).
      pose proof (ROUNDUP_ge h k len Hk Hsz (Hlen _ _ Hsa)) as [Hpos Hge].
      assert (Hstep : Z.of_nat sa + len <= Z.of_nat (sa + Z.to_nat (ROUNDUP h len))
                      /\ (sa < sa + Z.to_nat (ROUNDUP h len))%nat) by lia.
      split; [simpl; by rewrite Hl|]. split.
      * intros [|j] Hj; simpl.
        -- rewrite Nat.add_0_r, Hbit. split; done.
        -- rewrite Hbits by lia. by replace (S i + j)%nat with (i + S j)%nat by lia.
      * intros [|j] a; simpl.
        -- intros [= <-]. split; [done|]. exists len. split; [done|].
           intros [|j'] b Hj' Hb; [lia|]. simpl in Hb.
           destruct (Hptr j' b Hb) as [Hsa' _]. lia.
        -- intros Ha. destruct (Hptr j a Ha) as (Hsa' & len' & Hlen' & Hlater).
           split; [lia|]. exists len'. split; [done|].
           intros [|j'] b Hj' Hb; [lia|]. simpl in Hb. apply (Hlater j'); [lia|done].
    + destruct (get_rtaddrs_from h buf addrs (S i) n sa) as [rest| | |] eqn:Hrest;
        simpl; [|done..].
      intros [= <-]. destruct (IH _ _ _ Hrest) as (Hl & Hbits & Hptr).
      split; [simpl; by rewrite Hl|]. split.
      * intros [|j] Hj; simpl.
        -- rewrite Nat.add_0_r, Hbit. done.
        -- rewrite Hbits by lia. by replace (S i + j)%nat with (i + S j)%nat by lia.
      * intros [|j] a; simpl; [done|].
        intros Ha. destruct (Hptr j a Ha) as (Hsa' & len' & Hlen' & Hlater).
        split; [lia|]. exists len'. split; [done|].
        intros [|j'] b Hj' Hb; [lia|]. simpl in Hb. apply (Hlater j'); [lia|done].
Qed.

(** X22. [get_rtaddrs] fills [rti_info] from the address bits: it has
    RTAX_MAX entries, entry i is NULL exactly when bit i of [addrs] is clear,
    and the entries that are set point, in ascending order and starting no
    earlier than [sa], to sockaddrs that do not overlap. *)
Theorem get_rtaddrs_layout (h : route_h) (k : Z) (buf : route_buf) (addrs : Z)
    (sa : nat) (rti_info : list (option nat)) :
  0 <= k -> sizeof_long h = 2 ^ k ->
  (forall a len, sa_len_at buf a = Some len -> 0 <= len) ->
  get_rtaddrs h buf addrs sa = Ok rti_info ->
  length rti_info = RTAX_MAX h
  /\ (forall i, (i < RTAX_MAX h)%nat ->
        rti_info !! i = Some None <-> Z.testbit addrs (Z.of_nat i) = false)
  /\ (forall i a, rti_info !! i = Some (Some a) ->
        (sa <= a)%nat /\ exists len, sa_len_at buf a = Some len
        /\ forall j b, (i < j)%nat -> rti_info !! j = Some (Some b) ->
             Z.of_nat a + len <= Z.of_nat b /\ (a < b)%nat).
Proof.
  intros Hk Hsz Hlen Hrun. unfold get_rtaddrs in Hrun.
  destruct (get_rtaddrs_from_spec h k buf addrs (RTAX_MAX h) 0 sa rti_info Hk Hsz Hlen Hrun)
    as (Hl & Hbits & Hptr).
  split; [done|]. split; [|done].
  intros i Hi. by rewrite Hbits.
Qed.

Lemma get_rtaddrs_layout_witness :
  get_rtaddrs openbsd64 proposal_buf 4096 24 = Ok proposal_rti
  /\ length proposal_rti = RTAX_MAX openbsd64.
Proof.
  assert (H : get_rtaddrs openbsd64 proposal_buf 4096 24 = Ok proposal_rti) by reflexivity.
  split; [exact H|].
  apply (get_rtaddrs_layout openbsd64 3 proposal_buf 4096 24); [lia|reflexivity| |exact H].
  intros a len. simpl. destruct (a =? 24)%nat; [|done]. intros [= <-]. lia.
Defined.

Lemma misaligned_spec (h : route_h) (len size j : Z) :
  0 <= j -> size = 2 ^ j -> j <= size_t_bits h -> 0 <= len < 256 -> 2 < size ->
  misaligned h len size = false <-> 2 <= len /\ (len - 2) mod size = 0.
Proof.
  intros Hj Hsize Hbits Hlen H2. unfold misaligned.
  assert (Hpos : 0 < size) by lia.
  assert (Hmod : ((len - 2) mod 2 ^ size_t_bits h) mod size = (len - 2) mod size).
  { replace (2 ^ size_t_bits h) with (size * 2 ^ (size_t_bits h - j))
      by (rewrite Hsize, <- Z.pow_add_r by lia; f_equal; lia).
    pose proof (Z.pow_pos_nonneg 2 (size_t_bits h - j) ltac:(lia) ltac:(lia)).
    rewrite Z.rem_mul_r by lia.
    rewrite (Z.mul_comm size), Z.mod_add by lia. apply Z.mod_mod. lia. }
  rewrite Hmod, negb_false_iff, Z.eqb_eq. split; [|tauto].
  intros H0. split; [|done].
  destruct (Z.lt_ge_cases len 2) as [Hlt|]; [|done]. exfalso.
  assert (Hc : len - 2 = -2 \/ len - 2 = -1) by lia.
  pose proof (Z.mod_pos_bound (len - 2) size Hpos).
  pose proof (Z.div_mod (len - 2) size ltac:(lia)) as Hdm. rewrite H0 in Hdm.
  assert ((len - 2) / size = -1 \/ (len - 2) / size < -1 \/ 0 <= (len - 2) / size) by lia.
  nia.
Qed.

(** X23. An RTM_PROPOSAL message without RTA_DNS sends nothing.  With
    RTA_DNS, [rti_info[RTAX_DNS]] is set, and the proposal is passed on as
    IMSG_REPLACE_DNS with the interface index and the priority of the
    message exactly when its family is AF_INET or AF_INET6, its length is at
    least the two leading octets and the rest is a whole number of
    addresses of that family; every other proposal is ignored. *)
Theorem route_proposal_validation
    (h : route_h) (k : Z) (garbage : list Z) (buf : route_buf) (rtm : rt_msghdr)
    (rti_info : list (option nat)) :
  0 <= k -> sizeof_long h = 2 ^ k ->
  4 <= size_t_bits h -> RTA_DNS h = 2 ^ Z.of_nat (RTAX_DNS h) ->
  (RTAX_DNS h < RTAX_MAX h)%nat ->
  rtm_type rtm = RTM_PROPOSAL h -> RTM_PROPOSAL h <> RTM_IFANNOUNCE h ->
  RTM_PROPOSAL h <> RTM_IFINFO h ->
  (forall a len, sa_len_at buf a = Some len -> 0 <= len) ->
  (forall a len, sa_len_at buf a = Some len ->
     exists r, rtdns_at buf a = Some r /\ sr_len r = len /\ len < 256) ->
  get_rtaddrs h buf (rtm_addrs rtm) (rtm_hdrlen rtm) = Ok rti_info ->
  (Z.land (rtm_addrs rtm) (RTA_DNS h) = 0 ->
   handle_route_message h garbage buf rtm rti_info = Ok [])
  /\ (Z.land (rtm_addrs rtm) (RTA_DNS h) <> 0 ->
      exists sa r,
        rti_info !! RTAX_DNS h = Some (Some sa) /\ rtdns_at buf sa = Some r
        /\ (wellformed_rtdns h r ->
            handle_route_message h garbage buf rtm rti_info
            = Ok [IMSG_REPLACE_DNS
                    {| if_index := rtm_index rtm; src := rtm_priority rtm; rtdns := r |}])
        /\ (~ wellformed_rtdns h r ->
            handle_route_message h garbage buf rtm rti_info = Ok [])).
Proof.
  intros Hk Hsz Hbits Hrta Hrtax Hty Hne1 Hne2 Hnonneg Hmem Hrun.
  unfold get_rtaddrs in Hrun.
  destruct (get_rtaddrs_from_spec h k buf (rtm_addrs rtm) (RTAX_MAX h) 0 (rtm_hdrlen rtm)
              rti_info Hk Hsz Hnonneg Hrun) as (Hl & Hnull & Hptr).
  unfold handle_route_message. rewrite Hty.
  destruct (Z.eqb_spec (RTM_PROPOSAL h) (RTM_IFANNOUNCE h)) as [|_]; [done|].
  destruct (Z.eqb_spec (RTM_PROPOSAL h) (RTM_IFINFO h)) as [|_]; [done|].
  rewrite Z.eqb_refl.
  split.
  { intros ->. reflexivity. }
  intros Hset. destruct (Z.eqb_spec (Z.land (rtm_addrs rtm) (RTA_DNS h)) 0) as [|_]; [done|].
  assert (Hbit : Z.testbit (rtm_addrs rtm) (Z.of_nat (RTAX_DNS h)) = true).
  { destruct (Z.testbit (rtm_addrs rtm) (Z.of_nat (RTAX_DNS h))) eqn:Hb; [done|].
    exfalso. apply Hset. rewrite Hrta. apply Z.eqb_eq.
    rewrite land_pow2_testbit by lia. by rewrite Hb. }
  destruct (rti_info !! RTAX_DNS h) as [[sa|]|] eqn:Hsa.
  2: { apply Hnull in Hsa; [simpl in Hsa; congruence|done]. }
  2: { apply lookup_ge_None in Hsa. lia. }
  destruct (Hptr _ _ Hsa) as (_ & len & Hlen & _).
  destruct (Hmem _ _ Hlen) as (r & Hr & Hrl & Hlt).
  pose proof (Hnonneg _ _ Hlen) as H0.
  exists sa, r. split; [done|]. split; [done|].
  simpl. rewrite Hr. simpl.
  pose proof (misaligned_spec h (sr_len r) sizeof_in_addr 2 ltac:(lia) eq_refl ltac:(lia)
                ltac:(lia) ltac:(unfold sizeof_in_addr; lia)) as H4.
  pose proof (misaligned_spec h (sr_len r) sizeof_in6_addr 4 ltac:(lia) eq_refl ltac:(lia)
                ltac:(lia) ltac:(unfold sizeof_in6_addr; lia)) as H16.
  unfold sizeof_in_addr, sizeof_in6_addr in *.
  unfold wellformed_rtdns.
  destruct (Z.eqb_spec (sr_family r) (AF_INET h)) as [Hf4|Hf4].
  - destruct (misaligned h (sr_len r) 4) eqn:Hm.
    + split; [|done]. intros [(_ & Hw)|(Hn & _)]; [|done].
      apply H4 in Hw. congruence.
    + split; [done|]. intros Hn. exfalso. apply Hn. left. split; [done|]. by apply H4.
  - destruct (Z.eqb_spec (sr_family r) (AF_INET6 h)) as [Hf6|Hf6].
    + destruct (misaligned h (sr_len r) 16) eqn:Hm.
      * split; [|done]. intros [(Hf & _)|(_ & _ & Hw)]; [done|].
        apply H16 in Hw. congruence.
      * split; [done|]. intros Hn. exfalso. apply Hn. right.
        split; [done|]. split; [done|]. by apply H16.
    + split; [|done]. intros [(Hf & _)|(_ & Hf & _)]; done.
Qed.

Lemma route_proposal_validation_witness :
  route_receive openbsd64 [] true (inl 32) proposal_buf
  = Ok [IMSG_REPLACE_DNS {| if_index := 1; src := 56; rtdns := proposal_rtdns |}]
  /\ exists sa r,
       proposal_rti !! RTAX_DNS openbsd64 = Some (Some sa)
       /\ rtdns_at proposal_buf sa = Some r.
Proof.
  split; [reflexivity|].
  destruct (route_proposal_validation openbsd64 3 [] proposal_buf (rtm_at_0 proposal_buf)
              proposal_rti)
    as [_ H]; try reflexivity; try (simpl; lia); try discriminate.
  - intros a len. simpl. destruct (a =? 24)%nat; [|done]. intros [= <-]. lia.
  - intros a len. simpl. destruct (a =? 24)%nat; [|done]. intros [= <-].
    exists proposal_rtdns. split; [done|]. split; [reflexivity|lia].
  - destruct H as (sa & r & H1 & H2 & _); [discriminate|]. by exists sa, r.
Defined.

(** *** The descriptors the parent hands over *)

Lemma frontend_dispatch_main_sock_spec (malloc_ok : bool) (m : imsg_main) (s s' : socks) :
  socks_ok s ->
  frontend_dispatch_main_sock malloc_ok m s = Ok s' ->
  socks_ok s'
  /\ match m with
     | Handover t fd =>
         sock_of s t = -1 /\ fd <> -1 /\ sock_of s' t = fd
         /\ (forall t', t' <> t -> sock_of s' t' = sock_of s t')
         /\ startup_done s' = startup_done s
     | IMSG_STARTUP =>
         (forall t, sock_of s' t = sock_of s t) /\ routesock s <> -1
         /\ startup_done s' = S (startup_done s)
     end.
Proof.
  intros [Hres Hroute] Hrun. destruct m as [t fd|]; simpl in Hrun.
  - destruct t;
      repeat match type of Hrun with
        | context [bool_decide ?P] => destruct (bool_decide_reflect P); [done|]
        | context [?a =? ?b] => destruct (Z.eqb_spec a b); simpl in Hrun; try done
        | context [negb ?b] => destruct b; simpl in Hrun; try done
        end;
      injection Hrun as <-;
      (split; [split; simpl; [try done; by intros ? [= <-] | try done; split; congruence]|]);
      (split; [simpl; try done; by destruct (iev_resolver s); [exfalso; eauto|]|]);
      (split; [done|]); (split; [done|]);
      (split; [|done]); intros []; simpl; done.
  - unfold frontend_startup in Hrun. destruct (ev_route s) as [fd|] eqn:Hev; [|done].
    injection Hrun as <-. split; [split; simpl; done|].
    split; [by intros []|]. split; [|done].
    intros Hr. apply Hroute in Hr. congruence.
Qed.

Lemma frontend_dispatch_main_socks_spec (malloc_ok : bool) (ms : list imsg_main)
    (s s' : socks) :
  socks_ok s ->
  frontend_dispatch_main_socks malloc_ok ms s = Ok s' ->
  socks_ok s'
  /\ (forall i t fd, ms !! i = Some (Handover t fd) ->
        sock_of s t = -1 /\ fd <> -1 /\ sock_of s' t = fd
        /\ forall j fd', ms !! j = Some (Handover t fd') -> j = i)
  /\ (forall t, (forall i fd, ms !! i <> Some (Handover t fd)) -> sock_of s' t = sock_of s t)
  /\ (forall i, ms !! i = Some IMSG_STARTUP ->
        routesock s <> -1
        \/ exists j fd, (j < i)%nat /\ ms !! j = Some (Handover IMSG_ROUTESOCK fd))
  /\ startup_done s' = (startup_done s + length (filter (eq IMSG_STARTUP) ms))%nat.
Proof.
  revert s. induction ms as [|m ms IH]; intros s Hok; simpl.
  - intros [= <-]. split; [done|]. split; [done|]. split; [done|]. split; [done|].
    by rewrite Nat.add_0_r.
  - destruct (frontend_dispatch_main_sock malloc_ok m s) as [s1| | |] eqn:Hm; simpl; [|done..].
    intros Hrun.
    destruct (frontend_dispatch_main_sock_spec _ _ _ _ Hok Hm) as [Hok1 Hstep].
    destruct (IH _ Hok1 Hrun) as (Hok' & Hhand & Hkeep & Hstart & Hcount).
    split; [done|].
    assert (Hlater : forall t fd j fd', sock_of s1 t = fd -> fd <> -1 ->
                       ms !! j = Some (Handover t fd') -> False).
    { intros t fd j fd' H1 H2 Hj. destruct (Hhand _ _ _ Hj) as [H _]. congruence. }
    split; [|split; [|split]].
    + intros [|i] t fd Hi; simpl in Hi.
      * injection Hi as ->. destruct Hstep as (H0 & Hfd & Hs1 & Hothers & _).
        split; [done|]. split; [done|]. split.
        -- rewrite Hkeep; [done|]. intros i fd' Hi. by eapply Hlater.
        -- intros [|j] fd' Hj; [done|]. simpl in Hj. exfalso. by eapply Hlater.
      * destruct (Hhand _ _ _ Hi) as (H0 & Hfd & Hs' & Huniq).
        assert (Hs : sock_of s t = -1 /\ m <> Handover t fd /\ forall fd', m <> Handover t fd').
        { destruct m as [t0 fd0|].
          - destruct Hstep as (H00 & Hfd0 & Hs1 & Hothers & _).
            destruct (decide (t = t0)) as [->|Hne]; [congruence|].
            rewrite <- Hothers by done. split; [done|]. split; congruence.
          - destruct Hstep as (Hsame & _). rewrite <- Hsame. done. }
        destruct Hs as (Hs & _ & Hm').
        split; [done|]. split; [done|]. split; [done|].
        intros [|j] fd' Hj; simpl in Hj; [by injection Hj as ->; destruct (Hm' fd')|].
        f_equal. by eapply Huniq.
    + intros t Hnone. rewrite Hkeep by (intros i fd; apply (Hnone (S i))).
      destruct m as [t0 fd0|].
      * destruct Hstep as (_ & _ & _ & Hothers & _). apply Hothers.
        intros ->. by apply (Hnone 0%nat fd0).
      * by destruct Hstep as (Hsame & _).
    + intros [|i] Hi; simpl in Hi.
      * injection Hi as ->. left. by destruct Hstep as (_ & H & _).
      * destruct (Hstart _ Hi) as [Hr|(j & fd & Hj & Hmj)].
        -- destruct m as [t0 fd0|].
           ++ destruct Hstep as (H00 & Hfd0 & Hs1 & Hothers & _).
              destruct (decide (IMSG_ROUTESOCK = t0)) as [<-|Hne].
              ** right. exists 0%nat, fd0. split; [lia|done].
              ** left. pose proof (Hothers IMSG_ROUTESOCK Hne) as H. simpl in H. congruence.
           ++ left. destruct Hstep as (Hsame & _).
              pose proof (Hsame IMSG_ROUTESOCK) as H. simpl in H. congruence.
        -- right. exists (S j), fd. split; [lia|done].
    + rewrite Hcount. rewrite filter_cons.
      destruct m as [t0 fd0|].
      * destruct Hstep as (_ & _ & _ & _ & ->).
        by destruct (decide (IMSG_STARTUP = Handover t0 fd0)).
      * destruct Hstep as (_ & _ & ->).
        destruct (decide (IMSG_STARTUP = IMSG_STARTUP)); [simpl; lia|done].
Qed.

(** X24. The parent hands over each descriptor at most once: in a run of
    the dispatcher that does not end fatally no descriptor message repeats
    its type, every descriptor received differs from -1 and is the one held
    at the end, a type that was not received is still at -1, every
    IMSG_STARTUP has the route socket before it, and one IMSG_STARTUP_DONE is
    composed per IMSG_STARTUP. *)
Theorem descriptors_are_handed_over_once (malloc_ok : bool) (ms : list imsg_main)
    (s : socks) :
  frontend_dispatch_main_socks malloc_ok ms socks_initial = Ok s ->
  (forall i t fd, ms !! i = Some (Handover t fd) ->
     fd <> -1 /\ sock_of s t = fd
     /\ forall j fd', ms !! j = Some (Handover t fd') -> j = i)
  /\ (forall t, (forall i fd, ms !! i <> Some (Handover t fd)) -> sock_of s t = -1)
  /\ (forall i, ms !! i = Some IMSG_STARTUP ->
        exists j fd, (j < i)%nat /\ ms !! j = Some (Handover IMSG_ROUTESOCK fd))
  /\ startup_done s = length (filter (eq IMSG_STARTUP) ms).
Proof.
  intros Hrun.
  assert (Hok : socks_ok socks_initial) by (split; [done|split; done]).
  destruct (frontend_dispatch_main_socks_spec _ _ _ _ Hok Hrun)
    as (_ & Hhand & Hkeep & Hstart & Hcount).
  split; [|split; [|split]].
  - intros i t fd Hi. destruct (Hhand _ _ _ Hi) as (_ & Hfd & Hs & Huniq). done.
  - intros t Hnone. rewrite Hkeep by done. by destruct t.
  - intros i Hi. by destruct (Hstart _ Hi) as [Hr|Hj].
  - by rewrite Hcount.
Qed.

Lemma descriptors_are_handed_over_once_witness :
  frontend_dispatch_main_socks true startup_messages socks_initial = Ok started
  /\ sock_of started IMSG_ROUTESOCK = 8 /\ startup_done started = 1%nat
  /\ frontend_dispatch_main_socks true (IMSG_STARTUP :: startup_messages) socks_initial = Fatal
  /\ frontend_dispatch_main_socks true (startup_messages ++ [Handover IMSG_UDP4SOCK 10])
       socks_initial = Fatal.
Proof.
  assert (H : frontend_dispatch_main_socks true startup_messages socks_initial = Ok started)
    by (vm_compute; reflexivity).
  split; [exact H|].
  pose proof (descriptors_are_handed_over_once true startup_messages started H)
    as (Hhand & _ & _ & Hcount).
  split; [by destruct (Hhand 5%nat IMSG_ROUTESOCK 8 eq_refl) as (_ & H' & _)|].
  split; [exact Hcount|]. split; vm_compute; reflexivity.
Defined.
